(** * pyrapt: the RAPT pitch tracker of [pyrapt/pyrapt.py]

    A shallow embedding of the NCCF candidate generator and of the
    dynamic-programming post-processing of [pyrapt.py] (Python 2.7), and
    the properties of the specification stated over it.

    Numbers.  Python's [int] is [Z]; [int / int] is the floor division of
    Python 2.  The frame geometry truncates the product of a duration and of
    the sample rate, and the truncation sees the rounding of that product, so
    the product is computed as the interpreter computes it, in IEEE 754
    binary64 ([SpecFloat] of the Standard Library).  Everywhere else Python's
    [float] is embedded as a real number ([R]): every arithmetic operation is
    the exact one, and the only failures kept are the ones Python raises on
    exact values (a zero divisor, the square root of a negative number, an
    index outside a list).  What is proved about the value of a correlation,
    of a cost or of an interpolated peak is thus proved of the exact quantity,
    which the doubles of the program follow up to rounding; the statements
    that depend on it say so. *)

From Stdlib Require Import Reals Lra Lia ZArith List Bool.
From Stdlib Require Import QArith SpecFloat.
From Stdlib Require Import Sorted Permutation.
Import ListNotations.

Local Open Scope Z_scope.

(** ** Exceptions and the error monad *)

Inductive exn : Set :=
| ZeroDivisionError
| IndexError
| ValueError
| OverflowError
| TypeError.

Inductive result (A : Type) : Type :=
| Ok (a : A)
| Raise (e : exn).

Arguments Ok {A} a.
Arguments Raise {A} e.

Definition bind {A B : Type} (m : result A) (k : A -> result B) : result B :=
  match m with
  | Ok a => k a
  | Raise e => Raise e
  end.

Notation "x <- m ;; k" := (bind m (fun x => k))
  (at level 61, m at next level, right associativity).
Notation "' pat <- m ;; k" := (bind m (fun x => match x with pat => k end))
  (at level 61, pat pattern, m at next level, right associativity).

(** A [for] loop whose body may raise: the state is threaded from left to
    right and the first exception ends the loop. *)
Fixpoint for_each {A S : Type} (body : S -> A -> result S) (l : list A) (s : S)
  : result S :=
  match l with
  | [] => Ok s
  | x :: l' => s' <- body s x ;; for_each body l' s'
  end.

(** ** Python lists and numbers *)

Definition py_len {A : Type} (l : list A) : Z := Z.of_nat (length l).

(** [l[i]]: a negative index counts from the end. *)
Definition py_getitem {A : Type} (l : list A) (i : Z) : result A :=
  let j := if i <? 0 then i + py_len l else i in
  if (0 <=? j) && (j <? py_len l) then
    match nth_error l (Z.to_nat j) with
    | Some x => Ok x
    | None => Raise IndexError
    end
  else Raise IndexError.

Fixpoint list_update {A : Type} (l : list A) (n : nat) (v : A) : list A :=
  match l, n with
  | [], _ => []
  | _ :: l', O => v :: l'
  | x :: l', S n' => x :: list_update l' n' v
  end.

(** [l[i] = v] *)
Definition py_setitem {A : Type} (l : list A) (i : Z) (v : A) : result (list A) :=
  let j := if i <? 0 then i + py_len l else i in
  if (0 <=? j) && (j <? py_len l) then Ok (list_update l (Z.to_nat j) v)
  else Raise IndexError.

(** The bound of a slice, clamped into [[0, len]]. *)
Definition slice_bound (len i : Z) : Z :=
  if i <? 0 then Z.max 0 (i + len) else Z.min i len.

(** [l[a:b]]: never raises. *)
Definition py_slice {A : Type} (l : list A) (a b : Z) : list A :=
  let a' := slice_bound (py_len l) a in
  let b' := slice_bound (py_len l) b in
  firstn (Z.to_nat (b' - a')) (skipn (Z.to_nat a') l).

(** [xrange(a, b)] and [range(a, b)] *)
Definition xrange (a b : Z) : list Z :=
  map (fun i => a + Z.of_nat i) (seq 0 (Z.to_nat (b - a))).

(** [[x] * n] *)
Definition py_repeat {A : Type} (x : A) (n : Z) : list A := repeat x (Z.to_nat n).

(** [enumerate(l)] *)
Definition enumerate {A : Type} (l : list A) : list (Z * A) :=
  combine (map Z.of_nat (seq 0 (length l))) l.

(** [int / int] of Python 2: floor division. *)
Definition py_floordiv (a b : Z) : result Z :=
  if b =? 0 then Raise ZeroDivisionError else Ok (a / b).

(** ** Doubles

    IEEE 754 binary64, rounded to nearest, ties to even: [SpecFloat] with a
    precision of 53 bits and infinities at the exponent 1024. *)

Definition binary64 : Type := spec_float.

(** The double nearest to an integer; an infinity beyond the largest
    double. *)
Definition nearest_double (z : Z) : binary64 := binary_normalize 53 1024 z 0 false.

(** [float(z)], and the conversion of the integer operand of [float * int]:
    Python refuses an integer beyond the largest double. *)
Definition float_of_int (z : Z) : result binary64 :=
  match nearest_double z with
  | S754_infinity _ => Raise OverflowError
  | f => Ok f
  end.

(** The double a decimal literal of value [q] denotes.  Both terms of the
    fraction are integers that a double holds exactly for the literals of
    interest, so their quotient is rounded once. *)
Definition float_of_Q (q : Q) : binary64 :=
  SFdiv 53 1024 (nearest_double (Qnum q)) (nearest_double (Zpos (Qden q))).

(** [int(x)] on a double: truncation towards zero; [nan] and the infinities
    are refused. *)
Definition int_of_float (x : binary64) : result Z :=
  match x with
  | S754_zero _ => Ok 0
  | S754_infinity _ => Raise OverflowError
  | S754_nan => Raise ValueError
  | S754_finite s m e =>
      let magnitude := Z.shiftl (Zpos m) e in
      Ok (if s then - magnitude else magnitude)
  end.

(** [int(x * rate)] for a float option [x] and the integer sample rate. *)
Definition int_of_product (x : Q) (rate : Z) : result Z :=
  r <- float_of_int rate ;;
  int_of_float (SFmul 53 1024 (float_of_Q x) r).

Local Open Scope R_scope.

Definition Rgtb (x y : R) : bool := if Rlt_dec y x then true else false.
Definition Rgeb (x y : R) : bool := if Rle_dec y x then true else false.
Definition Reqb (x y : R) : bool := if Req_dec_T x y then true else false.

(** [sum(l)] *)
Definition py_sum (l : list R) : R := fold_left Rplus l 0.

(** [x / y] on floats *)
Definition py_div (x y : R) : result R :=
  if Reqb y 0 then Raise ZeroDivisionError else Ok (x / y).

(** [math.sqrt(x)] *)
Definition py_sqrt (x : R) : result R :=
  if Rgtb 0 x then Raise ValueError else Ok (sqrt x).

(** [round(x)] of Python 2: to the nearest integer, halves away from zero;
    the result is still a float. *)
Definition py_round (x : R) : R :=
  if Rgeb x 0 then IZR (Int_part (x + / 2))
  else - IZR (Int_part (- x + / 2)).

(** [int(x)] on a float: truncation towards zero. *)
Definition py_int (x : R) : Z :=
  if Rgeb x 0 then Int_part x else (- Int_part (- x))%Z.

(** ** Parameters *)

(** Modelled from the spec: the module [raptparams] is imported by
    [pyrapt.py] but is not among the sources.  [Raptparams] is a plain
    attribute holder; its fields are the options of section 6 of the
    specification, which are the attributes [pyrapt.py] reads.  The frequency
    bounds and the hypothesis cap are integers; the two durations are floats,
    given here by the value of their decimal literal and read as the double
    nearest to it ([float_of_Q]); the remaining weights are floats. *)
Record Raptparams : Type := {
  maximum_allowed_freq : Z;
  minimum_allowed_freq : Z;
  frame_step_size : Q;
  correlation_window_size : Q;
  min_acceptable_peak_val : R;
  max_hypotheses_per_frame : Z;
  additive_constant : R;
  voicing_bias : R;
  lag_weight : R;
  freq_weight : R;
  doubling_cost : R;
  transition_cost : R;
  spec_mod_transition_cost : R;
  amp_mod_transition_cost : R;
  sample_rate_ratio : R
}.

(** Modelled from the spec: the module [nccfparams] is not among the sources
    either.  [Nccfparams] holds the frame geometry of section 4.1: the five
    attributes that [_get_nccf_params] assigns. *)
Record Nccfparams : Type := {
  samples_correlated_per_lag : Z;
  shortest_lag_per_frame : Z;
  longest_lag_per_frame : Z;
  samples_per_frame : Z;
  max_frame_count : Z
}.

(** An audio input is the pair [(sample rate, samples)]. *)
Definition audio : Type := (Z * list R)%type.

(** A hypothesis is the pair [(lag, correlation)]. *)
Definition hypothesis : Type := (Z * R)%type.

(** ** Frame geometry *)

Definition _get_nccf_params (audio_input : audio) (raptparams : Raptparams)
    (is_firstpass : bool) : result Nccfparams :=
  let rate := fst audio_input in
  n <- int_of_product (correlation_window_size raptparams) rate ;;
  k_min <- (if is_firstpass
            then py_floordiv rate (maximum_allowed_freq raptparams)
            else Ok 0%Z) ;;
  K <- py_floordiv rate (minimum_allowed_freq raptparams) ;;
  z <- int_of_product (frame_step_size raptparams) rate ;;
  (* [int(float(len) / float(z))]: the quotient of two integers that doubles
     hold exactly truncates to their integer quotient. *)
  if (z =? 0)%Z then Raise ZeroDivisionError
  else
    Ok {| samples_correlated_per_lag := n;
          shortest_lag_per_frame := k_min;
          longest_lag_per_frame := K;
          samples_per_frame := z;
          max_frame_count := (Z.quot (py_len (snd audio_input)) z - 1)%Z |}.

(** ** The correlator *)

(** [params] is the pair [(raptparam, nccfparam)] the source passes around. *)
Definition params_t : Type := (Raptparams * Nccfparams)%type.

(** Value of [x_(m+j)] in the NCCF equation, with the window mean removed. *)
Definition _get_sample (a : audio) (frame_start correlation_index : Z)
    (nccfparam : Nccfparams) (mean_for_window : R) : result R :=
  current_sample <- py_getitem (snd a) (frame_start + correlation_index) ;;
  Ok (current_sample - mean_for_window).

(** The energy [e_j] of the NCCF denominator. *)
Definition _get_nccf_denominator_val (a : audio) (frame_start starting_val : Z)
    (nccfparam : Nccfparams) (frame_sum : R) : result R :=
  for_each
    (fun total_sum l =>
       sample <- _get_sample a frame_start l nccfparam frame_sum ;;
       Ok (total_sum + sample * sample))
    (xrange starting_val (starting_val + samples_correlated_per_lag nccfparam))
    0.

(** The correlation of a frame at a lag.  The arithmetic is the exact one;
    the program evaluates the same expression, in the same order, in
    doubles. *)
Definition _get_correlation (a : audio) (frame lag : Z) (params : params_t)
    (is_firstpass : bool) : result R :=
  let nccfparam := snd params in
  let n := samples_correlated_per_lag nccfparam in
  let frame_start := (frame * samples_per_frame nccfparam)%Z in
  let final_correlated_sample := (frame_start + n)%Z in
  let frame_sum := py_sum (py_slice (snd a) frame_start final_correlated_sample) in
  inv_n <- py_div 1 (IZR n) ;;
  let mean_for_window := inv_n * frame_sum in
  samples <-
    for_each
      (fun samples j =>
         correlated_samples <-
           _get_sample a frame_start j nccfparam mean_for_window ;;
         samples_for_lag <-
           _get_sample a frame_start (j + lag) nccfparam mean_for_window ;;
         Ok (samples + correlated_samples * samples_for_lag))
      (xrange 0 n) 0 ;;
  denominator_base <-
    _get_nccf_denominator_val a frame_start 0 nccfparam mean_for_window ;;
  denominator_lag <-
    _get_nccf_denominator_val a frame_start lag nccfparam mean_for_window ;;
  denominator <-
    (if is_firstpass
     then py_sqrt (denominator_base * denominator_lag)
     else py_sqrt (denominator_base * denominator_lag
                   + additive_constant (fst params))) ;;
  py_div samples denominator.

(** ** Scanning the lags of a frame *)

(** The result of a scan: the correlation per lag index and their maximum. *)
Definition lag_results_t : Type := (list R * R)%type.

(** The test that skips a lag whose window runs past the end of the audio. *)
Definition past_end (a : audio) (frame lag : Z) (params : params_t) : bool :=
  (py_len (snd a) <=?
     lag + (samples_correlated_per_lag (snd params) - 1)
     + frame * samples_per_frame (snd params))%Z.

(** The shared tail of both scanning loops: store the correlation at index
    [k] and raise the running maximum. *)
Definition store_correlation (st : lag_results_t) (k : Z) (v : R)
  : result lag_results_t :=
  candidates <- py_setitem (fst st) k v ;;
  Ok (candidates, if Rgtb v (snd st) then v else snd st).

Definition _get_correlations_for_all_lags (a : audio) (current_frame lag_range : Z)
    (params : params_t) : result lag_results_t :=
  for_each
    (fun st k =>
       let current_lag := (k + shortest_lag_per_frame (snd params))%Z in
       if past_end a current_frame current_lag params then Ok st
       else
         v <- _get_correlation a current_frame current_lag params true ;;
         store_correlation st k v)
    (xrange 0 lag_range)
    (py_repeat 0 lag_range, 0).

(** The guard on a first-pass peak. *)
Definition peak_ok (lag_range lag_peak : Z) : bool :=
  ((3 <? lag_peak) && (lag_peak <? lag_range - 3))%Z.

Definition _get_correlations_for_input_lags (a : audio) (current_frame : Z)
    (first_pass : list (list hypothesis)) (lag_range : Z) (params : params_t)
  : result lag_results_t :=
  let init : lag_results_t := (py_repeat 0 lag_range, 0) in
  frame_peaks <- py_getitem first_pass current_frame ;;
  for_each
    (fun st (lag_val : hypothesis) =>
       let lag_peak := fst lag_val in
       if peak_ok lag_range lag_peak then
         for_each
           (fun st k =>
              if past_end a current_frame k params then Ok st
              else
                v <- _get_correlation a current_frame k params false ;;
                store_correlation st k v)
           (xrange (lag_peak - 3) (lag_peak + 4)) st
       else Ok st)
    frame_peaks init.

(** ** Peak interpolation *)

(** [numpy.polyfit(x, y, 2)] on three points: the coefficients [(a, b, c)],
    highest degree first.  numpy solves the least-squares problem in doubles;
    with three points and three coefficients its exact solution is the
    parabola through the points, which is what is computed here.  The
    coefficients numpy returns are these up to rounding: a leading coefficient
    that is 0 here can be a tiny double there, and a vertex that falls on a
    half can be rounded to the other side; on three ordinates equal to 0 both
    are exactly 0.  The abscissae are always three consecutive integers here;
    lists of other lengths make numpy reject the call. *)
Definition polyfit2 (x y : list R) : result (R * R * R) :=
  match x, y with
  | [x0; x1; x2], [y0; y1; y2] =>
      let d01 := (y1 - y0) / (x1 - x0) in
      let d12 := (y2 - y1) / (x2 - x1) in
      let a := (d12 - d01) / (x2 - x0) in
      let b := d01 - a * (x0 + x1) in
      Ok (a, b, y0 - a * x0 * x0 - b * x0)
  | _, _ => Raise TypeError
  end.

Definition _get_peak_lag_val (lag_results : list R) (lag_index : Z)
    (params : params_t) : result hypothesis :=
  let lag_peak := (lag_index + shortest_lag_per_frame (snd params))%Z in
  let '(x_vals, y_vals) :=
    if (lag_index =? 0)%Z then
      (xrange lag_peak (lag_peak + 3),
       py_slice lag_results lag_index (lag_index + 3))
    else if (lag_index =? py_len lag_results - 1)%Z then
      (xrange (lag_peak - 2) (lag_peak + 1),
       py_slice lag_results (lag_index - 2) (lag_index + 1))
    else
      (xrange (lag_peak - 1) (lag_peak + 2),
       py_slice lag_results (lag_index - 1) (lag_index + 2)) in
  '(a, b, _) <- polyfit2 (map IZR x_vals) y_vals ;;
  (* numpy's float division does not raise: a zero divisor yields nan or
     an infinity, which [int] then refuses. *)
  if Reqb (2 * a) 0 then
    if Reqb b 0 || Reqb (sample_rate_ratio (fst params)) 0
    then Raise ValueError else Raise OverflowError
  else
    let lag_peak := - b / (2 * a) in
    let lag_peak := py_round (lag_peak * sample_rate_ratio (fst params)) in
    let lag_peak := py_int lag_peak in
    v <- py_getitem lag_results lag_index ;;
    Ok (lag_peak, v).

(** ** Marking the candidates of a frame *)

(** [l.sort(key=lambda tup: tup[1], reverse=True)]: stable, by correlation,
    largest first. *)
Fixpoint insert_by_corr_desc (x : hypothesis) (l : list hypothesis) : list hypothesis :=
  match l with
  | [] => [x]
  | y :: l' =>
      if Rgeb (snd x) (snd y) then x :: y :: l'
      else y :: insert_by_corr_desc x l'
  end.

Definition sort_by_corr_desc (l : list hypothesis) : list hypothesis :=
  fold_right insert_by_corr_desc [] l.

(** [l.sort(key=lambda tup: tup[0])]: stable, by lag, smallest first. *)
Fixpoint insert_by_lag (x : hypothesis) (l : list hypothesis) : list hypothesis :=
  match l with
  | [] => [x]
  | y :: l' =>
      if (fst x <=? fst y)%Z then x :: y :: l'
      else y :: insert_by_lag x l'
  end.

Definition sort_by_lag (l : list hypothesis) : list hypothesis :=
  fold_right insert_by_lag [] l.

(** The marking loop of [_get_marked_results]: the candidates in the order
    of their lag index. *)
Definition marked_candidates (lag_results : lag_results_t) (params : params_t)
    (is_firstpass : bool) : result (list hypothesis) :=
  let min_valid_correlation :=
    snd lag_results * min_acceptable_peak_val (fst params) in
  for_each
    (fun candidates (kv : Z * R) =>
       let '(k, k_val) := kv in
       if Rgeb k_val min_valid_correlation then
         if is_firstpass then
           c <- _get_peak_lag_val (fst lag_results) k params ;;
           Ok (candidates ++ [c])
         else
           let current_lag := (k + shortest_lag_per_frame (snd params))%Z in
           Ok (candidates ++ [(current_lag, k_val)])
       else Ok candidates)
    (enumerate (fst lag_results)) [].

(** The cap of [_get_marked_results]. *)
Definition cap_candidates (candidates : list hypothesis) (params : params_t)
  : list hypothesis :=
  let max_allowed_candidates := (max_hypotheses_per_frame (fst params) - 1)%Z in
  if (max_allowed_candidates <? py_len candidates)%Z then
    sort_by_lag (py_slice (sort_by_corr_desc candidates) 0 max_allowed_candidates)
  else candidates.

Definition _get_marked_results (lag_results : lag_results_t) (params : params_t)
    (is_firstpass : bool) : result (list hypothesis) :=
  candidates <- marked_candidates lag_results params is_firstpass ;;
  Ok (cap_candidates candidates params).

Definition _get_firstpass_frame_results (a : audio) (current_frame lag_range : Z)
    (params : params_t) : result (list hypothesis) :=
  all_lag_results <-
    _get_correlations_for_all_lags a current_frame lag_range params ;;
  _get_marked_results all_lag_results params true.

Definition _get_secondpass_frame_results (a : audio) (current_frame lag_range : Z)
    (params : params_t) (first_pass : list (list hypothesis))
  : result (list hypothesis) :=
  lag_results <-
    _get_correlations_for_input_lags a current_frame first_pass lag_range params ;;
  _get_marked_results lag_results params false.

(** ** The two passes *)

(** The frame loop shared by both passes: [candidates[i] = f(i)] for [i] in
    [xrange(0, max_frame_count)]. *)
Definition frame_loop (max_frame_count : Z) (f : Z -> result (list hypothesis))
  : result (list (list hypothesis)) :=
  for_each
    (fun candidates i => r <- f i ;; Ok (candidates ++ [r]))
    (xrange 0 max_frame_count) [].

Definition _first_pass_nccf (a : audio) (raptparam : Raptparams)
  : result (list (list hypothesis)) :=
  nccfparam <- _get_nccf_params a raptparam true ;;
  let params : params_t := (raptparam, nccfparam) in
  let lag_range :=
    ((longest_lag_per_frame nccfparam - 1) - shortest_lag_per_frame nccfparam)%Z in
  frame_loop (max_frame_count nccfparam)
    (fun i => _get_firstpass_frame_results a i lag_range params).

Definition _second_pass_nccf (original_audio : audio)
    (first_pass : list (list hypothesis)) (raptparam : Raptparams)
  : result (list (list hypothesis)) :=
  nccfparam <- _get_nccf_params original_audio raptparam false ;;
  let params : params_t := (raptparam, nccfparam) in
  let lag_range :=
    ((longest_lag_per_frame nccfparam - 1) - shortest_lag_per_frame nccfparam)%Z in
  frame_loop (max_frame_count nccfparam)
    (fun i => _get_secondpass_frame_results original_audio i lag_range params first_pass).

Definition _run_nccf (downsampled_audio original_audio : audio)
    (raptparam : Raptparams) : result (list (list hypothesis)) :=
  first_pass <- _first_pass_nccf downsampled_audio raptparam ;;
  _second_pass_nccf original_audio first_pass raptparam.

(** ** Dynamic programming / post-processing *)

(** A node of the cost table: [(cost, hypothesis)]. *)
Definition node : Type := (R * hypothesis)%type.

Definition unvoiced : hypothesis := (0%Z, 0).

Definition _select_max_correlation_for_frame (nccf_results_frame : list hypothesis) : R :=
  fold_left
    (fun maxval (h : hypothesis) => if Rgtb (snd h) maxval then snd h else maxval)
    nccf_results_frame 0.

(** The test [lag_val == 0 and correlation_val == 0.0]. *)
Definition is_unvoiced (candidate : hypothesis) : bool :=
  (fst candidate =? 0)%Z && Reqb (snd candidate) 0.

(** Local cost of a hypothesis ([d_i,j] in RAPT). *)
Definition _calculate_local_cost (candidate : hypothesis) (max_corr_for_frame : R)
    (params : Raptparams) (sample_rate : Z) : result R :=
  let lag_val := fst candidate in
  let correlation_val := snd candidate in
  if is_unvoiced candidate then
    Ok (voicing_bias params + max_corr_for_frame)
  else
    longest <- py_div (IZR sample_rate) (IZR (minimum_allowed_freq params)) ;;
    lag_weight <- py_div (lag_weight params) longest ;;
    Ok (1 - correlation_val * (1 - lag_weight * IZR lag_val)).

Definition _get_best_cost (candidate : hypothesis) (local_cost : R)
    (candidate_list : list (list node)) (params : Raptparams) (sample_rate : Z)
  : result R :=
  let return_cost := 0 in
  match candidate_list with
  | [] => Ok (local_cost + 0)
  | _ =>
      previous <- py_getitem candidate_list (-1) ;;
      Ok (fold_left (fun return_cost (prev_candidate : node) => local_cost + 0)
            previous return_cost)
  end.

Definition _calculate_costs_per_frame (frame_idx : Z) (new_candidates : list (list node))
    (nccf_results : list (list hypothesis)) (params : Raptparams) (sample_rate : Z)
  : result (list node) :=
  frame <- py_getitem nccf_results frame_idx ;;
  let max_for_frame := _select_max_correlation_for_frame frame in
  for_each
    (fun frame_candidates candidate =>
       local_cost <- _calculate_local_cost candidate max_for_frame params sample_rate ;;
       best_cost <- _get_best_cost candidate local_cost new_candidates params sample_rate ;;
       Ok (frame_candidates ++ [(best_cost, candidate)]))
    frame [].

(** The recursion of [_process_candidates] descends from [frame_idx] while
    it is positive, so it makes [Z.to_nat frame_idx] recursive calls; [depth]
    counts them.  The unused argument [candidates] is dropped.  The
    interpreter bounds the depth of its stack (1000 nested calls unless the
    caller changes the limit): on a list of about a thousand frames or more
    the program raises [RuntimeError] where this definition returns.  That
    bound depends on the depth at which [rapt] is called and is not modelled;
    what is proved of a result of the tracker is proved of the runs that
    return. *)
Fixpoint process_candidates_from (depth : nat) (frame_idx : Z)
    (nccf_results : list (list hypothesis)) (raptparam : Raptparams)
    (sample_rate : Z) : result (list (list node)) :=
  new_candidates <-
    match depth with
    | O => Ok []
    | S d => process_candidates_from d (frame_idx - 1) nccf_results raptparam sample_rate
    end ;;
  frame_candidates <-
    _calculate_costs_per_frame frame_idx new_candidates nccf_results raptparam sample_rate ;;
  Ok (new_candidates ++ [frame_candidates]).

Definition _process_candidates (frame_idx : Z) (nccf_results : list (list hypothesis))
    (raptparam : Raptparams) (sample_rate : Z) : result (list (list node)) :=
  process_candidates_from (Z.to_nat frame_idx) frame_idx nccf_results raptparam sample_rate.

(** The first loop of [_determine_state_per_frame]: every frame gets the
    unvoiced entry appended. *)
Definition add_unvoiced (nccf_results : list (list hypothesis)) : list (list hypothesis) :=
  map (fun result => result ++ [unvoiced]) nccf_results.

(** [result[0][1][0]] *)
Definition first_lag (frame_nodes : list node) : result Z :=
  first <- py_getitem frame_nodes 0 ;;
  Ok (fst (snd first)).

Fixpoint map_result {A B : Type} (f : A -> result B) (l : list A) : result (list B) :=
  match l with
  | [] => Ok []
  | x :: l' => y <- f x ;; ys <- map_result f l' ;; Ok (y :: ys)
  end.

Definition _determine_state_per_frame (nccf_results : list (list hypothesis))
    (raptparam : Raptparams) (sample_rate : Z) : result (list Z) :=
  let nccf_results := add_unvoiced nccf_results in
  all_candidates <-
    _process_candidates (py_len nccf_results - 1) nccf_results raptparam sample_rate ;;
  map_result first_lag all_candidates.

(** [sample_rate / candidate] divides two integers. *)
Definition freq_of_lag (sample_rate candidate : Z) : R :=
  if (0 <? candidate)%Z then IZR (sample_rate / candidate) else 0.

Definition _get_freq_estimate (nccf_results : list (list hypothesis))
    (raptparam : Raptparams) (sample_rate : Z) : result (list R) :=
  candidates <- _determine_state_per_frame nccf_results raptparam sample_rate ;;
  Ok (map (freq_of_lag sample_rate) candidates).

(** ** The entry point, past the reading and the resampling of the file *)

Definition with_sample_rate_ratio (p : Raptparams) (ratio : R) : Raptparams :=
  {| maximum_allowed_freq := maximum_allowed_freq p;
     minimum_allowed_freq := minimum_allowed_freq p;
     frame_step_size := frame_step_size p;
     correlation_window_size := correlation_window_size p;
     min_acceptable_peak_val := min_acceptable_peak_val p;
     max_hypotheses_per_frame := max_hypotheses_per_frame p;
     additive_constant := additive_constant p;
     voicing_bias := voicing_bias p;
     lag_weight := lag_weight p;
     freq_weight := freq_weight p;
     doubling_cost := doubling_cost p;
     transition_cost := transition_cost p;
     spec_mod_transition_cost := spec_mod_transition_cost p;
     amp_mod_transition_cost := amp_mod_transition_cost p;
     sample_rate_ratio := ratio |}.

(** [rapt] from the two audio inputs on: the rate ratio is stored in the
    parameters, the two passes run, the estimate is read off. *)
Definition rapt (original_audio downsampled_audio : audio) (raptparam : Raptparams)
  : result (list R) :=
  ratio <- py_div (IZR (fst original_audio)) (IZR (fst downsampled_audio)) ;;
  let raptparam := with_sample_rate_ratio raptparam ratio in
  nccf_results <- _run_nccf downsampled_audio original_audio raptparam ;;
  _get_freq_estimate nccf_results raptparam (fst original_audio).

(** Modelled from the spec: the defaults of [raptparams.Raptparams], as
    section 6 of the specification lists them.  [sample_rate_ratio] has no
    default there; [rapt] overwrites it before it is read. *)
Definition default_raptparams : Raptparams :=
  {| maximum_allowed_freq := 500;
     minimum_allowed_freq := 50;
     frame_step_size := 1 # 100;
     correlation_window_size := 75 # 10000;
     min_acceptable_peak_val := 0.3;
     max_hypotheses_per_frame := 20;
     additive_constant := 10000;
     voicing_bias := 0;
     lag_weight := 0.3;
     freq_weight := 0.02;
     doubling_cost := 0.35;
     transition_cost := 0.005;
     spec_mod_transition_cost := 0.5;
     amp_mod_transition_cost := 100;
     sample_rate_ratio := 1 |}.

(** ** Transition costs

  The four transition functions and their two audio descriptors are
  defined in [pyrapt.py]; nothing calls them. *)

Section TransitionCosts.

(** [numpy.hanning], a function of numpy, is left abstract. *)
Variable hanning : R -> list R.

(** Spectral stationarity, [S_i] in the delta formulas. *)
Definition _get_spec_stationarity : result R :=
  let itakura_distortion := 1 in
  py_div 0.2 (itakura_distortion - 0.8).

(** RMS ratio, [rr_i] in the delta formulas. *)
Definition _get_rms_ratio (sample_rate : Z) : result R :=
  let window_length := 0.03 * IZR sample_rate in
  let hanning_window_vals := hanning window_length in
  let squares := py_sum (map (fun w => w * w) hanning_window_vals) in
  mean_curr <- py_div squares window_length ;;
  rms_curr <- py_sqrt mean_curr ;;
  mean_prev <- py_div squares window_length ;;
  rms_prev <- py_sqrt mean_prev ;;
  py_div rms_curr rms_prev.

(** [numpy.log] is the natural logarithm; it is only meant for the
    positive ratio of two voiced lags. *)
Definition _get_voiced_to_voiced_cost (candidate : hypothesis) (prev_entry : node)
    (params : Raptparams) : result R :=
  let prev_cost := fst prev_entry in
  let prev_candidate := snd prev_entry in
  ratio <- py_div (IZR (fst candidate)) (IZR (fst prev_candidate)) ;;
  let freq_jump_cost := ln ratio in
  let transition_cost :=
    freq_weight params * (doubling_cost params + Rabs (freq_jump_cost - ln 2)) in
  Ok (prev_cost + transition_cost).

Definition _get_unvoiced_to_unvoiced_cost (prev_entry : node) : R :=
  fst prev_entry + 0.

Definition _get_voiced_to_unvoiced_cost (candidate : hypothesis) (prev_entry : node)
    (params : Raptparams) (sample_rate : Z) : result R :=
  let prev_cost := fst prev_entry in
  s <- _get_spec_stationarity ;;
  rr <- _get_rms_ratio sample_rate ;;
  let delta :=
    transition_cost params + spec_mod_transition_cost params * s
    + amp_mod_transition_cost params * rr in
  Ok (prev_cost + delta).

Definition _get_unvoiced_to_voiced_cost (candidate : hypothesis) (prev_entry : node)
    (params : Raptparams) (sample_rate : Z) : result R :=
  let prev_cost := fst prev_entry in
  s <- _get_spec_stationarity ;;
  rr <- _get_rms_ratio sample_rate ;;
  q <- py_div (amp_mod_transition_cost params) rr ;;
  let delta :=
    transition_cost params + spec_mod_transition_cost params * s + q in
  Ok (prev_cost + delta).

End TransitionCosts.

(** ** The path search as the specification words it (section 4.5)

  These definitions follow the specification, not the code; they are what
  the tracker of [pyrapt.py] is compared with. *)

Module Viterbi.

(** The transition table, with the two descriptors [S_i] and [rr_i] given. *)
Definition delta (params : Raptparams) (S_i rr_i : R) (prev curr : hypothesis) : R :=
  match is_unvoiced prev, is_unvoiced curr with
  | true, true => 0
  | false, false =>
      freq_weight params
      * (doubling_cost params
         + Rabs (ln (IZR (fst curr) / IZR (fst prev)) - ln 2))
  | false, true =>
      transition_cost params + spec_mod_transition_cost params * S_i
      + amp_mod_transition_cost params * rr_i
  | true, false =>
      transition_cost params + spec_mod_transition_cost params * S_i
      + amp_mod_transition_cost params / rr_i
  end.

(** The cost of reaching [curr] through the node [prev]. *)
Definition through (params : Raptparams) (S_i rr_i : R) (curr : hypothesis)
    (prev : node) : R :=
  fst prev + delta params S_i rr_i (snd prev) curr.

(** The least element of a list of costs, and the first index where it is
    reached ([None] on the empty list). *)
Fixpoint argmin_from (i : nat) (best : nat * R) (l : list R) : nat * R :=
  match l with
  | [] => best
  | x :: l' => argmin_from (S i) (if Rgtb (snd best) x then (i, x) else best) l'
  end.

Definition argmin (l : list R) : option (nat * R) :=
  match l with
  | [] => None
  | x :: l' => Some (argmin_from 1 (O, x) l')
  end.

(** Frame [i > 0]: the cumulative cost of [curr] and its backpointer. *)
Definition step (params : Raptparams) (S_i rr_i : R) (prev_nodes : list node)
    (local_cost : R) (curr : hypothesis) : option (R * nat) :=
  match argmin (map (through params S_i rr_i curr) prev_nodes) with
  | None => None
  | Some (back, least) => Some (local_cost + least, back)
  end.

(** After the last frame: the index of a node of least cumulative cost. *)
Definition best_index (nodes : list node) : option nat :=
  match argmin (map fst nodes) with
  | None => None
  | Some (i, _) => Some i
  end.

End Viterbi.

(** ** The NCCF as the specification words it (section 4.2) *)

Module NCCF.

(** [audio[i]], read as 0 outside the buffer. *)
Definition x (a : audio) (i : Z) : R := nth (Z.to_nat i) (snd a) 0.

(** The sum of [f j] for [j] from [0] to [n - 1]. *)
Definition sigma (n : Z) (f : Z -> R) : R :=
  fold_right Rplus 0 (map f (xrange 0 n)).

(** The mean of the reference window [[m, m + n)]. *)
Definition mu (a : audio) (m n : Z) : R :=
  1 / IZR n * sigma n (fun j => x a (m + j)).

Definition numerator (a : audio) (m n k : Z) : R :=
  sigma n (fun j => (x a (m + j) - mu a m n) * (x a (m + k + j) - mu a m n)).

(** The energy [e_k] of the window at lag [k]; [e_0] is [energy a m n 0]. *)
Definition energy (a : audio) (m n k : Z) : R :=
  sigma n (fun j => (x a (m + k + j) - mu a m n) * (x a (m + k + j) - mu a m n)).

(** The quantity under the square root of the denominator. *)
Definition radicand (a : audio) (m n k : Z) (C : R) (is_firstpass : bool) : R :=
  if is_firstpass then energy a m n 0 * energy a m n k
  else energy a m n 0 * energy a m n k + C.

Definition theta (a : audio) (m n k : Z) (C : R) (is_firstpass : bool) : R :=
  numerator a m n k / sqrt (radicand a m n k C is_firstpass).

End NCCF.

(** ** Concrete inputs

    A small geometry on which the functions can be followed by hand: 16
    samples per second, down to 8 for the first pass, pitch between 1 and
    2 Hz, a window of a quarter of a second every 0.375 s.  The other
    options keep their defaults. *)

Definition toy_raptparams : Raptparams :=
  {| maximum_allowed_freq := 2;
     minimum_allowed_freq := 1;
     frame_step_size := 3 # 8;
     correlation_window_size := 1 # 4;
     min_acceptable_peak_val := 0.3;
     max_hypotheses_per_frame := 20;
     additive_constant := 10000;
     voicing_bias := 0;
     lag_weight := 0.3;
     freq_weight := 0.02;
     doubling_cost := 0.35;
     transition_cost := 0.005;
     spec_mod_transition_cost := 0.5;
     amp_mod_transition_cost := 100;
     sample_rate_ratio := 2 |}.

(** The same options without the additive constant of the second pass. *)
Definition toy_raptparams_plain : Raptparams :=
  {| maximum_allowed_freq := 2;
     minimum_allowed_freq := 1;
     frame_step_size := 3 # 8;
     correlation_window_size := 1 # 4;
     min_acceptable_peak_val := 0.3;
     max_hypotheses_per_frame := 20;
     additive_constant := 0;
     voicing_bias := 0;
     lag_weight := 0.3;
     freq_weight := 0.02;
     doubling_cost := 0.35;
     transition_cost := 0.005;
     spec_mod_transition_cost := 0.5;
     amp_mod_transition_cost := 100;
     sample_rate_ratio := 2 |}.

(** The geometry [_get_nccf_params] derives for six samples at 8 Hz on the
    first pass, and for thirteen samples at 16 Hz on the second. *)
Definition toy_first_geometry : Nccfparams :=
  {| samples_correlated_per_lag := 2;
     shortest_lag_per_frame := 4;
     longest_lag_per_frame := 8;
     samples_per_frame := 3;
     max_frame_count := 1 |}.

Definition toy_second_geometry : Nccfparams :=
  {| samples_correlated_per_lag := 4;
     shortest_lag_per_frame := 0;
     longest_lag_per_frame := 16;
     samples_per_frame := 6;
     max_frame_count := 1 |}.

Definition toy_downsampled : audio := (8%Z, [1; -1; 0; 0; 1; -1]).

Definition toy_original : audio :=
  (16%Z, [1; -1; 1; -1; 0; 0; 0; 0; 1; -1; 1; -1; -100]).

(** Every sample multiplied by [c]. *)
Definition scale (c : R) (a : audio) : audio := (fst a, map (Rmult c) (snd a)).

(** A buffer of [len] samples that are all zero. *)
Definition silence (rate len : Z) : audio := (rate, py_repeat 0 len).


(** The same buffer at 9 Hz: the lag range grows to four lags, of which the
    last three run past the end of the buffer. *)
Definition toy_flat : audio := (9%Z, [1; -1; 0; 0; -1; 1]).

Definition toy_flat_geometry : Nccfparams :=
  {| samples_correlated_per_lag := 2;
     shortest_lag_per_frame := 4;
     longest_lag_per_frame := 9;
     samples_per_frame := 3;
     max_frame_count := 1 |}.


(** ** Notions used to state the properties *)

(** The test of the marking loop on an enumerated correlation. *)
Definition above_threshold (lag_results : lag_results_t) (params : params_t)
    (kv : Z * R) : bool :=
  Rgeb (snd kv) (snd lag_results * min_acceptable_peak_val (fst params)).

(** The candidate the second pass records for an enumerated correlation. *)
Definition second_pass_candidate (params : params_t) (kv : Z * R) : hypothesis :=
  ((fst kv + shortest_lag_per_frame (snd params))%Z, snd kv).

(** The index where the three correlations fitted around [lag_index]
    start: the three nearest samples at either end of the list. *)
Definition peak_window_start (len lag_index : Z) : Z :=
  if (lag_index =? 0)%Z then 0%Z
  else if (lag_index =? len - 1)%Z then (lag_index - 2)%Z
  else (lag_index - 1)%Z.

(** The two leading coefficients of the parabola through [(x0, y0)],
    [(x0 + 1, y1)] and [(x0 + 2, y2)]. *)
Definition parabola_a (y0 y1 y2 : R) : R := (y0 - 2 * y1 + y2) / 2.

Definition parabola_b (x0 y0 y1 y2 : R) : R :=
  (y1 - y0) - parabola_a y0 y1 y2 * (2 * x0 + 1).

(** The second-pass NCCF of the specification for the lag [k] of a frame. *)
Definition second_pass_theta (a : audio) (params : params_t) (current_frame k : Z) : R :=
  NCCF.theta a (current_frame * samples_per_frame (snd params))
    (samples_correlated_per_lag (snd params)) k
    (additive_constant (fst params)) false.

(** The body of the inner loop of [_get_correlations_for_input_lags], on
    the seven lags around a peak. *)
Definition neighbour_body (a : audio) (params : params_t) (current_frame : Z)
    (st : lag_results_t) (k : Z) : result lag_results_t :=
  if past_end a current_frame k params then Ok st
  else
    v <- _get_correlation a current_frame k params false ;;
    store_correlation st k v.

(** The body of its outer loop, on the peaks of the first pass. *)
Definition peak_body (a : audio) (params : params_t) (current_frame lag_range : Z)
    (st : lag_results_t) (lag_val : hypothesis) : result lag_results_t :=
  if peak_ok lag_range (fst lag_val) then
    for_each (neighbour_body a params current_frame)
      (xrange (fst lag_val - 3) (fst lag_val + 4)) st
  else Ok st.

(** ** The downsampling rate *)

(** [initial_sampling_rate / (4 * maximum_f0)] divides two integers, [round]
    turns the quotient into the float of the same value, the outer division
    is the one of floats.  Either division by zero is reported as a
    [ValueError]. *)
Definition _calculate_downsampling_rate (initial_sampling_rate maximum_f0 : Z)
  : result Z :=
  match
    (quotient <- py_floordiv initial_sampling_rate (4 * maximum_f0) ;;
     py_div (IZR initial_sampling_rate) (py_round (IZR quotient)))
  with
  | Ok aReturn => Ok (py_int aReturn)
  | Raise ZeroDivisionError => Raise ValueError
  | Raise e => Raise e
  end.

(** ** More notions used to state the properties *)

(** Every sample shifted by the constant [d]. *)
Definition offset (d : R) (a : audio) : audio := (fst a, map (Rplus d) (snd a)).

(** The first-pass NCCF of the specification for the lag index [k] of a
    frame, that is for the lag [k + k_min]. *)
Definition first_pass_theta (a : audio) (params : params_t) (current_frame k : Z) : R :=
  NCCF.theta a (current_frame * samples_per_frame (snd params))
    (samples_correlated_per_lag (snd params))
    (k + shortest_lag_per_frame (snd params))
    (additive_constant (fst params)) true.

(** The body of the loop of [_get_correlations_for_all_lags]. *)
Definition all_lags_body (a : audio) (params : params_t) (current_frame : Z)
    (st : lag_results_t) (k : Z) : result lag_results_t :=
  let current_lag := (k + shortest_lag_per_frame (snd params))%Z in
  if past_end a current_frame current_lag params then Ok st
  else
    v <- _get_correlation a current_frame current_lag params true ;;
    store_correlation st k v.

(** The largest element of a list of correlations, and 0 when none is
    positive. *)
Definition largest_or_zero (l : list R) : R := fold_right Rmax 0 l.

(** What both scans keep true of their pair of results, for a correlator
    [corr] of the index: the second component is the largest of the stored
    values, and a stored value is the initial 0 or what the correlator
    returns for its index, which was not skipped. *)
Definition scan_invariant (skipped : Z -> bool) (corr : Z -> result R)
    (st : lag_results_t) : Prop :=
  snd st = largest_or_zero (fst st)
  /\ forall k, (0 <= k)%Z ->
       nth (Z.to_nat k) (fst st) 0 = 0
       \/ (skipped k = false /\ corr k = Ok (nth (Z.to_nat k) (fst st) 0)).


(** * Properties *)
(** ** Comparisons *)

Lemma Rgtb_true (x y : R) : y < x -> Rgtb x y = true.
Proof. intros H. unfold Rgtb. destruct (Rlt_dec y x); [reflexivity | lra]. Qed.

Lemma Rgtb_false (x y : R) : x <= y -> Rgtb x y = false.
Proof. intros H. unfold Rgtb. destruct (Rlt_dec y x); [lra | reflexivity]. Qed.

Lemma Rgeb_true (x y : R) : y <= x -> Rgeb x y = true.
Proof. intros H. unfold Rgeb. destruct (Rle_dec y x); [reflexivity | lra]. Qed.

Lemma Rgeb_false (x y : R) : x < y -> Rgeb x y = false.
Proof. intros H. unfold Rgeb. destruct (Rle_dec y x); [lra | reflexivity]. Qed.

Lemma Reqb_true (x y : R) : x = y -> Reqb x y = true.
Proof. intros H. unfold Reqb. destruct (Req_dec_T x y); [reflexivity | contradiction]. Qed.

Lemma Reqb_false (x y : R) : x <> y -> Reqb x y = false.
Proof. intros H. unfold Reqb. destruct (Req_dec_T x y); [contradiction | reflexivity]. Qed.

Lemma py_div_ok (x y : R) : y <> 0 -> py_div x y = Ok (x / y).
Proof. intros H. unfold py_div. now rewrite Reqb_false. Qed.

Lemma py_div_zero (x : R) : py_div x 0 = Raise ZeroDivisionError.
Proof. unfold py_div. now rewrite Reqb_true. Qed.

Lemma py_sqrt_ok (x : R) : 0 <= x -> py_sqrt x = Ok (sqrt x).
Proof. intros H. unfold py_sqrt. now rewrite Rgtb_false. Qed.

(** ** Lists *)

Lemma xrange_nil (a b : Z) : (b <= a)%Z -> xrange a b = [].
Proof.
  intros H. unfold xrange. replace (Z.to_nat (b - a)) with O by lia. reflexivity.
Qed.

Lemma xrange_cons (a b : Z) : (a < b)%Z -> xrange a b = a :: xrange (a + 1) b.
Proof.
  intros H. unfold xrange.
  replace (Z.to_nat (b - a)) with (S (Z.to_nat (b - (a + 1)))) by lia.
  cbn [seq map]. f_equal; [lia|].
  rewrite <- seq_shift, map_map. apply map_ext. intros i. lia.
Qed.

Lemma xrange_shift (a n : Z) :
  xrange a (a + n) = map (fun j => (a + j)%Z) (xrange 0 n).
Proof.
  unfold xrange. rewrite map_map.
  replace (a + n - a)%Z with (n - 0)%Z by lia.
  apply map_ext. intros i. lia.
Qed.

Lemma in_xrange (a b k : Z) : In k (xrange a b) <-> (a <= k < b)%Z.
Proof.
  unfold xrange. rewrite in_map_iff. split.
  - intros (i & <- & Hi). apply in_seq in Hi. lia.
  - intros H. exists (Z.to_nat (k - a)). split; [lia|]. apply in_seq. lia.
Qed.

Lemma xrange_length (a b : Z) : length (xrange a b) = Z.to_nat (b - a).
Proof. unfold xrange. now rewrite length_map, length_seq. Qed.

Lemma py_getitem_ok {A : Type} (l : list A) (i : Z) (d : A) :
  (0 <= i < py_len l)%Z -> py_getitem l i = Ok (nth (Z.to_nat i) l d).
Proof.
  intros H. unfold py_getitem, py_len in *.
  replace (i <? 0)%Z with false by lia.
  replace ((0 <=? i)%Z && (i <? Z.of_nat (length l))%Z) with true by lia.
  destruct (nth_error l (Z.to_nat i)) eqn:E.
  - f_equal. symmetry. now apply nth_error_nth.
  - apply nth_error_None in E. lia.
Qed.

Lemma py_getitem_past {A : Type} (l : list A) (i : Z) :
  (py_len l <= i)%Z -> py_getitem l i = Raise IndexError.
Proof.
  intros H. unfold py_getitem, py_len in *.
  replace (i <? 0)%Z with false by lia.
  replace ((0 <=? i)%Z && (i <? Z.of_nat (length l))%Z) with false by lia.
  reflexivity.
Qed.

Lemma list_update_length {A : Type} (l : list A) (n : nat) (v : A) :
  length (list_update l n v) = length l.
Proof.
  revert n. induction l as [|x l IH]; intros [|n]; cbn; auto.
Qed.

Lemma nth_list_update {A : Type} (l : list A) (n k : nat) (v d : A) :
  nth k (list_update l n v) d =
  if Nat.eqb k n && Nat.ltb n (length l) then v else nth k l d.
Proof.
  revert n k. induction l as [|x l IH]; intros n k.
  - cbn. destruct n, k; cbn; try reflexivity;
      rewrite ?andb_false_r; reflexivity.
  - destruct n as [|n], k as [|k]; cbn [list_update nth length]; try reflexivity.
    rewrite IH. reflexivity.
Qed.

Lemma py_setitem_ok {A : Type} (l : list A) (i : Z) (v : A) :
  (0 <= i < py_len l)%Z -> py_setitem l i v = Ok (list_update l (Z.to_nat i) v).
Proof.
  intros H. unfold py_setitem, py_len in *.
  replace (i <? 0)%Z with false by lia.
  now replace ((0 <=? i)%Z && (i <? Z.of_nat (length l))%Z) with true by lia.
Qed.

Lemma py_repeat_length {A : Type} (x : A) (n : Z) :
  py_len (py_repeat x n) = Z.max 0 n.
Proof. unfold py_len, py_repeat. rewrite repeat_length. lia. Qed.

Lemma firstn_skipn_nth {A : Type} (l : list A) (m n : nat) (d : A) :
  (m + n <= length l)%nat ->
  firstn n (skipn m l) = map (fun j => nth (m + j) l d) (seq 0 n).
Proof.
  revert m. induction n as [|n IH]; intros m H; [reflexivity|].
  cbn [seq map]. rewrite <- seq_shift, map_map.
  destruct (skipn m l) as [|y t] eqn:E.
  - apply (f_equal (@length A)) in E. rewrite length_skipn in E. cbn in E. lia.
  - cbn [firstn]. f_equal.
    + rewrite Nat.add_0_r, <- (firstn_skipn m l), E.
      rewrite app_nth2; rewrite length_firstn, Nat.min_l by lia; [|lia].
      now rewrite Nat.sub_diag.
    + assert (Ht : t = skipn (S m) l).
      { change (S m) with (1 + m)%nat. rewrite <- skipn_skipn, E. reflexivity. }
      rewrite Ht, IH by lia. apply map_ext. intros j. f_equal. lia.
Qed.

Lemma py_slice_inside {A : Type} (l : list A) (a b : Z) (d : A) :
  (0 <= a <= b)%Z -> (b <= py_len l)%Z ->
  py_slice l a b = map (fun j => nth (Z.to_nat (a + j)) l d) (xrange 0 (b - a)).
Proof.
  intros Hab Hb. unfold py_slice, slice_bound, py_len in *.
  replace (a <? 0)%Z with false by lia. replace (b <? 0)%Z with false by lia.
  rewrite !Z.min_l by lia.
  rewrite (firstn_skipn_nth l _ _ d) by lia.
  unfold xrange. rewrite map_map. rewrite Z.sub_0_r.
  apply map_ext. intros j. f_equal. lia.
Qed.

Lemma py_sum_fold_right (l : list R) : py_sum l = fold_right Rplus 0 l.
Proof.
  unfold py_sum. rewrite <- fold_left_rev_right.
  assert (H : forall l acc, fold_right (fun y x => x + y) acc l = fold_right Rplus 0 l + acc).
  { clear. induction l as [|x l IH]; intros acc; cbn; [lra | rewrite IH; lra]. }
  assert (G : forall l l' : list R, fold_right Rplus 0 (l ++ l') = fold_right Rplus 0 l + fold_right Rplus 0 l').
  { clear. induction l as [|x l IH]; intros l'; cbn; [lra | rewrite IH; lra]. }
  rewrite H. induction l as [|x l IH]; cbn; [lra|].
  rewrite G. cbn. lra.
Qed.

Lemma nth_py_repeat_zero (n : Z) (k : nat) : nth k (py_repeat 0 n) 0 = 0.
Proof.
  unfold py_repeat. destruct (Nat.lt_ge_cases k (Z.to_nat n)).
  - now apply nth_repeat_lt.
  - apply nth_overflow. now rewrite repeat_length.
Qed.

(** ** Loops *)

Lemma for_each_app {A S : Type} (body : S -> A -> result S) (l l' : list A) (s : S) :
  for_each body (l ++ l') s = (s' <- for_each body l s ;; for_each body l' s').
Proof.
  revert s. induction l as [|x l IH]; intros s; cbn; [reflexivity|].
  destruct (body s x); cbn; auto.
Qed.

(** A loop that adds [f x] to an accumulator. *)
Lemma for_each_sum {A : Type} (body : R -> A -> result R) (f : A -> R) (l : list A) :
  (forall s x, In x l -> body s x = Ok (s + f x)) ->
  forall s, for_each body l s = Ok (s + fold_right Rplus 0 (map f l)).
Proof.
  induction l as [|x l IH]; intros H s; cbn.
  - f_equal. lra.
  - rewrite H by now left. cbn. rewrite IH by (intros; apply H; now right).
    f_equal. lra.
Qed.

(** A loop with an invariant that the body keeps, when the body cannot
    raise. *)
Lemma for_each_invariant {A S : Type} (body : S -> A -> result S) (P : S -> Prop)
    (l : list A) :
  (forall s x, In x l -> P s -> exists s', body s x = Ok s' /\ P s') ->
  forall s, P s -> exists s', for_each body l s = Ok s' /\ P s'.
Proof.
  induction l as [|x l IH]; intros H s Hs; cbn.
  - eauto.
  - destruct (H s x (or_introl eq_refl) Hs) as (s' & -> & Hs'). cbn.
    apply IH; auto. intros; apply H; auto. now right.
Qed.

(** ** The geometry that is returned *)

Lemma get_nccf_params_inv (audio_input : audio) (raptparams : Raptparams)
    (is_firstpass : bool) (nccfparam : Nccfparams) :
  _get_nccf_params audio_input raptparams is_firstpass = Ok nccfparam ->
  int_of_product (correlation_window_size raptparams) (fst audio_input)
  = Ok (samples_correlated_per_lag nccfparam)
  /\ (if is_firstpass
      then maximum_allowed_freq raptparams <> 0%Z
           /\ shortest_lag_per_frame nccfparam
              = (fst audio_input / maximum_allowed_freq raptparams)%Z
      else shortest_lag_per_frame nccfparam = 0%Z)
  /\ minimum_allowed_freq raptparams <> 0%Z
  /\ longest_lag_per_frame nccfparam
     = (fst audio_input / minimum_allowed_freq raptparams)%Z
  /\ int_of_product (frame_step_size raptparams) (fst audio_input)
     = Ok (samples_per_frame nccfparam)
  /\ samples_per_frame nccfparam <> 0%Z
  /\ max_frame_count nccfparam
     = (Z.quot (py_len (snd audio_input)) (samples_per_frame nccfparam) - 1)%Z.
Proof.
  unfold _get_nccf_params, py_floordiv. cbv zeta.
  destruct (int_of_product (correlation_window_size raptparams) (fst audio_input))
    as [n|]; cbn [bind]; [|discriminate].
  destruct is_firstpass.
  - destruct (Z.eqb_spec (maximum_allowed_freq raptparams) 0); cbn [bind];
      [discriminate|].
    destruct (Z.eqb_spec (minimum_allowed_freq raptparams) 0); cbn [bind];
      [discriminate|].
    destruct (int_of_product (frame_step_size raptparams) (fst audio_input))
      as [z|]; cbn [bind]; [|discriminate].
    destruct (Z.eqb_spec z 0); [discriminate|].
    intros H. inversion H; subst. cbn. auto 10.
  - cbn [bind].
    destruct (Z.eqb_spec (minimum_allowed_freq raptparams) 0); cbn [bind];
      [discriminate|].
    destruct (int_of_product (frame_step_size raptparams) (fst audio_input))
      as [z|]; cbn [bind]; [|discriminate].
    destruct (Z.eqb_spec z 0); [discriminate|].
    intros H. inversion H; subst. cbn. auto 10.
Qed.

(** ** The correlator *)

Section Correlator.

Variable a : audio.
Variable params : params_t.
Variables frame lag : Z.

Variables n m : Z.
Hypothesis n_def : n = samples_correlated_per_lag (snd params).
Hypothesis m_def : m = (frame * samples_per_frame (snd params))%Z.

Hypothesis n_pos : (0 < n)%Z.
Hypothesis m_nonneg : (0 <= m)%Z.
Hypothesis lag_nonneg : (0 <= lag)%Z.
Hypothesis in_range : (m + lag + n - 1 < py_len (snd a))%Z.

Lemma get_sample_in_range (j : Z) (mean : R) :
  (0 <= j < lag + n)%Z ->
  _get_sample a m j (snd params) mean = Ok (NCCF.x a (m + j) - mean).
Proof.
  intros Hj. unfold _get_sample.
  rewrite (py_getitem_ok _ _ 0) by lia. reflexivity.
Qed.

Lemma frame_mean :
  py_div 1 (IZR n) = Ok (1 / IZR n) /\
  1 / IZR n * py_sum (py_slice (snd a) m (m + n)) = NCCF.mu a m n.
Proof.
  split.
  - apply py_div_ok. apply not_0_IZR. lia.
  - unfold NCCF.mu, NCCF.sigma. f_equal.
    rewrite py_sum_fold_right, (py_slice_inside _ _ _ 0) by lia.
    replace (m + n - m)%Z with n by lia. reflexivity.
Qed.

Lemma numerator_loop (mean : R) :
  for_each
    (fun samples j =>
       correlated_samples <- _get_sample a m j (snd params) mean ;;
       samples_for_lag <- _get_sample a m (j + lag) (snd params) mean ;;
       Ok (samples + correlated_samples * samples_for_lag))
    (xrange 0 n) 0
  = Ok (NCCF.sigma n (fun j => (NCCF.x a (m + j) - mean)
                               * (NCCF.x a (m + lag + j) - mean))).
Proof.
  erewrite for_each_sum with
    (f := fun j => (NCCF.x a (m + j) - mean) * (NCCF.x a (m + lag + j) - mean)).
  - unfold NCCF.sigma. f_equal. lra.
  - intros s j Hj. apply in_xrange in Hj.
    rewrite !get_sample_in_range by lia. cbn.
    replace (m + (j + lag))%Z with (m + lag + j)%Z by lia. reflexivity.
Qed.

Lemma denominator_loop (k : Z) (mean : R) :
  (0 <= k <= lag)%Z ->
  _get_nccf_denominator_val a m k (snd params) mean
  = Ok (NCCF.sigma n (fun j => (NCCF.x a (m + k + j) - mean)
                               * (NCCF.x a (m + k + j) - mean))).
Proof.
  intros Hk. unfold _get_nccf_denominator_val. rewrite <- n_def.

  erewrite for_each_sum with
    (f := fun l => (NCCF.x a (m + l) - mean) * (NCCF.x a (m + l) - mean)).
  - unfold NCCF.sigma. rewrite xrange_shift, map_map. f_equal.
    rewrite Rplus_0_l. f_equal. apply map_ext. intros j.
    now rewrite Z.add_assoc.
  - intros s l Hl. apply in_xrange in Hl.
    rewrite get_sample_in_range by lia. reflexivity.
Qed.

(** On an in-range window the correlator computes the quotient of the
    specification, or raises on a radicand that is negative or zero. *)
Lemma get_correlation_in_range (is_firstpass : bool) :
  _get_correlation a frame lag params is_firstpass =
  (d <- py_sqrt (NCCF.radicand a m n lag (additive_constant (fst params)) is_firstpass) ;;
   py_div (NCCF.numerator a m n lag) d).
Proof.
  unfold _get_correlation. cbv zeta. rewrite <- n_def, <- m_def.

  destruct frame_mean as [Hdiv Hmean]. rewrite Hdiv. cbn [bind].
  rewrite Hmean, numerator_loop. cbn [bind].
  rewrite !denominator_loop by lia. cbn [bind].
  unfold NCCF.radicand, NCCF.energy, NCCF.numerator.
  rewrite Z.add_0_r.
  destruct is_firstpass; reflexivity.
Qed.

End Correlator.

Lemma sum_squares_nonneg {A : Type} (f : A -> R) (l : list A) :
  0 <= fold_right Rplus 0 (map (fun j => f j * f j) l).
Proof.
  induction l as [|x l IH]; cbn [fold_right map]; [lra|].
  pose proof (Rle_0_sqr (f x)) as Hx. unfold Rsqr in Hx. lra.
Qed.

Lemma mean_inequality (u v w : R) :
  0 <= u -> 0 <= v -> w * w <= u * v -> 2 * w <= u + v.
Proof.
  intros Hu Hv Hw. destruct (Rle_dec (2 * w) (u + v)) as [|Hgt]; [assumption|].
  exfalso.
  pose proof (Rle_0_sqr (u - v)) as H1. unfold Rsqr in H1.
  assert (H2 : 0 < (2 * w - (u + v)) * (2 * w + (u + v)))
    by (apply Rmult_lt_0_compat; lra).
  nra.
Qed.

(** The Cauchy-Schwarz inequality on finite sums. *)
Lemma cauchy_schwarz {A : Type} (f g : A -> R) (l : list A) :
  let N := fold_right Rplus 0 (map (fun j => f j * g j) l) in
  let E := fold_right Rplus 0 (map (fun j => f j * f j) l) in
  let F := fold_right Rplus 0 (map (fun j => g j * g j) l) in
  N * N <= E * F.
Proof.
  induction l as [|x l IH]; cbn -[Rmult Rplus] in *; [lra|].
  pose proof (sum_squares_nonneg f l) as HE.
  pose proof (sum_squares_nonneg g l) as HF.
  set (N := fold_right Rplus 0 (map (fun j => f j * g j) l)) in *.
  set (E := fold_right Rplus 0 (map (fun j => f j * f j) l)) in *.
  set (F := fold_right Rplus 0 (map (fun j => g j * g j) l)) in *.
  assert (H : 2 * (N * (f x * g x)) <= E * (g x * g x) + F * (f x * f x)).
  { apply mean_inequality.
    - apply Rmult_le_pos; [lra | nra].
    - apply Rmult_le_pos; [lra | nra].
    - replace (N * (f x * g x) * (N * (f x * g x)))
        with ((N * N) * ((f x * g x) * (f x * g x))) by ring.
      replace (E * (g x * g x) * (F * (f x * f x)))
        with ((E * F) * ((f x * g x) * (f x * g x))) by ring.
      apply Rmult_le_compat_r; [nra | lra]. }
  nra.
Qed.

Lemma numerator_bound (a : audio) (m n k : Z) :
  NCCF.numerator a m n k * NCCF.numerator a m n k
  <= NCCF.energy a m n 0 * NCCF.energy a m n k.
Proof.
  unfold NCCF.numerator, NCCF.energy, NCCF.sigma.
  pose proof (cauchy_schwarz
                (fun j => NCCF.x a (m + j) - NCCF.mu a m n)
                (fun j => NCCF.x a (m + k + j) - NCCF.mu a m n)
                (xrange 0 n)) as H.
  cbv zeta in H.
  replace (map (fun j => (NCCF.x a (m + 0 + j) - NCCF.mu a m n)
                         * (NCCF.x a (m + 0 + j) - NCCF.mu a m n)) (xrange 0 n))
    with (map (fun j => (NCCF.x a (m + j) - NCCF.mu a m n)
                        * (NCCF.x a (m + j) - NCCF.mu a m n)) (xrange 0 n)).
  - exact H.
  - apply map_ext. intros j. now rewrite Z.add_0_r.
Qed.

Lemma energy_nonneg (a : audio) (m n k : Z) : 0 <= NCCF.energy a m n k.
Proof. apply sum_squares_nonneg. Qed.

Lemma quotient_in_unit_interval (N s : R) :
  0 < s -> N * N <= s * s -> -1 <= N / s <= 1.
Proof.
  intros Hs H.
  assert (HN : - s <= N <= s) by nra.
  split.
  - apply Rmult_le_reg_r with s; [lra|].
    unfold Rdiv. rewrite Rmult_assoc, Rinv_l by lra. lra.
  - apply Rmult_le_reg_r with s; [lra|].
    unfold Rdiv. rewrite Rmult_assoc, Rinv_l by lra. lra.
Qed.

Lemma theta_bounded (a : audio) (m n k : Z) (C : R) (is_firstpass : bool) :
  0 <= C ->
  NCCF.radicand a m n k C is_firstpass <> 0 ->
  -1 <= NCCF.theta a m n k C is_firstpass <= 1.
Proof.
  intros HC Hrad. unfold NCCF.theta.
  pose proof (numerator_bound a m n k) as HN.
  pose proof (energy_nonneg a m n 0) as H0.
  pose proof (energy_nonneg a m n k) as Hk.
  assert (Hprod : 0 <= NCCF.energy a m n 0 * NCCF.energy a m n k)
    by now apply Rmult_le_pos.
  assert (Hge : NCCF.energy a m n 0 * NCCF.energy a m n k
                <= NCCF.radicand a m n k C is_firstpass).
  { unfold NCCF.radicand. destruct is_firstpass; lra. }
  assert (Hpos : 0 < NCCF.radicand a m n k C is_firstpass) by lra.
  apply quotient_in_unit_interval.
  - now apply sqrt_lt_R0.
  - rewrite sqrt_sqrt by lra. lra.
Qed.

(** C7 (amended).  Over exact real arithmetic: on a window that lies inside
    the buffer, and whenever the quantity under the square root is not zero
    (the additive constant being non-negative), the correlator returns the
    quotient of the numerator by the square root of [e_0 * e_k] on the first
    pass and of [e_0 * e_k + C] on the second, the mean being the one of the
    reference window, and this quotient lies between -1 and 1.  The rounding
    of doubles, which can carry the value the program returns past 1, is not
    modelled. *)
Theorem C7_correlation_value_and_range
    (a : audio) (params : params_t) (frame lag : Z) (is_firstpass : bool) :
  let n := samples_correlated_per_lag (snd params) in
  let m := (frame * samples_per_frame (snd params))%Z in
  let C := additive_constant (fst params) in
  (0 < n)%Z -> (0 <= m)%Z -> (0 <= lag)%Z ->
  past_end a frame lag params = false ->
  0 <= C ->
  NCCF.radicand a m n lag C is_firstpass <> 0 ->
  _get_correlation a frame lag params is_firstpass
  = Ok (NCCF.numerator a m n lag
        / sqrt (if is_firstpass
                then NCCF.energy a m n 0 * NCCF.energy a m n lag
                else NCCF.energy a m n 0 * NCCF.energy a m n lag + C))
  /\ -1 <= NCCF.theta a m n lag C is_firstpass <= 1.
Proof.
  intros n m C Hn Hm Hlag Hend HC Hrad.
  assert (Hin : (m + lag + n - 1 < py_len (snd a))%Z).
  { unfold past_end in Hend. apply Z.leb_gt in Hend. subst n m. lia. }
  pose proof (theta_bounded a m n lag C is_firstpass HC Hrad) as Hbound.
  split; [|exact Hbound].
  rewrite (get_correlation_in_range a params frame lag n m eq_refl eq_refl)
    by assumption.
  fold C.
  assert (Hpos : 0 < NCCF.radicand a m n lag C is_firstpass).
  { pose proof (energy_nonneg a m n 0). pose proof (energy_nonneg a m n lag).
    assert (0 <= NCCF.energy a m n 0 * NCCF.energy a m n lag)
      by now apply Rmult_le_pos.
    unfold NCCF.radicand in *. destruct is_firstpass; lra. }
  rewrite py_sqrt_ok by lra. cbn [bind].
  rewrite py_div_ok by (apply Rgt_not_eq, sqrt_lt_R0; exact Hpos).
  unfold NCCF.radicand. destruct is_firstpass; reflexivity.
Qed.

(** ** Evaluation on concrete inputs *)

(** Unfolds everything but the operations on reals and the functions that
    have their own equations. *)
Ltac rcompute :=
  cbv -[Rplus Rmult Rminus Rdiv Ropp Rinv IZR sqrt Rlt_dec Rle_dec Req_dec_T
        Rgtb Rgeb Reqb Int_part ln Rabs py_round py_int
        _get_correlation _get_peak_lag_val].

Ltac rcompute_in H :=
  cbv -[Rplus Rmult Rminus Rdiv Ropp Rinv IZR sqrt Rlt_dec Rle_dec Req_dec_T
        Rgtb Rgeb Reqb Int_part ln Rabs py_round py_int
        _get_correlation _get_peak_lag_val] in H.

(** Rewrites with an equation on a concrete call, brought to the same
    normal form as the goal. *)
Ltac rstep lemma :=
  let H := fresh "Hstep" in
  pose proof lemma as H; rcompute_in H; rewrite H; clear H.

(** Settles the comparisons of the goal that linear arithmetic decides. *)
Ltac rdecide :=
  repeat match goal with
    | |- context [Rgtb ?x ?y] =>
        first [rewrite (Rgtb_true x y) by lra | rewrite (Rgtb_false x y) by lra]
    | |- context [Rgeb ?x ?y] =>
        first [rewrite (Rgeb_true x y) by lra | rewrite (Rgeb_false x y) by lra]
    | |- context [Reqb ?x ?y] =>
        first [rewrite (Reqb_true x y) by lra | rewrite (Reqb_false x y) by lra]
    end.

(** Settles a closed fact on integers. *)
Ltac zdecide :=
  repeat split;
  first [ reflexivity | lia | cbn; lia
        | vm_compute; first [reflexivity | intros; discriminate] ].

(** Evaluates a closed program: unfold, settle the comparisons, repeat. *)
Ltac reval := rcompute; repeat (progress rdecide; rcompute).

Lemma sqrt_of_square (x y : R) : 0 <= y -> x = y * y -> sqrt x = y.
Proof. intros Hy ->. now apply sqrt_square. Qed.

Lemma toy_first_correlation :
  _get_correlation toy_downsampled 0 4 (toy_raptparams, toy_first_geometry) true = Ok 1.
Proof.
  rewrite (get_correlation_in_range _ _ _ _ 2 0) by zdecide.
  replace (NCCF.radicand _ _ _ _ _ _) with 4 by (rcompute; field).
  replace (NCCF.numerator _ _ _ _) with 2 by (rcompute; field).
  rewrite py_sqrt_ok by lra. cbn [bind].
  rewrite (sqrt_of_square 4 2) by lra.
  rewrite py_div_ok by lra. f_equal. lra.
Qed.

(** C7 on the toy first-pass buffer, frame 0, lag 4: both windows are
    (1, -1), the radicand is 4 and the correlation is 1. *)
Lemma C7_correlation_witness :
  _get_correlation toy_downsampled 0 4 (toy_raptparams, toy_first_geometry) true
  = Ok (NCCF.numerator toy_downsampled 0 2 4
        / sqrt (NCCF.energy toy_downsampled 0 2 0 * NCCF.energy toy_downsampled 0 2 4))
  /\ -1 <= NCCF.theta toy_downsampled 0 2 4 10000 true <= 1.
Proof.
  apply (C7_correlation_value_and_range
           toy_downsampled (toy_raptparams, toy_first_geometry) 0 4 true).
  - reflexivity.
  - discriminate.
  - discriminate.
  - reflexivity.
  - cbn. lra.
  - rcompute. lra.
Defined.

(** ** Silence *)

Lemma silence_sample (rate len i : Z) : NCCF.x (silence rate len) i = 0.
Proof. unfold NCCF.x, silence. cbn [snd]. apply nth_py_repeat_zero. Qed.

Lemma sigma_zero (n : Z) (f : Z -> R) : (forall j, f j = 0) -> NCCF.sigma n f = 0.
Proof.
  intros H. unfold NCCF.sigma.
  induction (xrange 0 n) as [|j l IH]; cbn; [reflexivity|]. rewrite H, IH. lra.
Qed.

Lemma silence_mean (rate len : Z) (m n : Z) : NCCF.mu (silence rate len) m n = 0.
Proof.
  unfold NCCF.mu. rewrite sigma_zero; [lra|]. intros j. apply silence_sample.
Qed.

Lemma silence_energy (rate len : Z) (m n k : Z) :
  NCCF.energy (silence rate len) m n k = 0.
Proof.
  unfold NCCF.energy. apply sigma_zero. intros j.
  rewrite silence_sample, silence_mean. lra.
Qed.

(** On a silent window the first pass divides by zero. *)
Lemma silence_first_pass_correlation (rate len : Z) (params : params_t)
    (frame lag : Z) :
  (0 < samples_correlated_per_lag (snd params))%Z ->
  (0 <= frame * samples_per_frame (snd params))%Z ->
  (0 <= lag)%Z ->
  past_end (silence rate len) frame lag params = false ->
  _get_correlation (silence rate len) frame lag params true = Raise ZeroDivisionError.
Proof.
  intros Hn Hm Hlag Hend.
  rewrite (get_correlation_in_range _ _ _ _ _ _ eq_refl eq_refl);
    try assumption.
  - unfold NCCF.radicand. rewrite !silence_energy, Rmult_0_l.
    rewrite py_sqrt_ok by lra. cbn [bind]. rewrite sqrt_0. apply py_div_zero.
  - unfold past_end in Hend. apply Z.leb_gt in Hend. lia.
Qed.

(** C7, as stated, fails on a silent window: lag 4 of frame 0 lies inside
    six zero samples, and the first-pass correlator raises instead of
    returning a value. *)
Lemma C7_silent_window_counterexample :
  past_end (silence 8 6) 0 4 (toy_raptparams, toy_first_geometry) = false
  /\ _get_correlation (silence 8 6) 0 4 (toy_raptparams, toy_first_geometry) true
     = Raise ZeroDivisionError.
Proof.
  split; [reflexivity|].
  apply silence_first_pass_correlation; try reflexivity; discriminate.
Qed.

(** ** Frame geometry *)




(** ** More on loops *)

Lemma for_each_preserves {A S : Type} (body : S -> A -> result S) (P : S -> Prop)
    (l : list A) :
  (forall s x s', In x l -> P s -> body s x = Ok s' -> P s') ->
  forall s0 sf, P s0 -> for_each body l s0 = Ok sf -> P sf.
Proof.
  induction l as [|x l IH]; intros Hstep s0 sf H0 Hrun; cbn in Hrun.
  - now inversion Hrun; subst.
  - destruct (body s0 x) as [s1|e] eqn:E; cbn in Hrun; [|discriminate].
    apply (IH (fun s y s' Hy => Hstep s y s' (or_intror Hy)) s1 sf); auto.
    apply (Hstep s0 x s1); auto. now left.
Qed.

(** Every element of the list establishes a fact that the rest of the loop
    keeps. *)
Lemma for_each_establishes {A S : Type} (body : S -> A -> result S)
    (G : A -> S -> Prop) (l : list A) :
  (forall s x s', In x l -> body s x = Ok s' -> G x s') ->
  (forall s y s' x, In y l -> body s y = Ok s' -> G x s -> G x s') ->
  forall s0 sf, for_each body l s0 = Ok sf -> forall x, In x l -> G x sf.
Proof.
  induction l as [|y l IH]; intros Hest Hkeep s0 sf Hrun x Hx; [contradiction|].
  cbn in Hrun. destruct (body s0 y) as [s1|e] eqn:E; cbn in Hrun; [|discriminate].
  destruct Hx as [<-|Hx].
  - apply (for_each_preserves body (G y) l) with (s0 := s1); auto.
    + intros s z s' Hz HG Hb. apply (Hkeep s z s'); auto. now right.
    + apply (Hest s0); auto. now left.
  - apply (IH (fun s z s' Hz => Hest s z s' (or_intror Hz))
              (fun s z s' w Hz => Hkeep s z s' w (or_intror Hz)) s1 sf); auto.
Qed.

Lemma for_each_ext {A S : Type} (body body' : S -> A -> result S) (l : list A) :
  (forall s x, In x l -> body s x = body' s x) ->
  forall s, for_each body l s = for_each body' l s.
Proof.
  induction l as [|x l IH]; intros H s; cbn; [reflexivity|].
  rewrite H by now left. destruct (body' s x); cbn; [|reflexivity].
  apply IH. intros; apply H; now right.
Qed.



(** ** [enumerate] *)

Lemma enumerate_from_in {A : Type} (l : list A) (start : nat) (k : Z) (v d : A) :
  In (k, v) (combine (map Z.of_nat (seq start (length l))) l) <->
  (Z.of_nat start <= k < Z.of_nat start + py_len l)%Z
  /\ nth (Z.to_nat k - start) l d = v.
Proof.
  unfold py_len. revert start. induction l as [|x l IH]; intros start; cbn [length seq map combine].
  - split; [contradiction | lia].
  - cbn [In]. rewrite IH. split.
    + intros [H|[H1 H2]].
      * inversion H; subst. split; [lia|].
        now replace (Z.to_nat (Z.of_nat start) - start)%nat with O by lia.
      * split; [lia|].
        replace (Z.to_nat k - start)%nat with (S (Z.to_nat k - S start)) by lia.
        exact H2.
    + intros [H1 H2]. destruct (Z.eq_dec k (Z.of_nat start)) as [->|Hne].
      * left. f_equal.
        now replace (Z.to_nat (Z.of_nat start) - start)%nat with O in H2 by lia.
      * right. split; [lia|].
        replace (Z.to_nat k - start)%nat with (S (Z.to_nat k - S start)) in H2 by lia.
        exact H2.
Qed.

Lemma enumerate_in {A : Type} (l : list A) (k : Z) (v d : A) :
  In (k, v) (enumerate l) <-> (0 <= k < py_len l)%Z /\ nth (Z.to_nat k) l d = v.
Proof.
  unfold enumerate. rewrite (enumerate_from_in l 0 k v d).
  now rewrite Nat.sub_0_r.
Qed.

(** ** The marking loop *)

Section Marking.

Variable lag_results : lag_results_t.
Variable params : params_t.

Lemma marked_second_pass :
  marked_candidates lag_results params false
  = Ok (map (second_pass_candidate params) (filter (above_threshold lag_results params) (enumerate (fst lag_results)))).
Proof.
  unfold marked_candidates.
  enough (H : forall l acc,
             for_each
               (fun candidates (kv : Z * R) =>
                  let '(k, k_val) := kv in
                  if Rgeb k_val (snd lag_results * min_acceptable_peak_val (fst params))
                  then Ok (candidates ++ [((k + shortest_lag_per_frame (snd params))%Z, k_val)])
                  else Ok candidates) l acc
             = Ok (acc ++ map (second_pass_candidate params) (filter (above_threshold lag_results params) l)))
    by apply H.
  induction l as [|[k v] l IH]; intros acc; cbn [for_each filter map].
  - now rewrite app_nil_r.
  - unfold above_threshold at 1. cbn [snd].
    destruct (Rgeb v _); cbn [bind].
    + rewrite IH, <- app_assoc. reflexivity.
    + apply IH.
Qed.

Lemma marked_first_pass :
  marked_candidates lag_results params true
  = map_result (fun kv => _get_peak_lag_val (fst lag_results) (fst kv) params)
      (filter (above_threshold lag_results params) (enumerate (fst lag_results))).
Proof.
  unfold marked_candidates.
  enough (H : forall l acc,
             for_each
               (fun candidates (kv : Z * R) =>
                  let '(k, k_val) := kv in
                  if Rgeb k_val (snd lag_results * min_acceptable_peak_val (fst params))
                  then c <- _get_peak_lag_val (fst lag_results) k params ;;
                       Ok (candidates ++ [c])
                  else Ok candidates) l acc
             = (r <- map_result
                       (fun kv => _get_peak_lag_val (fst lag_results) (fst kv) params)
                       (filter (above_threshold lag_results params) l) ;;
                Ok (acc ++ r))).
  { rewrite H. destruct (map_result _ _); reflexivity. }
  induction l as [|[k v] l IH]; intros acc; cbn [for_each filter map_result].
  - cbn. now rewrite app_nil_r.
  - unfold above_threshold at 1. cbn [snd].
    destruct (Rgeb v _); cbn [bind map_result fst].
    + destruct (_get_peak_lag_val (fst lag_results) k params) as [c|e]; cbn [bind];
        [|reflexivity].
      rewrite IH. destruct (map_result _ _); cbn [bind]; [|reflexivity].
      now rewrite <- app_assoc.
    + apply IH.
Qed.

End Marking.

(** ** The first-pass scan *)

Lemma store_correlation_inv (st st' : lag_results_t) (k : Z) (v : R) :
  (0 <= k)%Z ->
  store_correlation st k v = Ok st' ->
  (k < py_len (fst st))%Z
  /\ fst st' = list_update (fst st) (Z.to_nat k) v
  /\ snd st' = (if Rgtb v (snd st) then v else snd st).
Proof.
  intros Hk. unfold store_correlation, py_setitem.
  replace (k <? 0)%Z with false by lia.
  destruct (k <? py_len (fst st))%Z eqn:E;
    replace (0 <=? k)%Z with true by lia; cbn [andb bind]; [|discriminate].
  intros H. inversion H; subst. cbn [fst snd]. repeat split. lia.
Qed.

Lemma store_correlation_ok (st : lag_results_t) (k : Z) (v : R) :
  (0 <= k < py_len (fst st))%Z ->
  store_correlation st k v
  = Ok (list_update (fst st) (Z.to_nat k) v, if Rgtb v (snd st) then v else snd st).
Proof.
  intros Hk. unfold store_correlation. now rewrite py_setitem_ok.
Qed.


Section FirstPassScan.

Variable a : audio.
Variable params : params_t.
Variables current_frame lag_range : Z.
Variable candidates : list R.
Variable max_correlation_val : R.

Hypothesis scan :
  _get_correlations_for_all_lags a current_frame lag_range params
  = Ok (candidates, max_correlation_val).



Hypothesis all_negative :
  forall k v, (0 <= k < lag_range)%Z ->
    past_end a current_frame (k + shortest_lag_per_frame (snd params)) params = false ->
    _get_correlation a current_frame (k + shortest_lag_per_frame (snd params)) params true
    = Ok v ->
    v < 0.


End FirstPassScan.



(** ** Peak interpolation *)

Lemma xrange_three (x0 : Z) : xrange x0 (x0 + 3) = [x0; (x0 + 1)%Z; (x0 + 2)%Z].
Proof.
  rewrite xrange_cons by lia. rewrite xrange_cons by lia. rewrite xrange_cons by lia.
  rewrite xrange_nil by lia. now replace (x0 + 1 + 1)%Z with (x0 + 2)%Z by lia.
Qed.

Lemma polyfit2_consecutive (x0 : Z) (y0 y1 y2 : R) :
  polyfit2 (map IZR (xrange x0 (x0 + 3))) [y0; y1; y2]
  = Ok (parabola_a y0 y1 y2, parabola_b (IZR x0) y0 y1 y2,
        y0 - parabola_a y0 y1 y2 * IZR x0 * IZR x0
        - parabola_b (IZR x0) y0 y1 y2 * IZR x0).
Proof.
  rewrite xrange_three. cbn [map polyfit2]. rewrite !plus_IZR.
  unfold parabola_b, parabola_a.
  assert (Ha : ((y2 - y1) / (IZR x0 + 2 - (IZR x0 + 1)) - (y1 - y0) / (IZR x0 + 1 - IZR x0))
               / (IZR x0 + 2 - IZR x0) = (y0 - 2 * y1 + y2) / 2).
  { replace (IZR x0 + 2 - (IZR x0 + 1)) with 1 by ring.
    replace (IZR x0 + 1 - IZR x0) with 1 by ring.
    replace (IZR x0 + 2 - IZR x0) with 2 by ring. field. }
  rewrite Ha.
  replace ((y1 - y0) / (IZR x0 + 1 - IZR x0)) with (y1 - y0)
    by (replace (IZR x0 + 1 - IZR x0) with 1 by ring; field).
  apply f_equal. apply f_equal2; [apply f_equal2; [reflexivity | ring] | ring].
Qed.

Lemma py_slice_three (l : list R) (j : Z) :
  (0 <= j)%Z -> (j + 3 <= py_len l)%Z ->
  py_slice l j (j + 3)
  = [nth (Z.to_nat j) l 0; nth (Z.to_nat (j + 1)) l 0; nth (Z.to_nat (j + 2)) l 0].
Proof.
  intros Hj Hlen. rewrite (py_slice_inside l j (j + 3) 0) by lia.
  replace (j + 3 - j)%Z with (0 + 3)%Z by lia. rewrite xrange_three. cbn [map].
  now rewrite Z.add_0_r.
Qed.

Lemma Reqb_double (a : R) : Reqb (2 * a) 0 = Reqb a 0.
Proof.
  unfold Reqb. destruct (Req_dec_T a 0), (Req_dec_T (2 * a) 0); try reflexivity; lra.
Qed.

(** What [_get_peak_lag_val] does, on a list of at least three correlations:
    it fits the parabola on the three samples around the index, raises when
    the parabola is degenerate, and otherwise rounds the rescaled abscissa of
    the vertex. *)
Lemma peak_lag_val_equation (lag_results : list R) (lag_index : Z) (params : params_t) :
  (3 <= py_len lag_results)%Z ->
  (0 <= lag_index < py_len lag_results)%Z ->
  let j := peak_window_start (py_len lag_results) lag_index in
  let y0 := nth (Z.to_nat j) lag_results 0 in
  let y1 := nth (Z.to_nat (j + 1)) lag_results 0 in
  let y2 := nth (Z.to_nat (j + 2)) lag_results 0 in
  let a := parabola_a y0 y1 y2 in
  let b := parabola_b (IZR (j + shortest_lag_per_frame (snd params))) y0 y1 y2 in
  _get_peak_lag_val lag_results lag_index params =
  if Reqb a 0 then
    if Reqb b 0 || Reqb (sample_rate_ratio (fst params)) 0
    then Raise ValueError else Raise OverflowError
  else
    Ok (py_int (py_round (- b / (2 * a) * sample_rate_ratio (fst params))),
        nth (Z.to_nat lag_index) lag_results 0).
Proof.
  intros Hlen Hidx. unfold _get_peak_lag_val, peak_window_start.
  set (kmin := shortest_lag_per_frame (snd params)).
  destruct (lag_index =? 0)%Z eqn:E0;
    [|destruct (lag_index =? py_len lag_results - 1)%Z eqn:E1]; cbv zeta.
  - apply Z.eqb_eq in E0. subst lag_index.
    rewrite py_slice_three by lia. rewrite polyfit2_consecutive. cbn [bind].
    rewrite Reqb_double, (py_getitem_ok _ _ 0) by lia.
    destruct (Reqb _ 0); reflexivity.
  - replace (lag_index + 1)%Z with (lag_index - 2 + 3)%Z by lia.
    rewrite py_slice_three by lia.
    replace (lag_index + kmin - 2)%Z with (lag_index - 2 + kmin)%Z by lia.
    replace (lag_index + kmin + 1)%Z with (lag_index - 2 + kmin + 3)%Z by lia.
    rewrite polyfit2_consecutive. cbn [bind].
    rewrite Reqb_double, (py_getitem_ok _ _ 0) by lia.
    destruct (Reqb _ 0); reflexivity.
  - apply Z.eqb_neq in E0.
    replace (lag_index + 2)%Z with (lag_index - 1 + 3)%Z by lia.
    rewrite py_slice_three by lia.
    replace (lag_index + kmin - 1)%Z with (lag_index - 1 + kmin)%Z by lia.
    replace (lag_index + kmin + 2)%Z with (lag_index - 1 + kmin + 3)%Z by lia.
    rewrite polyfit2_consecutive. cbn [bind].
    rewrite Reqb_double, (py_getitem_ok _ _ 0) by lia.
    destruct (Reqb _ 0); reflexivity.
Qed.

(** ** Rounding *)

Lemma Int_part_between (x : R) (z : Z) : IZR z <= x < IZR z + 1 -> Int_part x = z.
Proof. intros H. symmetry. apply Int_part_spec. lra. Qed.

Lemma py_round_nonneg (x : R) (z : Z) :
  0 <= x -> IZR z <= x + / 2 < IZR z + 1 -> py_round x = IZR z.
Proof.
  intros Hx H. unfold py_round. rewrite Rgeb_true by lra.
  now rewrite (Int_part_between _ z).
Qed.

Lemma py_int_nonneg (x : R) (z : Z) :
  0 <= x -> IZR z <= x < IZR z + 1 -> py_int x = z.
Proof.
  intros Hx H. unfold py_int. rewrite Rgeb_true by lra.
  now apply Int_part_between.
Qed.

(** ** The toy inputs, step by step *)

Lemma toy_first_scan :
  _get_correlations_for_all_lags toy_downsampled 0 3 (toy_raptparams, toy_first_geometry)
  = Ok ([1; 0; 0], 1).
Proof.
  rcompute. rstep toy_first_correlation. rdecide. reflexivity.
Qed.

Lemma toy_first_peak :
  _get_peak_lag_val [1; 0; 0] 0 (toy_raptparams, toy_first_geometry) = Ok (11%Z, 1).
Proof.
  rewrite peak_lag_val_equation by zdecide. rcompute.
  rewrite Reqb_false by lra.
  replace (- (0 - 1 - (1 - 2 * 0 + 0) / 2 * (2 * 4 + 1)) / (2 * ((1 - 2 * 0 + 0) / 2)) * 2)
    with 11 by field.
  rewrite (py_round_nonneg 11 11) by lra.
  rewrite (py_int_nonneg 11 11) by lra. reflexivity.
Qed.

Lemma toy_first_frame :
  _get_firstpass_frame_results toy_downsampled 0 3 (toy_raptparams, toy_first_geometry)
  = Ok [(11%Z, 1)].
Proof.
  unfold _get_firstpass_frame_results, _get_marked_results.
  rewrite toy_first_scan. cbn [bind]. rewrite marked_first_pass.
  replace (filter _ _) with [(0%Z, 1)].
  - cbn [map_result fst]. rewrite toy_first_peak. reflexivity.
  - unfold above_threshold. reval. reflexivity.
Qed.

Lemma toy_first_pass :
  _first_pass_nccf toy_downsampled toy_raptparams = Ok [[(11%Z, 1)]].
Proof.
  unfold _first_pass_nccf.
  replace (_get_nccf_params toy_downsampled toy_raptparams true)
    with (Ok toy_first_geometry) by reflexivity.
  cbn [bind]. unfold frame_loop.
  change (xrange 0 (max_frame_count toy_first_geometry)) with [0%Z].
  cbn [for_each].
  change (longest_lag_per_frame toy_first_geometry - 1
          - shortest_lag_per_frame toy_first_geometry)%Z with 3%Z.
  rewrite toy_first_frame. reflexivity.
Qed.

(** ** Scaling the samples *)

Lemma py_len_map {A B : Type} (f : A -> B) (l : list A) : py_len (map f l) = py_len l.
Proof. unfold py_len. now rewrite length_map. Qed.

Lemma py_getitem_map {A B : Type} (f : A -> B) (l : list A) (i : Z) :
  py_getitem (map f l) i = (x <- py_getitem l i ;; Ok (f x)).
Proof.
  unfold py_getitem. rewrite py_len_map.
  destruct ((0 <=? _)%Z && _); [|reflexivity].
  rewrite nth_error_map. destruct (nth_error l _); reflexivity.
Qed.

Lemma py_slice_map {A B : Type} (f : A -> B) (l : list A) (a b : Z) :
  py_slice (map f l) a b = map f (py_slice l a b).
Proof.
  unfold py_slice. rewrite py_len_map. now rewrite skipn_map, firstn_map.
Qed.

Lemma py_sum_scale (c : R) (l : list R) : py_sum (map (Rmult c) l) = c * py_sum l.
Proof.
  rewrite !py_sum_fold_right. induction l as [|x l IH]; cbn; [lra|]. rewrite IH. lra.
Qed.

(** A loop on an accumulator, run on scaled data. *)
Lemma for_each_scaled {A : Type} (body body' : R -> A -> result R) (k : R) (l : list A) :
  (forall s x, body' (k * s) x = (r <- body s x ;; Ok (k * r))) ->
  forall s, for_each body' l (k * s) = (r <- for_each body l s ;; Ok (k * r)).
Proof.
  intros H. induction l as [|x l IH]; intros s; cbn [for_each bind]; [reflexivity|].
  rewrite H. destruct (body s x) as [r|e]; cbn [bind]; [apply IH | reflexivity].
Qed.

Section Scaling.

Variable c : R.
Hypothesis c_pos : 0 < c.
Variable a : audio.

Lemma scale_sample (frame_start idx : Z) (np : Nccfparams) (mean : R) :
  _get_sample (scale c a) frame_start idx np (c * mean)
  = (r <- _get_sample a frame_start idx np mean ;; Ok (c * r)).
Proof.
  unfold _get_sample, scale. cbn [snd]. rewrite py_getitem_map.
  destruct (py_getitem (snd a) _); cbn [bind]; [|reflexivity].
  f_equal. ring.
Qed.

Lemma scale_denominator (frame_start starting_val : Z) (np : Nccfparams) (mean : R) :
  _get_nccf_denominator_val (scale c a) frame_start starting_val np (c * mean)
  = (r <- _get_nccf_denominator_val a frame_start starting_val np mean ;;
     Ok (c * c * r)).
Proof.
  unfold _get_nccf_denominator_val.
  replace 0 with (c * c * 0) at 1 by ring.
  apply for_each_scaled. intros s l. rewrite scale_sample.
  destruct (_get_sample a _ _ _ _); cbn [bind]; [|reflexivity].
  f_equal. ring.
Qed.

Lemma scale_past_end (frame lag : Z) (params : params_t) :
  past_end (scale c a) frame lag params = past_end a frame lag params.
Proof. unfold past_end, scale. cbn [snd]. now rewrite py_len_map. Qed.

Lemma scale_geometry (raptparam : Raptparams) (is_firstpass : bool) :
  _get_nccf_params (scale c a) raptparam is_firstpass
  = _get_nccf_params a raptparam is_firstpass.
Proof. unfold _get_nccf_params, scale. cbn [fst snd]. now rewrite py_len_map. Qed.

Lemma sqrt_scaled (r : R) : 0 <= r -> sqrt (c * c * (c * c) * r) = c * c * sqrt r.
Proof.
  intros Hr. rewrite sqrt_mult; [| nra | assumption].
  rewrite sqrt_square; [reflexivity | nra].
Qed.

(** The quotient of the scaled numerator by the scaled denominator. *)
Lemma scale_quotient (samples r : R) :
  (d <- py_sqrt (c * c * (c * c) * r) ;; py_div (c * c * samples) d)
  = (d <- py_sqrt r ;; py_div samples d).
Proof.
  assert (Hc2 : 0 < c * c) by nra.
  assert (Hc4 : 0 < c * c * (c * c)) by nra.
  unfold py_sqrt.
  destruct (Rlt_dec r 0) as [Hneg|Hpos].
  - rewrite !Rgtb_true by nra. reflexivity.
  - rewrite !Rgtb_false by nra. cbn [bind].
    rewrite sqrt_scaled by lra. unfold py_div.
    destruct (Req_dec_T (sqrt r) 0) as [Hz|Hnz].
    + rewrite Hz, Rmult_0_r, !Reqb_true by reflexivity. reflexivity.
    + rewrite !Reqb_false; [|assumption|nra].
      f_equal. field. split; [assumption | lra].
Qed.

(** The correlator does not see the scale on the first pass, nor on the
    second when the additive constant is 0. *)
Lemma scale_correlation (frame lag : Z) (params : params_t) (is_firstpass : bool) :
  is_firstpass = true \/ additive_constant (fst params) = 0 ->
  _get_correlation (scale c a) frame lag params is_firstpass
  = _get_correlation a frame lag params is_firstpass.
Proof.
  intros Hpass. unfold _get_correlation. cbv zeta.
  set (np := snd params). set (n := samples_correlated_per_lag np).
  set (m := (frame * samples_per_frame np)%Z).
  destruct (py_div 1 (IZR n)) as [inv_n|e]; cbn [bind]; [|reflexivity].
  set (mean := inv_n * py_sum (py_slice (snd a) m (m + n))).
  assert (Hmean : inv_n * py_sum (py_slice (snd (scale c a)) m (m + n)) = c * mean).
  { unfold scale. cbn [snd]. rewrite py_slice_map, py_sum_scale. subst mean. ring. }
  rewrite Hmean.
  assert (Hnum :
            for_each
              (fun samples j =>
                 correlated_samples <- _get_sample (scale c a) m j np (c * mean) ;;
                 samples_for_lag <- _get_sample (scale c a) m (j + lag) np (c * mean) ;;
                 Ok (samples + correlated_samples * samples_for_lag))
              (xrange 0 n) 0
            = (r <- for_each
                      (fun samples j =>
                         correlated_samples <- _get_sample a m j np mean ;;
                         samples_for_lag <- _get_sample a m (j + lag) np mean ;;
                         Ok (samples + correlated_samples * samples_for_lag))
                      (xrange 0 n) 0 ;;
               Ok (c * c * r))).
  { replace 0 with (c * c * 0) at 1 by ring.
    apply for_each_scaled. intros s j. rewrite !scale_sample.
    destruct (_get_sample a m j np mean); cbn [bind]; [|reflexivity].
    destruct (_get_sample a m (j + lag) np mean); cbn [bind]; [|reflexivity].
    f_equal. ring. }
  rewrite Hnum. clear Hnum.
  match goal with
  | |- bind (bind ?loop _) _ = _ => destruct loop as [samples|e]
  end; cbn [bind]; [|reflexivity].
  rewrite !scale_denominator.
  destruct (_get_nccf_denominator_val a m 0 np mean) as [e0|e]; cbn [bind]; [|reflexivity].
  destruct (_get_nccf_denominator_val a m lag np mean) as [ek|e]; cbn [bind]; [|reflexivity].
  destruct is_firstpass.
  - replace (c * c * e0 * (c * c * ek)) with (c * c * (c * c) * (e0 * ek)) by ring.
    apply scale_quotient.
  - destruct Hpass as [Hpass|Hpass]; [discriminate|]. rewrite Hpass.
    replace (c * c * e0 * (c * c * ek) + 0) with (c * c * (c * c) * (e0 * ek + 0)) by ring.
    apply scale_quotient.
Qed.

Lemma scale_all_lags (frame lag_range : Z) (params : params_t) :
  _get_correlations_for_all_lags (scale c a) frame lag_range params
  = _get_correlations_for_all_lags a frame lag_range params.
Proof.
  unfold _get_correlations_for_all_lags. apply for_each_ext. intros st k _.
  rewrite scale_past_end, scale_correlation by now left. reflexivity.
Qed.

Lemma scale_input_lags (frame lag_range : Z) (first_pass : list (list hypothesis))
    (params : params_t) :
  additive_constant (fst params) = 0 ->
  _get_correlations_for_input_lags (scale c a) frame first_pass lag_range params
  = _get_correlations_for_input_lags a frame first_pass lag_range params.
Proof.
  intros HC. unfold _get_correlations_for_input_lags. cbv zeta.
  destruct (py_getitem first_pass frame); cbn [bind]; [|reflexivity].
  apply for_each_ext. intros st lag_val _.
  destruct (peak_ok _ _); [|reflexivity].
  apply for_each_ext. intros st' k _.
  rewrite scale_past_end, scale_correlation by now right. reflexivity.
Qed.

Lemma scale_first_pass (raptparam : Raptparams) :
  _first_pass_nccf (scale c a) raptparam = _first_pass_nccf a raptparam.
Proof.
  unfold _first_pass_nccf. rewrite scale_geometry.
  destruct (_get_nccf_params a raptparam true); cbn [bind]; [|reflexivity].
  unfold frame_loop. apply for_each_ext. intros st i _.
  unfold _get_firstpass_frame_results. now rewrite scale_all_lags.
Qed.

Lemma scale_second_pass (first_pass : list (list hypothesis)) (raptparam : Raptparams) :
  additive_constant raptparam = 0 ->
  _second_pass_nccf (scale c a) first_pass raptparam
  = _second_pass_nccf a first_pass raptparam.
Proof.
  intros HC. unfold _second_pass_nccf. rewrite scale_geometry.
  destruct (_get_nccf_params a raptparam false); cbn [bind]; [|reflexivity].
  unfold frame_loop. apply for_each_ext. intros st i _.
  unfold _get_secondpass_frame_results. now rewrite scale_input_lags.
Qed.

End Scaling.

(** C4 (amended).  Over exact real arithmetic, multiplying every sample by a
    positive constant changes no first-pass correlation, hence no first-pass
    candidate; it leaves the estimate of every frame unchanged when the
    additive constant of the second pass is 0.  The rounding, the overflow
    and the underflow of doubles, under which a scaled buffer can give another
    value or another error, are not modelled. *)
Theorem C4_scale_invariance
    (original_audio downsampled_audio : audio) (raptparam : Raptparams) (c : R) :
  0 < c ->
  _first_pass_nccf (scale c downsampled_audio) raptparam
  = _first_pass_nccf downsampled_audio raptparam
  /\ (additive_constant raptparam = 0 ->
      rapt (scale c original_audio) (scale c downsampled_audio) raptparam
      = rapt original_audio downsampled_audio raptparam).
Proof.
  intros Hc. split; [now apply scale_first_pass|].
  intros HC. unfold rapt, _run_nccf. cbn [scale fst].
  destruct (py_div _ _) as [ratio|e]; cbn [bind]; [|reflexivity].
  change (fst downsampled_audio, map (Rmult c) (snd downsampled_audio))
    with (scale c downsampled_audio).
  change (fst original_audio, map (Rmult c) (snd original_audio))
    with (scale c original_audio).
  rewrite scale_first_pass by assumption.
  destruct (_first_pass_nccf downsampled_audio _); cbn [bind]; [|reflexivity].
  rewrite scale_second_pass by assumption. reflexivity.
Qed.

(** ** The second pass on the toy input *)

Lemma div_sqrt_between (N D lo hi : R) :
  0 < N -> 0 < lo -> lo * lo < D -> D < hi * hi -> 0 < hi ->
  N / hi < N / sqrt D < N / lo.
Proof.
  intros HN Hlo HloD HDhi Hhi.
  assert (HD : 0 < D) by nra.
  assert (Hs : 0 < sqrt D) by now apply sqrt_lt_R0.
  assert (Hss : sqrt D * sqrt D = D) by (apply sqrt_sqrt; lra).
  assert (H1 : lo < sqrt D) by nra.
  assert (H2 : sqrt D < hi) by nra.
  unfold Rdiv. split.
  - apply Rmult_lt_compat_l; [assumption|]. apply Rinv_lt_contravar; [nra | assumption].
  - apply Rmult_lt_compat_l; [assumption|]. apply Rinv_lt_contravar; [nra | assumption].
Qed.

Lemma toy_second_correlation_8 :
  _get_correlation toy_original 0 8 (toy_raptparams, toy_second_geometry) false
  = Ok (4 / sqrt 10016).
Proof.
  rewrite (get_correlation_in_range _ _ _ _ 4 0) by zdecide.
  replace (NCCF.radicand _ _ _ _ _ _) with 10016 by (rcompute; field).
  replace (NCCF.numerator _ _ _ _) with 4 by (rcompute; field).
  rewrite py_sqrt_ok by lra. cbn [bind].
  apply py_div_ok. apply Rgt_not_eq, sqrt_lt_R0. lra.
Qed.

Lemma toy_second_correlation_9 :
  _get_correlation toy_original 0 9 (toy_raptparams, toy_second_geometry) false
  = Ok (97 / sqrt 50012).
Proof.
  rewrite (get_correlation_in_range _ _ _ _ 4 0) by zdecide.
  replace (NCCF.radicand _ _ _ _ _ _) with 50012 by (rcompute; field).
  replace (NCCF.numerator _ _ _ _) with 97 by (rcompute; field).
  rewrite py_sqrt_ok by lra. cbn [bind].
  apply py_div_ok. apply Rgt_not_eq, sqrt_lt_R0. lra.
Qed.

Lemma toy_theta_8 : 4 / 101 < 4 / sqrt 10016 < 4 / 100.
Proof. apply div_sqrt_between; lra. Qed.

Lemma toy_theta_9 : 97 / 224 < 97 / sqrt 50012 < 97 / 223.
Proof. apply div_sqrt_between; lra. Qed.

Lemma toy_second_scan :
  _get_correlations_for_input_lags toy_original 0 [[(11%Z, 1)]] 15
    (toy_raptparams, toy_second_geometry)
  = Ok ([0; 0; 0; 0; 0; 0; 0; 0; 4 / sqrt 10016; 97 / sqrt 50012; 0; 0; 0; 0; 0],
        97 / sqrt 50012).
Proof.
  pose proof toy_theta_8. pose proof toy_theta_9.
  rcompute.
  rstep toy_second_correlation_8. rcompute.
  rstep toy_second_correlation_9. reval. reflexivity.
Qed.

Lemma filter_cons_true {A : Type} (f : A -> bool) (x : A) (l : list A) :
  f x = true -> filter f (x :: l) = x :: filter f l.
Proof. intros H. cbn. now rewrite H. Qed.

Lemma filter_cons_false {A : Type} (f : A -> bool) (x : A) (l : list A) :
  f x = false -> filter f (x :: l) = filter f l.
Proof. intros H. cbn. now rewrite H. Qed.

(** Runs the threshold test of the marking loop down an enumerated list,
    one comparison at a time. *)
Ltac threshold_filter :=
  cbn [fst snd];
  cbv [enumerate length seq map combine Z.of_nat Pos.of_succ_nat Pos.succ];
  repeat first
    [ rewrite filter_cons_true
        by (unfold above_threshold; rcompute; apply Rgeb_true; lra)
    | rewrite filter_cons_false
        by (unfold above_threshold; rcompute; apply Rgeb_false; lra) ];
  cbn [filter].

Lemma toy_second_frame :
  _get_secondpass_frame_results toy_original 0 15 (toy_raptparams, toy_second_geometry)
    [[(11%Z, 1)]]
  = Ok [(9%Z, 97 / sqrt 50012)].
Proof.
  pose proof toy_theta_8. pose proof toy_theta_9.
  unfold _get_secondpass_frame_results, _get_marked_results.
  rewrite toy_second_scan. cbn [bind]. rewrite marked_second_pass. cbn [bind].
  threshold_filter. cbn [map]. unfold second_pass_candidate, cap_candidates.
  rcompute. reflexivity.
Qed.

Lemma toy_second_pass :
  _second_pass_nccf toy_original [[(11%Z, 1)]] toy_raptparams
  = Ok [[(9%Z, 97 / sqrt 50012)]].
Proof.
  unfold _second_pass_nccf.
  replace (_get_nccf_params toy_original toy_raptparams false)
    with (Ok toy_second_geometry) by reflexivity.
  cbn [bind]. unfold frame_loop.
  change (xrange 0 (max_frame_count toy_second_geometry)) with [0%Z].
  cbn [for_each].
  change (longest_lag_per_frame toy_second_geometry - 1
          - shortest_lag_per_frame toy_second_geometry)%Z with 15%Z.
  rewrite toy_second_frame. reflexivity.
Qed.

Lemma toy_estimate :
  _get_freq_estimate [[(9%Z, 97 / sqrt 50012)]] toy_raptparams 16 = Ok [1].
Proof.
  pose proof toy_theta_9.
  reval. reflexivity.
Qed.

Lemma toy_rapt : rapt toy_original toy_downsampled toy_raptparams = Ok [1].
Proof.
  unfold rapt. cbn [fst toy_original toy_downsampled].
  rewrite py_div_ok by lra. cbn [bind]. unfold _run_nccf.
  replace (with_sample_rate_ratio toy_raptparams (16 / 8)) with toy_raptparams.
  - rewrite toy_first_pass. cbn [bind]. rewrite toy_second_pass. cbn [bind].
    apply toy_estimate.
  - unfold with_sample_rate_ratio, toy_raptparams. cbn. f_equal. lra.
Qed.

(** ** The toy input, a hundred times louder *)

Lemma loud_second_correlation_8 :
  _get_correlation (scale 100 toy_original) 0 8 (toy_raptparams, toy_second_geometry) false
  = Ok (40000 / sqrt 1600010000).
Proof.
  rewrite (get_correlation_in_range _ _ _ _ 4 0) by zdecide.
  replace (NCCF.radicand _ _ _ _ _ _) with 1600010000 by (rcompute; field).
  replace (NCCF.numerator _ _ _ _) with 40000 by (rcompute; field).
  rewrite py_sqrt_ok by lra. cbn [bind].
  apply py_div_ok. apply Rgt_not_eq, sqrt_lt_R0. lra.
Qed.

Lemma loud_second_correlation_9 :
  _get_correlation (scale 100 toy_original) 0 9 (toy_raptparams, toy_second_geometry) false
  = Ok (970000 / sqrt 4001200010000).
Proof.
  rewrite (get_correlation_in_range _ _ _ _ 4 0) by zdecide.
  replace (NCCF.radicand _ _ _ _ _ _) with 4001200010000 by (rcompute; field).
  replace (NCCF.numerator _ _ _ _) with 970000 by (rcompute; field).
  rewrite py_sqrt_ok by lra. cbn [bind].
  apply py_div_ok. apply Rgt_not_eq, sqrt_lt_R0. lra.
Qed.

Lemma loud_theta_8 : 40000 / 40001 < 40000 / sqrt 1600010000 < 40000 / 40000.
Proof. apply div_sqrt_between; lra. Qed.

Lemma loud_theta_9 :
  970000 / 2000300 < 970000 / sqrt 4001200010000 < 970000 / 2000000.
Proof. apply div_sqrt_between; lra. Qed.

Lemma loud_second_scan :
  _get_correlations_for_input_lags (scale 100 toy_original) 0 [[(11%Z, 1)]] 15
    (toy_raptparams, toy_second_geometry)
  = Ok ([0; 0; 0; 0; 0; 0; 0; 0;
         40000 / sqrt 1600010000; 970000 / sqrt 4001200010000; 0; 0; 0; 0; 0],
        40000 / sqrt 1600010000).
Proof.
  pose proof loud_theta_8. pose proof loud_theta_9.
  rcompute.
  rstep loud_second_correlation_8. rcompute.
  rstep loud_second_correlation_9. reval. reflexivity.
Qed.

Lemma loud_second_frame :
  _get_secondpass_frame_results (scale 100 toy_original) 0 15
    (toy_raptparams, toy_second_geometry) [[(11%Z, 1)]]
  = Ok [(8%Z, 40000 / sqrt 1600010000); (9%Z, 970000 / sqrt 4001200010000)].
Proof.
  pose proof loud_theta_8. pose proof loud_theta_9.
  unfold _get_secondpass_frame_results, _get_marked_results.
  rewrite loud_second_scan. cbn [bind]. rewrite marked_second_pass. cbn [bind].
  threshold_filter. cbn [map]. unfold second_pass_candidate, cap_candidates.
  rcompute. reflexivity.
Qed.

Lemma loud_second_pass :
  _second_pass_nccf (scale 100 toy_original) [[(11%Z, 1)]] toy_raptparams
  = Ok [[(8%Z, 40000 / sqrt 1600010000); (9%Z, 970000 / sqrt 4001200010000)]].
Proof.
  unfold _second_pass_nccf.
  replace (_get_nccf_params (scale 100 toy_original) toy_raptparams false)
    with (Ok toy_second_geometry) by reflexivity.
  cbn [bind]. unfold frame_loop.
  change (xrange 0 (max_frame_count toy_second_geometry)) with [0%Z].
  cbn [for_each].
  change (longest_lag_per_frame toy_second_geometry - 1
          - shortest_lag_per_frame toy_second_geometry)%Z with 15%Z.
  rewrite loud_second_frame. reflexivity.
Qed.

Lemma loud_estimate :
  _get_freq_estimate
    [[(8%Z, 40000 / sqrt 1600010000); (9%Z, 970000 / sqrt 4001200010000)]]
    toy_raptparams 16
  = Ok [2].
Proof.
  pose proof loud_theta_8. pose proof loud_theta_9.
  reval. reflexivity.
Qed.

Lemma loud_rapt :
  rapt (scale 100 toy_original) (scale 100 toy_downsampled) toy_raptparams = Ok [2].
Proof.
  unfold rapt. cbn [fst scale toy_original toy_downsampled].
  rewrite py_div_ok by lra. cbn [bind]. unfold _run_nccf.
  replace (with_sample_rate_ratio toy_raptparams (16 / 8)) with toy_raptparams.
  - change (8%Z, map (Rmult 100) [1; -1; 0; 0; 1; -1]) with (scale 100 toy_downsampled).
    rewrite scale_first_pass by lra.
    rewrite toy_first_pass. cbn [bind]. 
    change (16%Z, map (Rmult 100) [1; -1; 1; -1; 0; 0; 0; 0; 1; -1; 1; -1; -100])
      with (scale 100 toy_original).
    rewrite loud_second_pass. cbn [bind].
    apply loud_estimate.
  - unfold with_sample_rate_ratio, toy_raptparams. cbn. f_equal. lra.
Qed.

(** C4, as stated, fails: with the default additive constant, the toy input
    yields 1 Hz and the same input a hundred times louder yields 2 Hz. *)
Lemma C4_louder_input_counterexample :
  rapt toy_original toy_downsampled toy_raptparams = Ok [1]
  /\ rapt (scale 100 toy_original) (scale 100 toy_downsampled) toy_raptparams = Ok [2]
  /\ 0 < 100.
Proof. split; [apply toy_rapt | split; [apply loud_rapt | lra]]. Qed.

(** C4 at the factor 100, with the toy options without the additive
    constant. *)
Lemma C4_plain_options_witness :
  _first_pass_nccf (scale 100 toy_downsampled) toy_raptparams_plain
  = _first_pass_nccf toy_downsampled toy_raptparams_plain
  /\ rapt (scale 100 toy_original) (scale 100 toy_downsampled) toy_raptparams_plain
     = rapt toy_original toy_downsampled toy_raptparams_plain.
Proof.
  destruct (C4_scale_invariance toy_original toy_downsampled toy_raptparams_plain 100)
    as [Hfirst Hall].
  - lra.
  - split; [exact Hfirst | apply Hall; reflexivity].
Defined.

(** ** The whole pipeline on silence *)

(** As soon as the first lag of the first frame lies inside a silent buffer,
    the first pass raises. *)
Lemma silence_first_pass (rate len : Z) (raptparam : Raptparams)
    (nccfparam : Nccfparams) :
  _get_nccf_params (silence rate len) raptparam true = Ok nccfparam ->
  (0 < max_frame_count nccfparam)%Z ->
  (0 < longest_lag_per_frame nccfparam - 1 - shortest_lag_per_frame nccfparam)%Z ->
  (0 < samples_correlated_per_lag nccfparam)%Z ->
  (0 <= shortest_lag_per_frame nccfparam)%Z ->
  past_end (silence rate len) 0 (shortest_lag_per_frame nccfparam)
    (raptparam, nccfparam) = false ->
  _first_pass_nccf (silence rate len) raptparam = Raise ZeroDivisionError.
Proof.
  intros Hgeo HM Hrange Hn Hkmin Hend.
  unfold _first_pass_nccf. rewrite Hgeo. cbn [bind].
  unfold frame_loop. rewrite xrange_cons by lia. cbn [for_each].
  unfold _get_firstpass_frame_results at 1.
  unfold _get_correlations_for_all_lags. rewrite xrange_cons by lia.
  cbn [for_each snd]. rewrite Z.add_0_l, Hend.
  rewrite silence_first_pass_correlation; try assumption; [reflexivity|].
  cbn [snd]. lia.
Qed.

(** C3, checked on the code: scenario S3 of the specification, one second of
    silence at 16 kHz with its 2 kHz first-pass buffer and the default
    options, ends in a division by zero, not in a list of zeros. *)
Theorem C3_silence_divides_by_zero :
  rapt (silence 16000 16000) (silence 2000 2000) default_raptparams
  = Raise ZeroDivisionError.
Proof.
  unfold rapt. cbn [fst silence].
  rewrite py_div_ok by lra. cbn [bind]. unfold _run_nccf.
  change (2000%Z, py_repeat 0 2000) with (silence 2000 2000).
  rewrite (silence_first_pass 2000 2000 _
             {| samples_correlated_per_lag := 15; shortest_lag_per_frame := 4;
                longest_lag_per_frame := 40; samples_per_frame := 20;
                max_frame_count := 99 |}).
  - reflexivity.
  - reflexivity.
  - reflexivity.
  - reflexivity.
  - reflexivity.
  - discriminate.
  - reflexivity.
Qed.

(** ** What the tracker returns, on every input *)

Lemma xrange_snoc (a b : Z) : (a <= b)%Z -> xrange a (b + 1) = xrange a b ++ [b].
Proof.
  intros H. unfold xrange.
  replace (Z.to_nat (b + 1 - a)) with (Z.to_nat (b - a) + 1)%nat by lia.
  rewrite seq_app, map_app. cbn [seq map]. do 2 f_equal. lia.
Qed.

(** The nodes of a frame carry the hypotheses of that frame, in order. *)
Lemma costs_per_frame_hypotheses (frame_idx : Z) (new_candidates : list (list node))
    (nccf_results : list (list hypothesis)) (params : Raptparams) (sample_rate : Z)
    (nodes : list node) :
  _calculate_costs_per_frame frame_idx new_candidates nccf_results params sample_rate
  = Ok nodes ->
  py_getitem nccf_results frame_idx = Ok (map snd nodes).
Proof.
  unfold _calculate_costs_per_frame.
  destruct (py_getitem nccf_results frame_idx) as [frame|]; cbn [bind]; [|discriminate].
  intros Hrun. f_equal.
  enough (H : forall l acc res,
             for_each
               (fun frame_candidates candidate =>
                  local_cost <-
                    _calculate_local_cost candidate
                      (_select_max_correlation_for_frame frame) params sample_rate ;;
                  best_cost <-
                    _get_best_cost candidate local_cost new_candidates params sample_rate ;;
                  Ok (frame_candidates ++ [(best_cost, candidate)])) l acc
             = Ok res ->
             map snd res = map snd acc ++ l).
  { symmetry. apply (H frame [] nodes Hrun). }
  induction l as [|h l IH]; intros acc res Hl; cbn [for_each] in Hl.
  - inversion Hl; subst. now rewrite app_nil_r.
  - destruct (_calculate_local_cost _ _ _ _) as [lc|]; cbn [bind] in Hl; [|discriminate].
    destruct (_get_best_cost _ _ _ _ _) as [bc|]; cbn [bind] in Hl; [|discriminate].
    rewrite (IH _ _ Hl), map_app, <- app_assoc. reflexivity.
Qed.

Lemma process_candidates_hypotheses (depth : nat) (frame_idx : Z)
    (nccf_results : list (list hypothesis)) (raptparam : Raptparams) (sample_rate : Z)
    (table : list (list node)) :
  process_candidates_from depth frame_idx nccf_results raptparam sample_rate = Ok table ->
  Forall2 (fun nodes i => py_getitem nccf_results i = Ok (map snd nodes))
    table (xrange (frame_idx - Z.of_nat depth) (frame_idx + 1)).
Proof.
  revert frame_idx table. induction depth as [|d IH]; intros frame_idx table Hrun;
    cbn [process_candidates_from] in Hrun.
  - cbn [bind] in Hrun.
    destruct (_calculate_costs_per_frame _ _ _ _ _) as [nodes|] eqn:Ec;
      cbn [bind] in Hrun; [|discriminate].
    inversion Hrun; subst. rewrite Z.sub_0_r, xrange_cons, xrange_nil by lia.
    repeat constructor. now apply costs_per_frame_hypotheses in Ec.
  - destruct (process_candidates_from d _ _ _ _) as [earlier|] eqn:Er;
      cbn [bind] in Hrun; [|discriminate].
    destruct (_calculate_costs_per_frame _ _ _ _ _) as [nodes|] eqn:Ec;
      cbn [bind] in Hrun; [|discriminate].
    inversion Hrun; subst. rewrite xrange_snoc by lia.
    apply Forall2_app.
    + apply IH in Er.
      replace (frame_idx - Z.of_nat (S d))%Z with (frame_idx - 1 - Z.of_nat d)%Z by lia.
      now replace (frame_idx - 1 + 1)%Z with frame_idx in Er by lia.
    + repeat constructor. now apply costs_per_frame_hypotheses in Ec.
Qed.

Lemma first_lags_of_table (frames : list (list hypothesis)) (table : list (list node))
    (start : Z) (lags : list Z) :
  (0 <= start)%Z ->
  Forall2 (fun nodes i => py_getitem frames i = Ok (map snd nodes))
    table (xrange start (py_len frames)) ->
  map_result first_lag table = Ok lags ->
  lags = map (fun frame => fst (hd unvoiced frame)) (skipn (Z.to_nat start) frames).
Proof.
  intros Hstart Hall. revert lags.
  remember (xrange start (py_len frames)) as indices eqn:Hind.
  revert start Hstart Hind.
  induction Hall as [|nodes i table indices Hnodes Hall IH];
    intros start Hstart Hind lags Hlags.
  - cbn in Hlags. inversion Hlags; subst.
    destruct (Z_lt_le_dec start (py_len frames)) as [Hlt|Hge].
    + rewrite xrange_cons in Hind by assumption. discriminate.
    + rewrite skipn_all2; [reflexivity | unfold py_len in Hge; lia].
  - destruct (Z_lt_le_dec start (py_len frames)) as [Hlt|Hge];
      [|rewrite xrange_nil in Hind by assumption; discriminate].
    rewrite xrange_cons in Hind by assumption. inversion Hind; subst i indices.
    cbn [map_result] in Hlags.
    destruct (first_lag nodes) as [lag|] eqn:Elag; cbn [bind] in Hlags; [|discriminate].
    destruct (map_result first_lag table) as [rest|] eqn:Erest; cbn [bind] in Hlags;
      [|discriminate].
    inversion Hlags; subst lags.
    rewrite (IH (start + 1)%Z ltac:(lia) eq_refl rest eq_refl).
    rewrite (py_getitem_ok frames start []) in Hnodes by lia.
    inversion Hnodes as [Hframe].
    assert (Hskip : skipn (Z.to_nat start) frames
                    = nth (Z.to_nat start) frames [] :: skipn (Z.to_nat (start + 1)) frames).
    { replace (Z.to_nat (start + 1)) with (S (Z.to_nat start)) by lia.
      assert (Hn : (Z.to_nat start < length frames)%nat) by (unfold py_len in Hlt; lia).
      clear - Hn. revert Hn. generalize (Z.to_nat start). intros n. revert n.
      induction frames as [|f frames IHf]; intros [|n] Hn; cbn in *; try lia;
        [reflexivity | apply IHf; lia]. }
    rewrite Hskip. cbn [map]. f_equal. rewrite Hframe.
    unfold first_lag in Elag. destruct nodes as [|first nodes]; [discriminate|].
    cbn in Elag. inversion Elag. reflexivity.
Qed.

(** Whatever the costs, the lag kept for a frame is the lag of the first
    hypothesis of its list: the voiced candidate of smallest lag, or the
    unvoiced entry when the frame has no candidate. *)
Lemma determine_state_returns_first_lags (nccf_results : list (list hypothesis))
    (raptparam : Raptparams) (sample_rate : Z) (lags : list Z) :
  _determine_state_per_frame nccf_results raptparam sample_rate = Ok lags ->
  lags = map (fun frame => fst (hd unvoiced frame)) (add_unvoiced nccf_results).
Proof.
  unfold _determine_state_per_frame, _process_candidates. cbv zeta.
  set (frames := add_unvoiced nccf_results).
  destruct (process_candidates_from _ _ _ _ _) as [table|] eqn:Et; cbn [bind];
    [|discriminate].
  intros Hlags. apply process_candidates_hypotheses in Et.
  destruct (Z_lt_le_dec 0 (py_len frames)) as [Hpos|Hzero].
  - rewrite Z2Nat.id in Et by lia.
    replace (py_len frames - 1 - (py_len frames - 1))%Z with 0%Z in Et by lia.
    replace (py_len frames - 1 + 1)%Z with (py_len frames) in Et by lia.
    apply (first_lags_of_table frames table 0 lags); auto. lia.
  - assert (Hnil : frames = []).
    { destruct frames; [reflexivity | unfold py_len in Hzero; cbn in Hzero; lia]. }
    rewrite Hnil in *. cbn in Et. inversion Et as [|? ? ? ? Hget _]. discriminate Hget.
Qed.

(** ** The tracker on two small inputs *)

(** The two descriptors of the transition costs, as the code stubs them. *)
Lemma spec_stationarity_value : _get_spec_stationarity = Ok 1.
Proof.
  unfold _get_spec_stationarity. rewrite py_div_ok by lra. f_equal.
  replace (1 - 0.8) with 0.2 by lra. apply Rinv_r. lra.
Qed.

(** [_get_best_cost] ignores the previous frame: whatever its nodes and
    their costs, the result is the local cost. *)
Lemma best_cost_is_local_cost (candidate : hypothesis) (local_cost : R)
    (candidate_list : list (list node)) (params : Raptparams) (sample_rate : Z)
    (cost : R) :
  _get_best_cost candidate local_cost candidate_list params sample_rate = Ok cost ->
  cost = local_cost + 0 \/ cost = 0.
Proof.
  unfold _get_best_cost.
  destruct candidate_list as [|frame rest]; [intros H; inversion H; now left|].
  destruct (py_getitem _ _) as [previous|]; cbn [bind]; [|discriminate].
  intros H. inversion H; subst. clear H.
  induction previous as [|prev previous IH] using rev_ind; cbn; [now right|].
  rewrite fold_left_app. cbn. now left.
Qed.

(** C1, checked on the code.  Two frames with the single candidate
    (10, 0.5), the default options, 16 kHz.  The node of the unvoiced
    hypothesis of frame 1 gets its local cost 0.5, while the recurrence of
    the specification gives 0.5 + min (c + 100.505, 0.5 + 0) = 1 with the
    unvoiced node of frame 0 as backpointer. *)
Theorem C1_transition_cost_not_added :
  let c := 1 - 1 / 2 * (1 - 0.3 / (16000 / 50) * 10) in
  let frame := [(c, (10%Z, 1 / 2)); (1 / 2, unvoiced)] in
  _process_candidates 1 (add_unvoiced [[(10%Z, 1 / 2)]; [(10%Z, 1 / 2)]])
    default_raptparams 16000
  = Ok [frame; frame]
  /\ Viterbi.step default_raptparams 1 1 frame (1 / 2) unvoiced = Some (1, 1%nat).
Proof.
  split.
  - reval. repeat (f_equal; try lra).
  - unfold Viterbi.step, Viterbi.argmin, Viterbi.through, Viterbi.delta.
    reval. repeat (f_equal; try lra).
Qed.

(** C2, checked on the code.  One frame with the candidates (10, 0.5) and
    (20, 0.9), the default options, 16 kHz.  The node of least cost is the
    one of lag 20, which the specification turns into 800 Hz; the code
    returns the lag of the first node of the frame, hence 1600 Hz. *)
Theorem C2_first_hypothesis_is_returned :
  let c10 := 1 - 1 / 2 * (1 - 0.3 / (16000 / 50) * 10) in
  let c20 := 1 - 9 / 10 * (1 - 0.3 / (16000 / 50) * 20) in
  let frame := [(c10, (10%Z, 1 / 2)); (c20, (20%Z, 9 / 10)); (9 / 10, unvoiced)] in
  _process_candidates 0 (add_unvoiced [[(10%Z, 1 / 2); (20%Z, 9 / 10)]])
    default_raptparams 16000
  = Ok [frame]
  /\ Viterbi.best_index frame = Some 1%nat
  /\ _get_freq_estimate [[(10%Z, 1 / 2); (20%Z, 9 / 10)]] default_raptparams 16000
     = Ok [1600].
Proof.
  repeat split.
  - reval. repeat (f_equal; try lra).
  - unfold Viterbi.best_index, Viterbi.argmin. reval. reflexivity.
  - reval. reflexivity.
Qed.

(** ** The second-pass scan *)

Lemma for_each_filter {A S : Type} (body : S -> A -> result S) (f : A -> bool)
    (l : list A) :
  (forall s x, In x l -> f x = false -> body s x = Ok s) ->
  forall s, for_each body l s = for_each body (filter f l) s.
Proof.
  induction l as [|x l IH]; intros H s; cbn [for_each filter]; [reflexivity|].
  destruct (f x) eqn:E; cbn [for_each].
  - destruct (body s x); cbn [bind]; [|reflexivity].
    apply IH. intros; apply H; auto. now right.
  - rewrite (H s x) by (auto; now left). cbn [bind].
    apply IH. intros; apply H; auto. now right.
Qed.

Lemma peak_ok_spec (lag_range p : Z) :
  peak_ok lag_range p = false <-> (p <= 3 \/ p >= lag_range - 3)%Z.
Proof. unfold peak_ok. lia. Qed.

Section SecondPassScan.

Variable a : audio.
Variable params : params_t.
Variables current_frame lag_range : Z.

Hypothesis window_pos : (0 < samples_correlated_per_lag (snd params))%Z.
Hypothesis start_nonneg : (0 <= current_frame * samples_per_frame (snd params))%Z.
Hypothesis constant_pos : 0 < additive_constant (fst params).

Lemma second_pass_correlation (k : Z) :
  (0 <= k)%Z -> past_end a current_frame k params = false ->
  _get_correlation a current_frame k params false = Ok (second_pass_theta a params current_frame k).
Proof.
  intros Hk Hend.
  rewrite (get_correlation_in_range a params current_frame k _ _ eq_refl eq_refl);
    try assumption.
  2:{ unfold past_end in Hend. apply Z.leb_gt in Hend. lia. }
  assert (Hpos : 0 < NCCF.radicand a (current_frame * samples_per_frame (snd params))
                       (samples_correlated_per_lag (snd params)) k
                       (additive_constant (fst params)) false).
  { unfold NCCF.radicand.
    pose proof (energy_nonneg a (current_frame * samples_per_frame (snd params))
                  (samples_correlated_per_lag (snd params)) 0) as H0.
    pose proof (energy_nonneg a (current_frame * samples_per_frame (snd params))
                  (samples_correlated_per_lag (snd params)) k) as H1.
    pose proof (Rmult_le_pos _ _ H0 H1). lra. }
  rewrite py_sqrt_ok by lra. cbn [bind].
  rewrite py_div_ok by (apply Rgt_not_eq, sqrt_lt_R0; exact Hpos).
  reflexivity.
Qed.

Lemma neighbour_body_total (st : lag_results_t) (k : Z) :
  (0 <= k < py_len (fst st))%Z ->
  exists st', neighbour_body a params current_frame st k = Ok st' /\ py_len (fst st') = py_len (fst st).
Proof.
  intros Hk. unfold neighbour_body.
  destruct (past_end a current_frame k params) eqn:Hend; [eauto|].
  rewrite second_pass_correlation by (assumption || lia). cbn [bind].
  rewrite store_correlation_ok by assumption.
  eexists. split; [reflexivity|]. cbn [fst].
  unfold py_len. now rewrite list_update_length.
Qed.

Lemma neighbour_body_stores (st st' : lag_results_t) (k : Z) :
  (0 <= k)%Z -> neighbour_body a params current_frame st k = Ok st' ->
  past_end a current_frame k params = false ->
  nth (Z.to_nat k) (fst st') 0 = second_pass_theta a params current_frame k.
Proof.
  intros Hk Hbody Hend. unfold neighbour_body in Hbody. rewrite Hend in Hbody.
  rewrite second_pass_correlation in Hbody by assumption. cbn [bind] in Hbody.
  apply store_correlation_inv in Hbody as (Hlen & -> & _); [|assumption].
  rewrite nth_list_update, Nat.eqb_refl.
  replace (Z.to_nat k <? length (fst st))%nat with true; [reflexivity|].
  symmetry. apply Nat.ltb_lt. unfold py_len in Hlen. lia.
Qed.

Lemma neighbour_body_keeps (st st' : lag_results_t) (j k : Z) :
  (0 <= j)%Z -> (0 <= k)%Z -> neighbour_body a params current_frame st j = Ok st' ->
  nth (Z.to_nat k) (fst st) 0 = second_pass_theta a params current_frame k ->
  nth (Z.to_nat k) (fst st') 0 = second_pass_theta a params current_frame k.
Proof.
  intros Hj Hk Hbody Hst. unfold neighbour_body in Hbody.
  destruct (past_end a current_frame j params) eqn:Hend;
    [now inversion Hbody; subst|].
  rewrite second_pass_correlation in Hbody by assumption. cbn [bind] in Hbody.
  apply store_correlation_inv in Hbody as (Hlen & -> & _); [|assumption].
  rewrite nth_list_update.
  destruct (Nat.eqb_spec (Z.to_nat k) (Z.to_nat j)) as [E|_]; [|exact Hst].
  assert (k = j) by lia. subst j.
  destruct (_ <? _)%nat; [reflexivity | exact Hst].
Qed.

Lemma neighbour_body_skips (st st' : lag_results_t) (j k : Z) :
  (0 <= j)%Z -> (0 <= k)%Z -> neighbour_body a params current_frame st j = Ok st' ->
  past_end a current_frame k params = true ->
  nth (Z.to_nat k) (fst st) 0 = 0 ->
  nth (Z.to_nat k) (fst st') 0 = 0.
Proof.
  intros Hj Hk Hbody Hend Hst. unfold neighbour_body in Hbody.
  destruct (past_end a current_frame j params) eqn:Hendj;
    [now inversion Hbody; subst|].
  rewrite second_pass_correlation in Hbody by assumption. cbn [bind] in Hbody.
  apply store_correlation_inv in Hbody as (Hlen & -> & _); [|assumption].
  rewrite nth_list_update.
  destruct (Nat.eqb_spec (Z.to_nat k) (Z.to_nat j)) as [E|_]; [|exact Hst].
  assert (k = j) by lia. subst j. congruence.
Qed.

Lemma peak_body_total (st : lag_results_t) (lag_val : hypothesis) :
  py_len (fst st) = Z.max 0 lag_range ->
  exists st', peak_body a params current_frame lag_range st lag_val = Ok st' /\ py_len (fst st') = Z.max 0 lag_range.
Proof.
  intros Hlen. unfold peak_body.
  destruct (peak_ok lag_range (fst lag_val)) eqn:Hok; [|eauto].
  unfold peak_ok in Hok.
  apply (for_each_invariant (neighbour_body a params current_frame)
           (fun st => py_len (fst st) = Z.max 0 lag_range)); [|assumption].
  intros s k Hk Hs. apply in_xrange in Hk.
  destruct (neighbour_body_total s k) as (s' & Hs' & Hl); [lia|].
  exists s'. split; [assumption | congruence].
Qed.

Lemma peak_body_keeps (st st' : lag_results_t) (lag_val : hypothesis) (k : Z) :
  (0 <= k)%Z -> peak_body a params current_frame lag_range st lag_val = Ok st' ->
  nth (Z.to_nat k) (fst st) 0 = second_pass_theta a params current_frame k ->
  nth (Z.to_nat k) (fst st') 0 = second_pass_theta a params current_frame k.
Proof.
  intros Hk Hbody Hst. unfold peak_body in Hbody.
  destruct (peak_ok lag_range (fst lag_val)) eqn:Hok; [|now inversion Hbody; subst].
  unfold peak_ok in Hok.
  apply (for_each_preserves (neighbour_body a params current_frame)
           (fun s => nth (Z.to_nat k) (fst s) 0 = second_pass_theta a params current_frame k)
           (xrange (fst lag_val - 3) (fst lag_val + 4))) with (s0 := st);
    try assumption.
  intros s j s' Hj Hs Hb. apply in_xrange in Hj.
  apply (neighbour_body_keeps s s' j k); auto. lia.
Qed.

Lemma peak_body_skips (st st' : lag_results_t) (lag_val : hypothesis) (k : Z) :
  (0 <= k)%Z -> peak_body a params current_frame lag_range st lag_val = Ok st' ->
  past_end a current_frame k params = true ->
  nth (Z.to_nat k) (fst st) 0 = 0 ->
  nth (Z.to_nat k) (fst st') 0 = 0.
Proof.
  intros Hk Hbody Hend Hst. unfold peak_body in Hbody.
  destruct (peak_ok lag_range (fst lag_val)) eqn:Hok; [|now inversion Hbody; subst].
  unfold peak_ok in Hok.
  apply (for_each_preserves (neighbour_body a params current_frame)
           (fun s => nth (Z.to_nat k) (fst s) 0 = 0)
           (xrange (fst lag_val - 3) (fst lag_val + 4))) with (s0 := st);
    try assumption.
  intros s j s' Hj Hs Hb. apply in_xrange in Hj.
  apply (neighbour_body_skips s s' j k); auto. lia.
Qed.

Lemma peak_body_stores (st st' : lag_results_t) (lag_val : hypothesis) (k : Z) :
  peak_body a params current_frame lag_range st lag_val = Ok st' ->
  peak_ok lag_range (fst lag_val) = true ->
  (fst lag_val - 3 <= k <= fst lag_val + 3)%Z ->
  past_end a current_frame k params = false ->
  nth (Z.to_nat k) (fst st') 0 = second_pass_theta a params current_frame k.
Proof.
  intros Hbody Hok Hk Hend. unfold peak_body in Hbody. rewrite Hok in Hbody.
  unfold peak_ok in Hok.
  apply (for_each_establishes (neighbour_body a params current_frame)
           (fun j s => past_end a current_frame j params = false ->
                       nth (Z.to_nat j) (fst s) 0 = second_pass_theta a params current_frame j)
           (xrange (fst lag_val - 3) (fst lag_val + 4)) ) with (s0 := st) (x := k);
    try assumption.
  - intros s j s' Hj Hb Hendj. apply in_xrange in Hj.
    apply (neighbour_body_stores s s' j); auto. lia.
  - intros s j s' i Hj Hb Hs Hendi. apply in_xrange in Hj.
    destruct (Z_lt_le_dec i 0) as [Hneg|Hi].
    + (* a negative lag reads index 0 of the list *)
      destruct i as [|i|i]; try lia.
      change (Z.to_nat (Z.neg i)) with O in *.
      change O with (Z.to_nat 0). unfold neighbour_body in Hb.
      destruct (past_end a current_frame j params) eqn:Hendj;
        [inversion Hb; subst; now apply Hs|].
      rewrite second_pass_correlation in Hb by (assumption || lia).
      cbn [bind] in Hb.
      apply store_correlation_inv in Hb as (Hlen & -> & _); [|lia].
      rewrite nth_list_update.
      destruct (Nat.eqb_spec (Z.to_nat 0) (Z.to_nat j)) as [E|_]; [lia|].
      now apply Hs.
    + apply (neighbour_body_keeps s s' j i); auto. lia.
  - apply in_xrange. lia.
Qed.

End SecondPassScan.

(** C5 (amended).  The refiner rejects a first-pass lag [p] exactly when
    [p <= 3] or [p >= ((K - 1) - k_min) - 3], that is [p >= (K - k_min) - 4]:
    a rejected lag leaves the scan as it was.  With a positive window, a
    frame that starts at a non-negative sample and for which the first pass
    has a list of peaks, and a positive additive constant, the scan returns,
    and for every accepted [p] and every integer [k] of [[p - 3, p + 3]] the
    value stored for [k] is the second-pass NCCF of the original-rate buffer,
    as the correlator returns it, when the window at lag [k] lies inside the
    buffer, and is left at 0 when it runs past the end. *)
Theorem C5_second_pass_neighbourhood
    (a : audio) (raptparam : Raptparams) (nccfparam : Nccfparams)
    (current_frame : Z) (first_pass : list (list hypothesis))
    (peaks : list hypothesis) :
  let params := (raptparam, nccfparam) in
  let lag_range :=
    (longest_lag_per_frame nccfparam - 1 - shortest_lag_per_frame nccfparam)%Z in
  (0 < samples_correlated_per_lag nccfparam)%Z ->
  (0 <= current_frame * samples_per_frame nccfparam)%Z ->
  0 < additive_constant raptparam ->
  py_getitem first_pass current_frame = Ok peaks ->
  (forall p,
      peak_ok lag_range p = false <->
      (p <= 3 \/
       p >= (longest_lag_per_frame nccfparam - shortest_lag_per_frame nccfparam) - 4)%Z)
  /\ _get_correlations_for_input_lags a current_frame first_pass lag_range params
     = _get_correlations_for_input_lags a current_frame
         (map (filter (fun h : hypothesis => peak_ok lag_range (fst h))) first_pass)
         lag_range params
  /\ exists candidates max_correlation_val,
       _get_correlations_for_input_lags a current_frame first_pass lag_range params
       = Ok (candidates, max_correlation_val)
       /\ forall p v k,
            In (p, v) peaks -> peak_ok lag_range p = true ->
            (p - 3 <= k <= p + 3)%Z ->
            if past_end a current_frame k params
            then nth (Z.to_nat k) candidates 0 = 0
            else _get_correlation a current_frame k params false
                 = Ok (nth (Z.to_nat k) candidates 0)
                 /\ nth (Z.to_nat k) candidates 0
                    = NCCF.theta a (current_frame * samples_per_frame nccfparam)
                        (samples_correlated_per_lag nccfparam) k
                        (additive_constant raptparam) false.
Proof.
  intros params lag_range Hn Hm HC Hpeaks. split; [|split].
  - intros p. rewrite peak_ok_spec. subst lag_range. lia.
  - unfold _get_correlations_for_input_lags. cbv zeta.
    rewrite py_getitem_map, Hpeaks. cbn [bind].
    apply for_each_filter. intros s x _ Hx. now rewrite Hx.
  - unfold _get_correlations_for_input_lags. cbv zeta. rewrite Hpeaks. cbn [bind].
    change (for_each _ peaks ?init)
      with (for_each (peak_body a params current_frame lag_range) peaks init).
    destruct (for_each_invariant (peak_body a params current_frame lag_range)
                (fun st => py_len (fst st) = Z.max 0 lag_range) peaks)
      with (s := (py_repeat 0 lag_range, 0)) as ([candidates mx] & Hrun & Hlen).
    { intros s x _ Hs. now apply peak_body_total. }
    { apply py_repeat_length. }
    exists candidates, mx. split; [exact Hrun|].
    intros p v k Hin Hok Hk.
    assert (Hk0 : (0 <= k)%Z) by (unfold peak_ok in Hok; lia).
    destruct (past_end a current_frame k params) eqn:Hend.
    + change (nth (Z.to_nat k) (fst (candidates, mx)) 0 = 0).
      apply (for_each_preserves (peak_body a params current_frame lag_range)
               (fun st => nth (Z.to_nat k) (fst st) 0 = 0) peaks)
        with (s0 := (py_repeat 0 lag_range, 0)); [| apply nth_py_repeat_zero | exact Hrun].
      intros s x s' _ Hs Hb.
      apply (peak_body_skips a params current_frame lag_range Hn Hm HC s s' x k); auto.
    + assert (Hval : nth (Z.to_nat k) (fst (candidates, mx)) 0
                     = second_pass_theta a params current_frame k).
      { apply (for_each_establishes (peak_body a params current_frame lag_range)
                 (fun (x : hypothesis) st =>
                    peak_ok lag_range (fst x) = true ->
                    forall j, (fst x - 3 <= j <= fst x + 3)%Z ->
                      past_end a current_frame j params = false ->
                      nth (Z.to_nat j) (fst st) 0
                      = second_pass_theta a params current_frame j) peaks)
          with (s0 := (py_repeat 0 lag_range, 0)) (x := (p, v)); auto.
        - intros s x s' _ Hb Hokx j Hj Hendj.
          apply (peak_body_stores a params current_frame lag_range Hn Hm HC s s' x j);
            auto.
        - intros s y s' x _ Hb Hs Hokx j Hj Hendj.
          apply (peak_body_keeps a params current_frame lag_range Hn Hm HC s s' y j);
            auto.
          unfold peak_ok in Hokx. lia. }
      cbn [fst] in Hval. split; [|exact Hval].
      rewrite Hval. now apply second_pass_correlation.
Qed.

(** C5 on frame 0 of the toy original-rate buffer, with the first-pass
    peak 11. *)
Lemma C5_toy_frame_witness :
  (forall p,
      peak_ok 15 p = false <-> (p <= 3 \/ p >= 16 - 0 - 4)%Z)
  /\ _get_correlations_for_input_lags toy_original 0 [[(11%Z, 1)]] 15
       (toy_raptparams, toy_second_geometry)
     = _get_correlations_for_input_lags toy_original 0
         (map (filter (fun h : hypothesis => peak_ok 15 (fst h))) [[(11%Z, 1)]]) 15
         (toy_raptparams, toy_second_geometry)
  /\ exists candidates max_correlation_val,
       _get_correlations_for_input_lags toy_original 0 [[(11%Z, 1)]] 15
         (toy_raptparams, toy_second_geometry)
       = Ok (candidates, max_correlation_val)
       /\ forall p v k,
            In (p, v) [(11%Z, 1)] -> peak_ok 15 p = true ->
            (p - 3 <= k <= p + 3)%Z ->
            if past_end toy_original 0 k (toy_raptparams, toy_second_geometry)
            then nth (Z.to_nat k) candidates 0 = 0
            else _get_correlation toy_original 0 k
                   (toy_raptparams, toy_second_geometry) false
                 = Ok (nth (Z.to_nat k) candidates 0)
                 /\ nth (Z.to_nat k) candidates 0
                    = NCCF.theta toy_original 0 4 k 10000 false.
Proof.
  apply (C5_second_pass_neighbourhood toy_original toy_raptparams toy_second_geometry
           0 [[(11%Z, 1)]] [(11%Z, 1)]).
  - reflexivity.
  - discriminate.
  - cbn. lra.
  - reflexivity.
Defined.

(** C5, as stated, fails at the upper bound: with [K = 16] and [k_min = 0]
    the lag 12 is below [(K - k_min) - 3 = 13], but it is rejected, and no
    correlation is computed around it. *)
Lemma C5_upper_bound_counterexample :
  ~ (12 <= 3 \/ 12 >= (16 - 0) - 3)%Z
  /\ peak_ok (16 - 1 - 0) 12 = false
  /\ _get_correlations_for_input_lags toy_original 0 [[(12%Z, 1)]] (16 - 1 - 0)
       (toy_raptparams, toy_second_geometry)
     = Ok (py_repeat 0 15, 0).
Proof.
  split; [lia|]. split; reflexivity.
Qed.

(** ** Order and size of the candidates of a frame *)

Lemma strongly_sorted_filter {A : Type} (R : A -> A -> Prop) (f : A -> bool)
    (l : list A) :
  StronglySorted R l -> StronglySorted R (filter f l).
Proof.
  induction 1 as [|x l Hl IH Hx]; cbn; [constructor|].
  destruct (f x); [|assumption].
  constructor; [assumption|].
  apply Forall_forall. intros y Hy. apply filter_In in Hy as [Hy _].
  revert y Hy. now apply Forall_forall.
Qed.

Lemma strongly_sorted_map {A B : Type} (R : A -> A -> Prop) (S : B -> B -> Prop)
    (g : A -> B) (l : list A) :
  (forall x y, R x y -> S (g x) (g y)) ->
  StronglySorted R l -> StronglySorted S (map g l).
Proof.
  intros Hg. induction 1 as [|x l Hl IH Hx]; cbn; constructor; [assumption|].
  apply Forall_forall. intros y Hy. apply in_map_iff in Hy as (z & <- & Hz).
  apply Hg. revert z Hz. now apply Forall_forall.
Qed.

(** The indices of an enumeration increase. *)
Lemma enumerate_from_sorted {A : Type} (l : list A) (start : nat) :
  StronglySorted (fun x y : Z * A => (fst x < fst y)%Z)
    (combine (map Z.of_nat (seq start (length l))) l).
Proof.
  revert start. induction l as [|v l IH]; intros start; cbn [length seq map combine];
    constructor; [apply IH|].
  apply Forall_forall. intros [k w] Hk. cbn [fst].
  apply (enumerate_from_in l (S start) k w w) in Hk. lia.
Qed.

Lemma marked_second_pass_sorted (lag_results : lag_results_t) (params : params_t)
    (marked : list hypothesis) :
  marked_candidates lag_results params false = Ok marked ->
  StronglySorted Z.lt (map fst marked).
Proof.
  rewrite marked_second_pass. intros H. inversion H; subst. clear H.
  rewrite map_map.
  apply (strongly_sorted_map (fun x y : Z * R => (fst x < fst y)%Z)).
  - intros x y Hxy. unfold second_pass_candidate. cbn [fst]. lia.
  - apply strongly_sorted_filter. apply (enumerate_from_sorted (fst lag_results) 0).
Qed.

(** *** The two sorts *)

Lemma insert_by_corr_desc_perm (x : hypothesis) (l : list hypothesis) :
  Permutation (insert_by_corr_desc x l) (x :: l).
Proof.
  induction l as [|y l IH]; cbn; [reflexivity|].
  destruct (Rgeb (snd x) (snd y)); [reflexivity|].
  rewrite IH. apply perm_swap.
Qed.

Lemma sort_by_corr_desc_perm (l : list hypothesis) :
  Permutation (sort_by_corr_desc l) l.
Proof.
  induction l as [|x l IH]; cbn; [reflexivity|].
  rewrite insert_by_corr_desc_perm. now constructor.
Qed.

Lemma insert_by_lag_perm (x : hypothesis) (l : list hypothesis) :
  Permutation (insert_by_lag x l) (x :: l).
Proof.
  induction l as [|y l IH]; cbn; [reflexivity|].
  destruct (fst x <=? fst y)%Z; [reflexivity|].
  rewrite IH. apply perm_swap.
Qed.

Lemma sort_by_lag_perm (l : list hypothesis) : Permutation (sort_by_lag l) l.
Proof.
  induction l as [|x l IH]; cbn; [reflexivity|].
  rewrite insert_by_lag_perm. now constructor.
Qed.

Lemma insert_by_lag_sorted (x : hypothesis) (l : list hypothesis) :
  StronglySorted Z.le (map fst l) -> StronglySorted Z.le (map fst (insert_by_lag x l)).
Proof.
  induction l as [|y l IH]; intros Hl; cbn [insert_by_lag map].
  - repeat constructor.
  - inversion Hl as [|? ? Hl' Hy]; subst.
    destruct (Z.leb_spec (fst x) (fst y)) as [Hxy|Hxy]; cbn [map].
    + constructor; [assumption|]. constructor; [assumption|].
      eapply Forall_impl; [|exact Hy]. intros z Hz. cbn beta in Hz. lia.
    + constructor; [now apply IH|].
      apply Forall_forall. intros z Hz.
      apply in_map_iff in Hz as (h & <- & Hh).
      apply (Permutation_in _ (insert_by_lag_perm x l)) in Hh.
      destruct Hh as [<-|Hh]; [lia|].
      rewrite Forall_forall in Hy. apply Hy. now apply in_map.
Qed.

Lemma sort_by_lag_sorted (l : list hypothesis) :
  StronglySorted Z.le (map fst (sort_by_lag l)).
Proof.
  induction l as [|x l IH]; cbn; [constructor|]. now apply insert_by_lag_sorted.
Qed.

(** An ascending list without repetition ascends strictly. *)
Lemma sorted_nodup_strict (l : list Z) :
  StronglySorted Z.le l -> NoDup l -> StronglySorted Z.lt l.
Proof.
  induction 1 as [|x l Hl IH Hx]; intros Hnd; [constructor|].
  inversion Hnd as [|? ? Hnotin Hnd']; subst.
  constructor; [now apply IH|].
  apply Forall_forall. intros y Hy.
  rewrite Forall_forall in Hx. specialize (Hx y Hy).
  assert (x <> y) by (intros ->; contradiction). lia.
Qed.

Lemma strict_sorted_nodup (l : list Z) : StronglySorted Z.lt l -> NoDup l.
Proof.
  induction 1 as [|x l Hl IH Hx]; constructor; [|assumption].
  intros Hin. rewrite Forall_forall in Hx. specialize (Hx x Hin). lia.
Qed.

Lemma in_firstn {A : Type} (n : nat) (l : list A) (x : A) :
  In x (firstn n l) -> In x l.
Proof.
  revert n. induction l as [|y l IH]; intros [|n]; cbn; try tauto.
  intros [H|H]; [now left | right; eauto].
Qed.

Lemma nodup_firstn {A : Type} (n : nat) (l : list A) : NoDup l -> NoDup (firstn n l).
Proof.
  revert n. induction l as [|x l IH]; intros [|n] H; cbn; try constructor.
  - inversion H; subst. intros Hin. apply in_firstn in Hin. contradiction.
  - inversion H; subst. now apply IH.
Qed.

Lemma py_slice_prefix {A : Type} (l : list A) (k : Z) :
  (0 <= k)%Z -> py_slice l 0 k = firstn (Z.to_nat k) l.
Proof.
  intros Hk. unfold py_slice, slice_bound.
  change (0 <? 0)%Z with false. replace (k <? 0)%Z with false by lia.
  assert (Hlen : (0 <= py_len l)%Z) by (unfold py_len; lia).
  rewrite (Z.min_l 0) by assumption.
  cbn [Z.to_nat skipn]. rewrite Z.sub_0_r.
  destruct (Z.le_ge_cases k (py_len l)) as [H|H].
  - now rewrite Z.min_l by assumption.
  - rewrite Z.min_r by lia. unfold py_len in *. rewrite Nat2Z.id.
    rewrite !firstn_all2; auto; lia.
Qed.

(** The cap keeps an ascending list of distinct lags ascending, and leaves
    at most [max_hypotheses_per_frame - 1] candidates. *)
Lemma cap_candidates_sorted (candidates : list hypothesis) (params : params_t) :
  (1 <= max_hypotheses_per_frame (fst params))%Z ->
  StronglySorted Z.lt (map fst candidates) ->
  StronglySorted Z.lt (map fst (cap_candidates candidates params))
  /\ (py_len (cap_candidates candidates params)
      <= max_hypotheses_per_frame (fst params) - 1)%Z.
Proof.
  intros Hmax Hsorted. unfold cap_candidates. cbv zeta.
  destruct (Z.ltb_spec (max_hypotheses_per_frame (fst params) - 1) (py_len candidates))
    as [Hcap|Hcap]; [|split; [assumption | lia]].
  rewrite py_slice_prefix by lia.
  set (kept := firstn _ (sort_by_corr_desc candidates)).
  assert (Hnd : NoDup (map fst kept)).
  { subst kept. rewrite <- firstn_map. apply nodup_firstn.
    apply (Permutation_NoDup (l := map fst candidates)).
    - apply Permutation_map. symmetry. apply sort_by_corr_desc_perm.
    - now apply strict_sorted_nodup. }
  split.
  - apply sorted_nodup_strict; [apply sort_by_lag_sorted|].
    apply (Permutation_NoDup (l := map fst kept)); [|assumption].
    apply Permutation_map. symmetry. apply sort_by_lag_perm.
  - unfold py_len. rewrite (Permutation_length (sort_by_lag_perm kept)).
    subst kept. rewrite length_firstn. lia.
Qed.

Lemma frame_loop_forall (max_frame_count : Z) (f : Z -> result (list hypothesis))
    (P : list hypothesis -> Prop) (results : list (list hypothesis)) :
  (forall i r, f i = Ok r -> P r) ->
  frame_loop max_frame_count f = Ok results ->
  Forall P results /\ length results = Z.to_nat max_frame_count.
Proof.
  intros Hf. unfold frame_loop.
  enough (H : forall l acc res,
             for_each (fun candidates i => r <- f i ;; Ok (candidates ++ [r])) l acc
             = Ok res ->
             Forall P acc -> Forall P res /\ length res = (length acc + length l)%nat).
  { intros Hrun. destruct (H _ _ _ Hrun (Forall_nil P)) as [H1 H2].
    split; [assumption|]. rewrite H2, xrange_length. cbn. lia. }
  induction l as [|i l IH]; intros acc res Hrun Hacc; cbn in Hrun.
  - inversion Hrun; subst. split; [assumption | cbn; lia].
  - destruct (f i) as [r|] eqn:Ei; cbn in Hrun; [|discriminate].
    destruct (IH _ _ Hrun) as [H1 H2].
    + apply Forall_app. split; [assumption|]. constructor; [|constructor].
      now apply (Hf i).
    + split; [assumption|]. rewrite H2, length_app. cbn. lia.
Qed.

(** C9 (amended).  For every frame, the list handed to the tracker is the
    list of the voiced candidates of the second pass, at most
    [max_hypotheses_per_frame - 1] of them, in strictly ascending order of lag,
    followed by the unvoiced entry (0, 0.0), appended once at its end; it has
    at most [max_hypotheses_per_frame] entries. *)
Theorem C9_frame_hypotheses
    (original_audio : audio) (first_pass : list (list hypothesis))
    (raptparam : Raptparams) (nccf_results : list (list hypothesis)) :
  (1 <= max_hypotheses_per_frame raptparam)%Z ->
  _second_pass_nccf original_audio first_pass raptparam = Ok nccf_results ->
  length (add_unvoiced nccf_results) = length nccf_results
  /\ Forall
       (fun frame =>
          exists voiced,
            frame = voiced ++ [unvoiced]
            /\ StronglySorted Z.lt (map fst voiced)
            /\ (py_len voiced <= max_hypotheses_per_frame raptparam - 1)%Z
            /\ (py_len frame <= max_hypotheses_per_frame raptparam)%Z)
       (add_unvoiced nccf_results).
Proof.
  intros Hmax Hrun. split; [apply length_map|].
  unfold _second_pass_nccf in Hrun.
  destruct (_get_nccf_params original_audio raptparam false) as [nccfparam|];
    cbn [bind] in Hrun; [|discriminate].
  apply frame_loop_forall
    with (P := fun voiced =>
                 StronglySorted Z.lt (map fst voiced)
                 /\ (py_len voiced <= max_hypotheses_per_frame raptparam - 1)%Z)
    in Hrun as [Hall _].
  - unfold add_unvoiced. apply Forall_map.
    eapply Forall_impl; [|exact Hall]. intros voiced [Hs Hl].
    exists voiced. repeat split; try assumption.
    unfold py_len in *. rewrite length_app. cbn [length].
    unfold hypothesis in *. lia.
  - intros i r. unfold _get_secondpass_frame_results, _get_marked_results.
    destruct (_get_correlations_for_input_lags _ _ _ _ _) as [lag_results|];
      cbn [bind]; [|discriminate].
    destruct (marked_candidates lag_results _ false) as [marked|] eqn:Em;
      cbn [bind]; [|discriminate].
    intros H. inversion H; subst.
    apply (cap_candidates_sorted marked (raptparam, nccfparam)); [assumption|].
    now apply (marked_second_pass_sorted lag_results (raptparam, nccfparam)).
Qed.

(** C9 on the second pass of the toy input, whose single frame holds the
    candidate of lag 9. *)
Lemma C9_toy_frame_witness :
  length (add_unvoiced [[(9%Z, 97 / sqrt 50012)]]) = length [[(9%Z, 97 / sqrt 50012)]]
  /\ Forall
       (fun frame =>
          exists voiced,
            frame = voiced ++ [unvoiced]
            /\ StronglySorted Z.lt (map fst voiced)
            /\ (py_len voiced <= max_hypotheses_per_frame toy_raptparams - 1)%Z
            /\ (py_len frame <= max_hypotheses_per_frame toy_raptparams)%Z)
       (add_unvoiced [[(9%Z, 97 / sqrt 50012)]]).
Proof.
  apply (C9_frame_hypotheses toy_original [[(11%Z, 1)]] toy_raptparams).
  - discriminate.
  - exact toy_second_pass.
Defined.

(** A frame whose only first-pass peak is rejected: every lag keeps the
    correlation 0, the threshold is 0, and all fifteen lags are marked. *)
Lemma rejected_peak_second_pass :
  _second_pass_nccf toy_original [[(12%Z, 1)]] toy_raptparams
  = Ok [[(0%Z, 0); (1%Z, 0); (2%Z, 0); (3%Z, 0); (4%Z, 0); (5%Z, 0); (6%Z, 0);
         (7%Z, 0); (8%Z, 0); (9%Z, 0); (10%Z, 0); (11%Z, 0); (12%Z, 0);
         (13%Z, 0); (14%Z, 0)]].
Proof.
  unfold _second_pass_nccf.
  replace (_get_nccf_params toy_original toy_raptparams false)
    with (Ok toy_second_geometry) by reflexivity.
  cbn [bind]. unfold frame_loop.
  change (xrange 0 (max_frame_count toy_second_geometry)) with [0%Z].
  cbn [for_each].
  change (longest_lag_per_frame toy_second_geometry - 1
          - shortest_lag_per_frame toy_second_geometry)%Z with 15%Z.
  unfold _get_secondpass_frame_results, _get_marked_results.
  replace (_get_correlations_for_input_lags toy_original 0 [[(12%Z, 1)]] 15
             (toy_raptparams, toy_second_geometry))
    with (Ok (py_repeat 0 15, 0) : result lag_results_t) by reflexivity.
  cbn [bind]. rewrite marked_second_pass. cbn [bind].
  change (py_repeat 0 15) with [0; 0; 0; 0; 0; 0; 0; 0; 0; 0; 0; 0; 0; 0; 0].
  threshold_filter. cbn [map]. unfold second_pass_candidate, cap_candidates.
  rcompute. reflexivity.
Qed.

(** C9, as stated, fails.  On the frame above, the list handed to the
    tracker ends with the lags 14 and 0, so it is not in ascending order of
    lag, and it holds (0, 0.0) twice: as the candidate of lag 0 and as the
    unvoiced entry. *)
Lemma C9_unvoiced_entry_counterexample :
  exists voiced frame,
    _second_pass_nccf toy_original [[(12%Z, 1)]] toy_raptparams = Ok [voiced]
    /\ add_unvoiced [voiced] = [frame]
    /\ ~ StronglySorted Z.le (map fst frame)
    /\ nth_error frame 0 = Some unvoiced
    /\ nth_error frame 15 = Some unvoiced.
Proof.
  eexists. eexists. split; [apply rejected_peak_second_pass|].
  split; [reflexivity|]. split; [|split; reflexivity].
  cbn [map fst app]. intros Hsorted.
  inversion Hsorted as [|? ? Htail _]; subst.
  inversion Htail as [|? ? _ Hall]; subst.
  rewrite Forall_forall in Hall.
  assert (H : (1 <= 0)%Z) by (apply Hall; cbn; tauto).
  lia.
Qed.

(** ** A frame whose correlations are all negative *)







(** ** A degenerate parabola *)

(** On a list of at least three correlations, a degenerate parabola makes
    [_get_peak_lag_val] raise; it never falls back to the integer lag. *)
Lemma degenerate_parabola_raises (lag_results : list R) (lag_index : Z)
    (params : params_t) :
  (3 <= py_len lag_results)%Z ->
  (0 <= lag_index < py_len lag_results)%Z ->
  let j := peak_window_start (py_len lag_results) lag_index in
  parabola_a (nth (Z.to_nat j) lag_results 0) (nth (Z.to_nat (j + 1)) lag_results 0)
    (nth (Z.to_nat (j + 2)) lag_results 0) = 0 ->
  exists e, _get_peak_lag_val lag_results lag_index params = Raise e
            /\ (e = ValueError \/ e = OverflowError).
Proof.
  intros Hlen Hidx j Ha.
  rewrite peak_lag_val_equation by assumption. fold j. rewrite Ha.
  rewrite Reqb_true by reflexivity.
  destruct (Reqb _ 0 || Reqb _ 0); eauto.
Qed.

Lemma toy_flat_correlation :
  _get_correlation toy_flat 0 4 (toy_raptparams, toy_flat_geometry) true = Ok (-1).
Proof.
  rewrite (get_correlation_in_range _ _ _ _ 2 0) by zdecide.
  replace (NCCF.radicand _ _ _ _ _ _) with 4 by (rcompute; field).
  replace (NCCF.numerator _ _ _ _) with (-2) by (rcompute; field).
  rewrite py_sqrt_ok by lra. cbn [bind].
  rewrite (sqrt_of_square 4 2) by lra.
  rewrite py_div_ok by lra. f_equal. lra.
Qed.

Lemma toy_flat_scan :
  _get_correlations_for_all_lags toy_flat 0 4 (toy_raptparams, toy_flat_geometry)
  = Ok ([-1; 0; 0; 0], 0).
Proof.
  rcompute. rstep toy_flat_correlation. rdecide. reflexivity.
Qed.

Lemma toy_flat_first_peak :
  _get_peak_lag_val [-1; 0; 0; 0] 1 (toy_raptparams, toy_flat_geometry)
  = Ok (11%Z, 0).
Proof.
  rewrite peak_lag_val_equation by zdecide. rcompute.
  rewrite Reqb_false by lra.
  match goal with
  | |- context [py_round ?e] => replace e with 11 by field
  end.
  rewrite (py_round_nonneg 11 11) by lra.
  rewrite (py_int_nonneg 11 11) by lra. reflexivity.
Qed.

Lemma toy_flat_second_peak :
  _get_peak_lag_val [-1; 0; 0; 0] 2 (toy_raptparams, toy_flat_geometry)
  = Raise ValueError.
Proof.
  rewrite peak_lag_val_equation by zdecide. rcompute.
  rewrite (Reqb_true ((0 - 2 * 0 + 0) / 2) 0) by lra.
  rewrite (Reqb_true (0 - 0 - (0 - 2 * 0 + 0) / 2 * (2 * 5 + 1)) 0) by lra.
  reflexivity.
Qed.




(** C8, checked on the code.  Six samples at 9 Hz: the only lag inside the
    buffer has a negative correlation, so the three skipped lags are marked
    with their value 0.  Around lag index 2 the three correlations are 0,
    the parabola is degenerate, and the first pass ends in the error that
    [int] raises on a [nan]; no candidate of integer lag is produced. *)
Theorem C8_degenerate_parabola_is_not_caught :
  _get_correlations_for_all_lags toy_flat 0 4 (toy_raptparams, toy_flat_geometry)
  = Ok ([-1; 0; 0; 0], 0)
  /\ parabola_a 0 0 0 = 0
  /\ _get_peak_lag_val [-1; 0; 0; 0] 2 (toy_raptparams, toy_flat_geometry)
     = Raise ValueError
  /\ _first_pass_nccf toy_flat toy_raptparams = Raise ValueError.
Proof.
  split; [exact toy_flat_scan|]. split; [unfold parabola_a; lra|].
  split; [exact toy_flat_second_peak|].
  unfold _first_pass_nccf.
  replace (_get_nccf_params toy_flat toy_raptparams true)
    with (Ok toy_flat_geometry) by reflexivity.
  cbn [bind]. unfold frame_loop.
  change (xrange 0 (max_frame_count toy_flat_geometry)) with [0%Z].
  cbn [for_each].
  change (longest_lag_per_frame toy_flat_geometry - 1
          - shortest_lag_per_frame toy_flat_geometry)%Z with 4%Z.
  unfold _get_firstpass_frame_results, _get_marked_results.
  rewrite toy_flat_scan. cbn [bind]. rewrite marked_first_pass.
  threshold_filter. cbn [map_result fst].
  rewrite toy_flat_first_peak. cbn [bind].
  rewrite toy_flat_second_peak. reflexivity.
Qed.

(** * Further properties of the code *)

(** ** The downsampling rate *)

Lemma py_round_IZR (z : Z) : py_round (IZR z) = IZR z.
Proof.
  unfold py_round. destruct (Z_lt_le_dec z 0) as [Hneg|Hpos].
  - rewrite Rgeb_false by (apply IZR_lt in Hneg; lra).
    rewrite (Int_part_between _ (- z)); [rewrite opp_IZR; lra|].
    rewrite opp_IZR. lra.
  - rewrite Rgeb_true by (apply IZR_le in Hpos; lra).
    rewrite (Int_part_between _ z); [reflexivity | lra].
Qed.

Lemma py_int_quotient (a q : Z) :
  (0 <= a)%Z -> (0 < q)%Z -> py_int (IZR a / IZR q) = (a / q)%Z.
Proof.
  intros Ha Hq.
  assert (Hq' : 0 < IZR q) by now apply IZR_lt.
  pose proof (Z.div_mod a q ltac:(lia)) as Hdiv.
  pose proof (Z.mod_pos_bound a q Hq) as Hmod.
  assert (Hlow : IZR (a / q) <= IZR a / IZR q).
  { apply Rmult_le_reg_r with (IZR q); [assumption|].
    unfold Rdiv. rewrite Rmult_assoc, Rinv_l, Rmult_1_r by lra.
    rewrite <- mult_IZR. apply IZR_le. nia. }
  assert (Hhigh : IZR a / IZR q < IZR (a / q) + 1).
  { apply Rmult_lt_reg_r with (IZR q); [assumption|].
    unfold Rdiv. rewrite Rmult_assoc, Rinv_l, Rmult_1_r by lra.
    replace ((IZR (a / q) + 1) * IZR q) with (IZR ((a / q + 1) * q))
      by (rewrite mult_IZR, plus_IZR; reflexivity).
    apply IZR_lt. nia. }
  apply py_int_nonneg; [|lra].
  assert (0 <= IZR (a / q)) by (apply IZR_le; apply Z.div_pos; lia). lra.
Qed.

Lemma downsampling_rate_refused (initial_sampling_rate maximum_f0 : Z) :
  (0 < maximum_f0)%Z -> (0 <= initial_sampling_rate < 4 * maximum_f0)%Z ->
  _calculate_downsampling_rate initial_sampling_rate maximum_f0 = Raise ValueError.
Proof.
  intros Hf Hr. unfold _calculate_downsampling_rate, py_floordiv.
  replace (4 * maximum_f0 =? 0)%Z with false by lia. cbn [bind].
  rewrite py_round_IZR, Z.div_small by lia. now rewrite py_div_zero.
Qed.

Lemma downsampling_rate_quotient (initial_sampling_rate maximum_f0 : Z) :
  (0 < maximum_f0)%Z -> (4 * maximum_f0 <= initial_sampling_rate)%Z ->
  _calculate_downsampling_rate initial_sampling_rate maximum_f0
  = Ok (initial_sampling_rate / (initial_sampling_rate / (4 * maximum_f0)))%Z.
Proof.
  intros Hf Hr. unfold _calculate_downsampling_rate, py_floordiv.
  replace (4 * maximum_f0 =? 0)%Z with false by lia. cbn [bind].
  rewrite py_round_IZR.
  assert (Hq : (1 <= initial_sampling_rate / (4 * maximum_f0))%Z)
    by (apply Z.div_le_lower_bound; lia).
  rewrite py_div_ok by (apply not_0_IZR; lia).
  now rewrite py_int_quotient by lia.
Qed.

Lemma quotient_by_quotient_bounds (r f : Z) :
  (0 < f)%Z -> (4 * f <= r)%Z ->
  (4 * f <= r / (r / (4 * f)) < 8 * f)%Z /\ (r / (r / (4 * f)) <= r)%Z.
Proof.
  intros Hf Hr.
  assert (Hq : (1 <= r / (4 * f))%Z) by (apply Z.div_le_lower_bound; lia).
  pose proof (Z.div_mod r (4 * f) ltac:(lia)) as Hd.
  pose proof (Z.mod_pos_bound r (4 * f) ltac:(lia)) as Hm.
  set (q := (r / (4 * f))%Z) in *.
  pose proof (Z.div_mod r q ltac:(lia)) as Hd'.
  pose proof (Z.mod_pos_bound r q ltac:(lia)) as Hm'.
  set (d := (r / q)%Z) in *.
  split; [split|]; nia.
Qed.

(** X1.  For a positive pitch bound and a non-negative sampling rate, the
    downsampling rate is refused with a [ValueError] exactly when the
    sampling rate is below four times the bound; otherwise it is the
    quotient of the rate by [rate / (4 * bound)], it is at least four times
    the bound, below eight times the bound, and at most the rate. *)
Theorem downsampling_rate_range (initial_sampling_rate maximum_f0 : Z) :
  (0 < maximum_f0)%Z -> (0 <= initial_sampling_rate)%Z ->
  if (initial_sampling_rate <? 4 * maximum_f0)%Z
  then _calculate_downsampling_rate initial_sampling_rate maximum_f0 = Raise ValueError
  else
    exists rate,
      _calculate_downsampling_rate initial_sampling_rate maximum_f0 = Ok rate
      /\ rate = (initial_sampling_rate / (initial_sampling_rate / (4 * maximum_f0)))%Z
      /\ (4 * maximum_f0 <= rate < 8 * maximum_f0)%Z
      /\ (rate <= initial_sampling_rate)%Z.
Proof.
  intros Hf Hr.
  destruct (Z.ltb_spec initial_sampling_rate (4 * maximum_f0)) as [Hlt|Hge].
  - apply downsampling_rate_refused; lia.
  - eexists. split; [now apply downsampling_rate_quotient|].
    split; [reflexivity|]. now apply quotient_by_quotient_bounds.
Qed.

(** X1 at the defaults: 16 kHz and a bound of 500 Hz give 2 kHz. *)
Lemma downsampling_rate_at_defaults :
  exists rate,
    _calculate_downsampling_rate 16000 500 = Ok rate
    /\ rate = (16000 / (16000 / (4 * 500)))%Z
    /\ (4 * 500 <= rate < 8 * 500)%Z
    /\ (rate <= 16000)%Z.
Proof.
  apply (downsampling_rate_range 16000 500); lia.
Defined.

(** X2.  On the first pass run at the rate that
    [_calculate_downsampling_rate] returns, the shortest lag is 4, 5, 6 or 7
    samples. *)
Theorem first_pass_shortest_lag
    (initial_sampling_rate rate : Z) (samples : list R) (raptparam : Raptparams)
    (nccfparam : Nccfparams) :
  (0 < maximum_allowed_freq raptparam)%Z -> (0 <= initial_sampling_rate)%Z ->
  _calculate_downsampling_rate initial_sampling_rate (maximum_allowed_freq raptparam)
  = Ok rate ->
  _get_nccf_params (rate, samples) raptparam true = Ok nccfparam ->
  (4 <= shortest_lag_per_frame nccfparam <= 7)%Z.
Proof.
  intros Hf Hr Hrate Hgeo.
  assert (Hbounds : (4 * maximum_allowed_freq raptparam <= rate
                     < 8 * maximum_allowed_freq raptparam)%Z).
  { destruct (Z_lt_le_dec initial_sampling_rate (4 * maximum_allowed_freq raptparam))
      as [Hlt|Hge].
    - rewrite downsampling_rate_refused in Hrate by lia. discriminate.
    - rewrite downsampling_rate_quotient in Hrate by lia.
      inversion Hrate. now apply quotient_by_quotient_bounds. }
  apply get_nccf_params_inv in Hgeo as (_ & [_ Hkmin] & _). cbn [fst] in Hkmin.
  rewrite Hkmin. split.
  - apply Z.div_le_lower_bound; lia.
  - enough (rate / maximum_allowed_freq raptparam < 8)%Z by lia.
    apply Z.div_lt_upper_bound; lia.
Qed.

(** X2 at the defaults. *)
Lemma shortest_lag_at_defaults :
  (4 <= shortest_lag_per_frame
          {| samples_correlated_per_lag := 15; shortest_lag_per_frame := 4;
             longest_lag_per_frame := 40; samples_per_frame := 20;
             max_frame_count := 99 |} <= 7)%Z.
Proof.
  apply (first_pass_shortest_lag 16000 2000 (py_repeat 0 2000) default_raptparams).
  - reflexivity.
  - discriminate.
  - change (maximum_allowed_freq default_raptparams) with 500%Z.
    now rewrite downsampling_rate_quotient by lia.
  - reflexivity.
Defined.

(** ** The guard of the scans and the exceptions of the correlator *)

Lemma py_getitem_raises {A : Type} (l : list A) (i : Z) (e : exn) :
  py_getitem l i = Raise e -> e = IndexError.
Proof.
  unfold py_getitem. destruct (_ && _); [|now intros H; inversion H].
  destruct (nth_error l _); [discriminate | now intros H; inversion H].
Qed.

Lemma get_sample_raises (a : audio) (frame_start idx : Z) (np : Nccfparams)
    (mean : R) (e : exn) :
  _get_sample a frame_start idx np mean = Raise e -> e = IndexError.
Proof.
  unfold _get_sample. destruct (py_getitem _ _) eqn:E; cbn [bind]; [discriminate|].
  intros H. inversion H; subst. now apply py_getitem_raises in E.
Qed.

(** The exceptions of a loop are exceptions of its body. *)
Lemma for_each_raises {A S : Type} (body : S -> A -> result S) (P : exn -> Prop)
    (l : list A) :
  (forall s x e, In x l -> body s x = Raise e -> P e) ->
  forall s e, for_each body l s = Raise e -> P e.
Proof.
  induction l as [|x l IH]; intros Hbody s e Hrun; cbn [for_each] in Hrun;
    [discriminate|].
  destruct (body s x) as [s'|e'] eqn:E; cbn [bind] in Hrun.
  - apply (IH (fun s y e Hy => Hbody s y e (or_intror Hy)) s' e Hrun).
  - inversion Hrun; subst. apply (Hbody s x e); auto. now left.
Qed.

(** A loop over an element on which the body always raises does not
    return. *)
Lemma for_each_must_raise {A S : Type} (body : S -> A -> result S) (l : list A)
    (x : A) :
  In x l -> (forall s, exists e, body s x = Raise e) ->
  forall s, exists e, for_each body l s = Raise e.
Proof.
  induction l as [|y l IH]; intros Hin Hx s; [contradiction|].
  cbn [for_each]. destruct (body s y) as [s'|e] eqn:E; cbn [bind]; [|eauto].
  destruct Hin as [->|Hin]; [|now apply IH].
  destruct (Hx s) as [e He]. congruence.
Qed.

(** X3.  The guard of the two scans is exact: for a positive window, a frame
    that starts at a non-negative sample and a non-negative lag, the
    correlator raises [IndexError] if and only if the lagged window runs past
    the end of the buffer, which is the test that makes the scans skip the
    lag. *)
Theorem correlator_index_error
    (a : audio) (params : params_t) (frame lag : Z) (is_firstpass : bool) :
  (0 < samples_correlated_per_lag (snd params))%Z ->
  (0 <= frame * samples_per_frame (snd params))%Z ->
  (0 <= lag)%Z ->
  past_end a frame lag params = true
  <-> _get_correlation a frame lag params is_firstpass = Raise IndexError.
Proof.
  intros Hn Hm Hlag. split.
  - intros Hend. unfold past_end in Hend. apply Z.leb_le in Hend.
    unfold _get_correlation. cbv zeta.
    set (np := snd params) in *. set (n := samples_correlated_per_lag np) in *.
    set (m := (frame * samples_per_frame np)%Z) in *.
    rewrite py_div_ok by (apply not_0_IZR; lia). cbn [bind].
    set (mean := 1 / IZR n * _).
    match goal with
    | |- bind ?loop _ = _ => destruct loop as [samples|e] eqn:Eloop
    end; cbn [bind].
    + exfalso.
      destruct (for_each_must_raise
                  (fun samples j =>
                     correlated_samples <- _get_sample a m j np mean ;;
                     samples_for_lag <- _get_sample a m (j + lag) np mean ;;
                     Ok (samples + correlated_samples * samples_for_lag))
                  (xrange 0 n) (n - 1)%Z) with (s := 0) as [e He].
      * apply in_xrange. lia.
      * intros s. destruct (_get_sample a m (n - 1) np mean) as [c|e]; cbn [bind];
          [|eauto].
        unfold _get_sample at 1. rewrite py_getitem_past by lia. cbn [bind]. eauto.
      * congruence.
    + f_equal.
      apply (for_each_raises _ (fun e => e = IndexError) _) in Eloop; [assumption|].
      intros s j e' _ Hb.
      destruct (_get_sample a m j np mean) as [c|e1] eqn:E1; cbn [bind] in Hb.
      * destruct (_get_sample a m (j + lag) np mean) as [c'|e2] eqn:E2;
          cbn [bind] in Hb; [discriminate|].
        inversion Hb; subst. now apply get_sample_raises in E2.
      * inversion Hb; subst. now apply get_sample_raises in E1.
  - intros Hraise. destruct (past_end a frame lag params) eqn:Hend; [reflexivity|].
    exfalso.
    rewrite (get_correlation_in_range a params frame lag _ _ eq_refl eq_refl)
      in Hraise; try assumption.
    + unfold py_sqrt, py_div in Hraise.
      destruct (Rgtb 0 _); cbn [bind] in Hraise; [discriminate|].
      destruct (Reqb _ 0); discriminate.
    + unfold past_end in Hend. apply Z.leb_gt in Hend. lia.
Qed.

(** X3 on the toy first-pass buffer: lag 5 of frame 0 needs the sample of
    index 6, one past the end. *)
Lemma index_error_at_skipped_lag :
  past_end toy_downsampled 0 5 (toy_raptparams, toy_first_geometry) = true
  <-> _get_correlation toy_downsampled 0 5 (toy_raptparams, toy_first_geometry) true
      = Raise IndexError.
Proof.
  apply (correlator_index_error toy_downsampled (toy_raptparams, toy_first_geometry)
           0 5 true).
  - reflexivity.
  - discriminate.
  - discriminate.
Defined.

(** ** The first-pass scan, lag by lag *)

(** A loop whose body succeeds on the good elements, keeping an invariant,
    and raises [e] on the others: it returns when every element is good and
    raises [e] otherwise. *)
Lemma for_each_outcome {A S : Type} (body : S -> A -> result S) (P : S -> Prop)
    (good : A -> Prop) (e : exn) (l : list A) :
  (forall x, In x l -> good x \/ ~ good x) ->
  (forall s x, In x l -> P s -> good x -> exists s', body s x = Ok s' /\ P s') ->
  (forall s x, In x l -> P s -> ~ good x -> body s x = Raise e) ->
  forall s, P s ->
    ((forall x, In x l -> good x) /\ exists s', for_each body l s = Ok s' /\ P s')
    \/ ((exists x, In x l /\ ~ good x) /\ for_each body l s = Raise e).
Proof.
  induction l as [|x l IH]; intros Hdec Hgood Hbad s Hs; cbn [for_each].
  - left. split; [contradiction | eauto].
  - destruct (Hdec x (or_introl eq_refl)) as [Hx|Hx].
    + destruct (Hgood s x (or_introl eq_refl) Hs Hx) as (s' & -> & Hs'). cbn [bind].
      destruct (IH (fun y Hy => Hdec y (or_intror Hy))
                  (fun s y Hy => Hgood s y (or_intror Hy))
                  (fun s y Hy => Hbad s y (or_intror Hy)) s' Hs')
        as [[Hall Hrun]|[(y & Hy & Hny) Hrun]].
      * left. split; [|exact Hrun]. intros y [<-|Hy]; auto.
      * right. split; [|exact Hrun]. exists y. split; [now right | assumption].
    + right. split; [exists x; split; [now left | assumption]|].
      rewrite (Hbad s x (or_introl eq_refl) Hs Hx). reflexivity.
Qed.

Section FirstPassLags.

Variable a : audio.
Variable params : params_t.
Variables current_frame lag_range : Z.

Hypothesis window_pos : (0 < samples_correlated_per_lag (snd params))%Z.
Hypothesis start_nonneg : (0 <= current_frame * samples_per_frame (snd params))%Z.
Hypothesis shortest_nonneg : (0 <= shortest_lag_per_frame (snd params))%Z.

(** The product of the two energies under the square root of lag index
    [k]. *)
Local Abbreviation energies k :=
  (NCCF.energy a (current_frame * samples_per_frame (snd params))
     (samples_correlated_per_lag (snd params)) 0
   * NCCF.energy a (current_frame * samples_per_frame (snd params))
       (samples_correlated_per_lag (snd params))
       (k + shortest_lag_per_frame (snd params))).

Lemma first_pass_correlation_cases (k : Z) :
  (0 <= k)%Z ->
  past_end a current_frame (k + shortest_lag_per_frame (snd params)) params = false ->
  _get_correlation a current_frame (k + shortest_lag_per_frame (snd params)) params true
  = if Reqb (energies k) 0 then Raise ZeroDivisionError
    else Ok (first_pass_theta a params current_frame k).
Proof.
  intros Hk Hend.
  rewrite (get_correlation_in_range a params current_frame _ _ _ eq_refl eq_refl);
    try assumption; try lia.
  2:{ unfold past_end in Hend. apply Z.leb_gt in Hend. lia. }
  unfold NCCF.radicand.
  assert (Hnonneg : 0 <= energies k)
    by (apply Rmult_le_pos; apply energy_nonneg).
  rewrite py_sqrt_ok by assumption. cbn [bind]. unfold py_div.
  destruct (Req_dec_T (energies k) 0) as [Hz|Hnz].
  - rewrite Hz, sqrt_0, !Reqb_true by reflexivity. reflexivity.
  - rewrite !Reqb_false; [reflexivity | assumption |].
    apply Rgt_not_eq, sqrt_lt_R0. lra.
Qed.

Lemma all_lags_body_good (st : lag_results_t) (k : Z) :
  (0 <= k < py_len (fst st))%Z ->
  (past_end a current_frame (k + shortest_lag_per_frame (snd params)) params = false ->
   energies k <> 0) ->
  exists st', all_lags_body a params current_frame st k = Ok st'
              /\ py_len (fst st') = py_len (fst st).
Proof.
  intros Hk Hgood. unfold all_lags_body. cbv zeta.
  destruct (past_end _ _ _ _) eqn:Hend; [eauto|].
  rewrite first_pass_correlation_cases, Reqb_false by (auto; lia). cbn [bind].
  rewrite store_correlation_ok by assumption.
  eexists. split; [reflexivity|]. cbn [fst]. unfold py_len.
  now rewrite list_update_length.
Qed.

Lemma all_lags_body_bad (st : lag_results_t) (k : Z) :
  (0 <= k)%Z ->
  ~ (past_end a current_frame (k + shortest_lag_per_frame (snd params)) params = false ->
     energies k <> 0) ->
  all_lags_body a params current_frame st k = Raise ZeroDivisionError.
Proof.
  intros Hk Hbad. unfold all_lags_body. cbv zeta.
  destruct (past_end _ _ _ _) eqn:Hend; [exfalso; apply Hbad; discriminate|].
  rewrite first_pass_correlation_cases by (auto; lia).
  destruct (Req_dec_T (energies k) 0) as [Hz|Hnz].
  - now rewrite Reqb_true.
  - exfalso. apply Hbad. auto.
Qed.

End FirstPassLags.

(** Over exact real arithmetic, the scan returns exactly when no lag inside
    the buffer has a zero product of energies [e_0 * e_k], and raises
    [ZeroDivisionError] when one has. *)
Lemma first_pass_scan_cases
    (a : audio) (params : params_t) (current_frame lag_range : Z) :
  (0 < samples_correlated_per_lag (snd params))%Z ->
  (0 <= current_frame * samples_per_frame (snd params))%Z ->
  (0 <= shortest_lag_per_frame (snd params))%Z ->
  let m := (current_frame * samples_per_frame (snd params))%Z in
  let n := samples_correlated_per_lag (snd params) in
  let silent k :=
    (0 <= k < lag_range)%Z
    /\ past_end a current_frame (k + shortest_lag_per_frame (snd params)) params = false
    /\ NCCF.energy a m n 0
       * NCCF.energy a m n (k + shortest_lag_per_frame (snd params)) = 0 in
  ((forall k, ~ silent k)
   /\ exists candidates max_correlation_val,
        _get_correlations_for_all_lags a current_frame lag_range params
        = Ok (candidates, max_correlation_val)
        /\ py_len candidates = Z.max 0 lag_range)
  \/ ((exists k, silent k)
      /\ _get_correlations_for_all_lags a current_frame lag_range params
         = Raise ZeroDivisionError).
Proof.
  intros Hn Hm Hkmin m n silent.
  unfold _get_correlations_for_all_lags.
  change (for_each _ (xrange 0 lag_range) ?init)
    with (for_each (all_lags_body a params current_frame) (xrange 0 lag_range) init).
  set (good := fun k : Z =>
         past_end a current_frame (k + shortest_lag_per_frame (snd params)) params
         = false ->
         NCCF.energy a m n 0
         * NCCF.energy a m n (k + shortest_lag_per_frame (snd params)) <> 0).
  assert (Hdec : forall k, In k (xrange 0 lag_range) -> good k \/ ~ good k).
  { intros k _. unfold good.
    destruct (past_end a current_frame (k + _) params); [left; discriminate|].
    destruct (Req_dec
                (NCCF.energy a m n 0
                 * NCCF.energy a m n (k + shortest_lag_per_frame (snd params))) 0)
      as [Hz|Hnz]; [right; intros H; now apply (H eq_refl) | left; auto]. }
  assert (Hstep : forall s k, In k (xrange 0 lag_range) ->
            py_len (fst s) = Z.max 0 lag_range -> good k ->
            exists s', all_lags_body a params current_frame s k = Ok s'
                       /\ py_len (fst s') = Z.max 0 lag_range).
  { intros s k Hk Hs Hgood. apply in_xrange in Hk.
    destruct (all_lags_body_good a params current_frame Hn Hm Hkmin s k)
      as (s' & Hs' & Hl); [lia | exact Hgood |].
    exists s'. split; [assumption | congruence]. }
  assert (Hfail : forall s k, In k (xrange 0 lag_range) ->
            py_len (fst s) = Z.max 0 lag_range -> ~ good k ->
            all_lags_body a params current_frame s k = Raise ZeroDivisionError).
  { intros s k Hk _ Hbad. apply in_xrange in Hk.
    apply (all_lags_body_bad a params current_frame Hn Hm Hkmin); [lia | exact Hbad]. }
  assert (Hinit : py_len (fst (py_repeat 0 lag_range, 0)) = Z.max 0 lag_range)
    by apply py_repeat_length.
  destruct (for_each_outcome _ _ good ZeroDivisionError _ Hdec Hstep Hfail _ Hinit)
    as [[Hall (st & Hrun & Hlen)]|[(k & Hk & Hbad) Hrun]].
  - left. split.
    + intros k (Hk & Hend & Hz).
      apply (Hall k); [apply in_xrange; lia | assumption | assumption].
    + destruct st as [candidates mx]. exists candidates, mx. split; assumption.
  - right. split; [|exact Hrun]. apply in_xrange in Hk. exists k.
    unfold good in Hbad.
    destruct (past_end a current_frame (k + _) params) eqn:Hend;
      [exfalso; apply Hbad; discriminate|].
    split; [lia|]. split; [exact Hend|].
    destruct (Req_dec
                (NCCF.energy a m n 0
                 * NCCF.energy a m n (k + shortest_lag_per_frame (snd params))) 0)
      as [Hz|Hnz]; [assumption | exfalso; apply Hbad; auto].
Qed.

(** X4.  With a positive window, a frame that starts at a non-negative
    sample and a non-negative shortest lag, the first-pass scan of a frame
    either returns a list of [max(0, lag_range)] values with their maximum,
    or raises [ZeroDivisionError], the error of a zero under the square root
    of the correlator.  It raises nothing else: no [IndexError], since the
    guard skips every lag whose window the correlator could not read.  (The
    overflow of a double, which Python reports when it squares a sample
    beyond 1e154, is not modelled.) *)
Theorem first_pass_scan_outcome
    (a : audio) (params : params_t) (current_frame lag_range : Z) :
  (0 < samples_correlated_per_lag (snd params))%Z ->
  (0 <= current_frame * samples_per_frame (snd params))%Z ->
  (0 <= shortest_lag_per_frame (snd params))%Z ->
  (exists candidates max_correlation_val,
      _get_correlations_for_all_lags a current_frame lag_range params
      = Ok (candidates, max_correlation_val)
      /\ py_len candidates = Z.max 0 lag_range)
  \/ _get_correlations_for_all_lags a current_frame lag_range params
     = Raise ZeroDivisionError.
Proof.
  intros Hn Hm Hkmin.
  destruct (first_pass_scan_cases a params current_frame lag_range Hn Hm Hkmin)
    as [[_ Hreturns]|[_ Hraises]]; [left | right]; assumption.
Qed.

(** X4 on frame 0 of the toy first-pass buffer. *)
Lemma toy_scan_outcome :
  (exists candidates max_correlation_val,
      _get_correlations_for_all_lags toy_downsampled 0 3
        (toy_raptparams, toy_first_geometry)
      = Ok (candidates, max_correlation_val)
      /\ py_len candidates = Z.max 0 3)
  \/ _get_correlations_for_all_lags toy_downsampled 0 3
       (toy_raptparams, toy_first_geometry)
     = Raise ZeroDivisionError.
Proof.
  apply (first_pass_scan_outcome toy_downsampled (toy_raptparams, toy_first_geometry)
           0 3).
  - reflexivity.
  - discriminate.
  - discriminate.
Defined.

(** One step of the first-pass scan that returns: the lag is skipped, or
    the correlator returned for it and its value is stored. *)
Lemma all_lags_body_inv (a : audio) (params : params_t) (current_frame : Z)
    (st st' : lag_results_t) (k : Z) :
  (0 <= k)%Z ->
  all_lags_body a params current_frame st k = Ok st' ->
  (past_end a current_frame (k + shortest_lag_per_frame (snd params)) params = true
   /\ st' = st)
  \/ exists v,
       past_end a current_frame (k + shortest_lag_per_frame (snd params)) params = false
       /\ _get_correlation a current_frame (k + shortest_lag_per_frame (snd params))
            params true = Ok v
       /\ (k < py_len (fst st))%Z
       /\ fst st' = list_update (fst st) (Z.to_nat k) v
       /\ snd st' = (if Rgtb v (snd st) then v else snd st).
Proof.
  intros Hk Hbody. unfold all_lags_body in Hbody. cbv zeta in Hbody.
  destruct (past_end _ _ _ _); [left; now inversion Hbody|].
  destruct (_get_correlation _ _ _ _ _) as [v|]; cbn [bind] in Hbody; [|discriminate].
  apply store_correlation_inv in Hbody as (Hlen & Hfst & Hsnd); [|assumption].
  right. exists v. auto.
Qed.

(** The same for a step on one of the seven lags around a peak. *)
Lemma neighbour_body_inv (a : audio) (params : params_t) (current_frame : Z)
    (st st' : lag_results_t) (k : Z) :
  (0 <= k)%Z ->
  neighbour_body a params current_frame st k = Ok st' ->
  (past_end a current_frame k params = true /\ st' = st)
  \/ exists v,
       past_end a current_frame k params = false
       /\ _get_correlation a current_frame k params false = Ok v
       /\ (k < py_len (fst st))%Z
       /\ fst st' = list_update (fst st) (Z.to_nat k) v
       /\ snd st' = (if Rgtb v (snd st) then v else snd st).
Proof.
  intros Hk Hbody. unfold neighbour_body in Hbody.
  destruct (past_end _ _ _ _); [left; now inversion Hbody|].
  destruct (_get_correlation _ _ _ _ _) as [v|]; cbn [bind] in Hbody; [|discriminate].
  apply store_correlation_inv in Hbody as (Hlen & Hfst & Hsnd); [|assumption].
  right. exists v. auto.
Qed.

(** ** The running maximum of the scans *)

Lemma largest_or_zero_nonneg (l : list R) : 0 <= largest_or_zero l.
Proof.
  induction l as [|x l IH]; cbn; [lra|].
  eapply Rle_trans; [exact IH | apply Rmax_r].
Qed.

Lemma largest_or_zero_bound (l : list R) (k : nat) : nth k l 0 <= largest_or_zero l.
Proof.
  revert k. induction l as [|x l IH]; intros [|k]; cbn; try lra.
  - apply Rmax_l.
  - eapply Rle_trans; [apply IH | apply Rmax_r].
Qed.

(** The largest element is 0 or an element of the list. *)
Lemma largest_or_zero_attained (l : list R) :
  largest_or_zero l = 0 \/ In (largest_or_zero l) l.
Proof.
  induction l as [|x l IH]; cbn [largest_or_zero fold_right]; [now left|].
  fold (largest_or_zero l).
  destruct (Rmax_case x (largest_or_zero l) (fun r => r = x \/ r = largest_or_zero l))
    as [E|E]; auto.
  - right. left. now symmetry.
  - rewrite E. destruct IH as [IH|IH]; [now left | right; now right].
Qed.

(** Writing [v] over a 0, or over [v] itself, raises the largest element as
    the running maximum of the scans is raised. *)
Lemma largest_or_zero_update (l : list R) (k : nat) (v : R) :
  (k < length l)%nat ->
  nth k l 0 = 0 \/ nth k l 0 = v ->
  largest_or_zero (list_update l k v) = Rmax (largest_or_zero l) v.
Proof.
  revert k. induction l as [|x l IH]; intros [|k] Hk Hold; cbn in Hk; try lia.
  - cbn [nth] in Hold. cbn [list_update].
    change (Rmax v (largest_or_zero l) = Rmax (Rmax x (largest_or_zero l)) v).
    pose proof (largest_or_zero_nonneg l) as H0.
    generalize dependent (largest_or_zero l). intros L HL.
    destruct Hold as [->| ->]; unfold Rmax;
      repeat match goal with
             | |- context [Rle_dec ?u ?w] =>
                 lazymatch u with
                 | context [Rle_dec] => fail
                 | _ => destruct (Rle_dec u w)
                 end
             end;
      lra.
  - cbn [nth] in Hold. cbn [list_update].
    change (Rmax x (largest_or_zero (list_update l k v))
            = Rmax (Rmax x (largest_or_zero l)) v).
    rewrite IH by (auto; lia). now rewrite Rmax_assoc.
Qed.

Lemma raised_maximum_is_Rmax (v mx : R) : (if Rgtb v mx then v else mx) = Rmax mx v.
Proof.
  unfold Rgtb, Rmax. destruct (Rlt_dec mx v), (Rle_dec mx v); lra.
Qed.

Lemma scan_invariant_init (skipped : Z -> bool) (corr : Z -> result R) (lag_range : Z) :
  scan_invariant skipped corr (py_repeat 0 lag_range, 0).
Proof.
  split; cbn [fst snd].
  - unfold py_repeat. induction (Z.to_nat lag_range) as [|n IH]; cbn; [reflexivity|].
    fold (largest_or_zero (repeat 0 n)). rewrite <- IH.
    unfold Rmax. destruct (Rle_dec 0 0); reflexivity.
  - intros k _. left. apply nth_py_repeat_zero.
Qed.

Lemma scan_invariant_store (skipped : Z -> bool) (corr : Z -> result R)
    (st st' : lag_results_t) (k : Z) (v : R) :
  (0 <= k < py_len (fst st))%Z ->
  skipped k = false ->
  corr k = Ok v ->
  fst st' = list_update (fst st) (Z.to_nat k) v ->
  snd st' = (if Rgtb v (snd st) then v else snd st) ->
  scan_invariant skipped corr st -> scan_invariant skipped corr st'.
Proof.
  intros Hk Hskip Hcorr Hfst Hsnd [Hmax Hvals]. split.
  - rewrite Hsnd, Hfst, raised_maximum_is_Rmax, Hmax.
    symmetry. apply largest_or_zero_update; [unfold py_len in Hk; lia|].
    destruct (Hvals k) as [H0|[_ Hv]]; [lia | now left |].
    right. congruence.
  - intros j Hj. rewrite Hfst, nth_list_update.
    destruct (Nat.eqb_spec (Z.to_nat j) (Z.to_nat k)) as [E|E]; cbn [andb].
    + assert (j = k) by lia. subst j.
      replace (Z.to_nat k <? length (fst st))%nat with true
        by (symmetry; apply Nat.ltb_lt; unfold py_len in Hk; lia).
      right. split; assumption.
    + apply Hvals, Hj.
Qed.

Lemma first_pass_scan_invariant
    (a : audio) (params : params_t) (current_frame lag_range : Z)
    (candidates : list R) (max_correlation_val : R) :
  _get_correlations_for_all_lags a current_frame lag_range params
  = Ok (candidates, max_correlation_val) ->
  scan_invariant
    (fun k => past_end a current_frame (k + shortest_lag_per_frame (snd params)) params)
    (fun k => _get_correlation a current_frame
                (k + shortest_lag_per_frame (snd params)) params true)
    (candidates, max_correlation_val).
Proof.
  unfold _get_correlations_for_all_lags.
  change (for_each _ (xrange 0 lag_range) ?init)
    with (for_each (all_lags_body a params current_frame) (xrange 0 lag_range) init).
  apply for_each_preserves; [|apply scan_invariant_init].
  intros st k st' Hk Hinv Hbody. apply in_xrange in Hk.
  apply all_lags_body_inv in Hbody as [[_ ->]|(v & Hend & Hv & Hlen & Hfst & Hsnd)];
    [assumption | | lia].
  apply (scan_invariant_store _ _ st st' k v); auto. lia.
Qed.

Lemma second_pass_scan_invariant
    (a : audio) (params : params_t) (current_frame lag_range : Z)
    (first_pass : list (list hypothesis))
    (candidates : list R) (max_correlation_val : R) :
  _get_correlations_for_input_lags a current_frame first_pass lag_range params
  = Ok (candidates, max_correlation_val) ->
  scan_invariant
    (fun k => past_end a current_frame k params)
    (fun k => _get_correlation a current_frame k params false)
    (candidates, max_correlation_val).
Proof.
  unfold _get_correlations_for_input_lags. cbv zeta.
  destruct (py_getitem first_pass current_frame) as [frame_peaks|];
    cbn [bind]; [|discriminate].
  change (for_each _ frame_peaks ?init)
    with (for_each (peak_body a params current_frame lag_range) frame_peaks init).
  apply for_each_preserves; [|apply scan_invariant_init].
  intros st lag_val st' _ Hinv Hbody. unfold peak_body in Hbody.
  destruct (peak_ok lag_range (fst lag_val)) eqn:Hpeak;
    [|now inversion Hbody; subst].
  unfold peak_ok in Hpeak. apply andb_prop in Hpeak as [Hlow _].
  apply Z.ltb_lt in Hlow.
  revert Hinv Hbody. apply for_each_preserves.
  intros s k s' Hk Hinv Hbody. apply in_xrange in Hk.
  apply neighbour_body_inv in Hbody as [[_ ->]|(v & Hend & Hv & Hlen & Hfst & Hsnd)];
    [assumption | | lia].
  apply (scan_invariant_store _ _ s s' k v); auto. lia.
Qed.

(** X5.  With a positive window, a frame that starts at a non-negative
    sample and a non-negative shortest lag, the list the first-pass scan of a
    frame returns holds 0 at the index of every lag it skipped, and at the
    index [k] of a lag inside the buffer the value the correlator returns for
    the lag [k + k_min], which over exact real arithmetic is the first-pass
    NCCF of the specification. *)
Theorem first_pass_scan_values
    (a : audio) (params : params_t) (current_frame lag_range : Z)
    (candidates : list R) (max_correlation_val : R) :
  (0 < samples_correlated_per_lag (snd params))%Z ->
  (0 <= current_frame * samples_per_frame (snd params))%Z ->
  (0 <= shortest_lag_per_frame (snd params))%Z ->
  _get_correlations_for_all_lags a current_frame lag_range params
  = Ok (candidates, max_correlation_val) ->
  forall k, (0 <= k < lag_range)%Z ->
    if past_end a current_frame (k + shortest_lag_per_frame (snd params)) params
    then nth (Z.to_nat k) candidates 0 = 0
    else _get_correlation a current_frame (k + shortest_lag_per_frame (snd params))
           params true = Ok (nth (Z.to_nat k) candidates 0)
         /\ nth (Z.to_nat k) candidates 0 = first_pass_theta a params current_frame k.
Proof.
  intros Hn Hm Hkmin Hscan k Hk.
  pose proof (first_pass_scan_invariant _ _ _ _ _ _ Hscan) as [_ Hvals].
  cbn [fst snd] in Hvals.
  assert (Hstored :
            past_end a current_frame (k + shortest_lag_per_frame (snd params)) params
            = false ->
            _get_correlation a current_frame (k + shortest_lag_per_frame (snd params))
              params true = Ok (nth (Z.to_nat k) candidates 0)).
  { change (nth (Z.to_nat k) candidates 0)
      with (nth (Z.to_nat k) (fst (candidates, max_correlation_val)) 0).
    revert Hscan. unfold _get_correlations_for_all_lags.
    change (for_each _ (xrange 0 lag_range) ?init)
      with (for_each (all_lags_body a params current_frame) (xrange 0 lag_range) init).
    intros Hscan Hend.
    apply (for_each_establishes (all_lags_body a params current_frame)
             (fun j st =>
                (0 <= j)%Z ->
                past_end a current_frame (j + shortest_lag_per_frame (snd params))
                  params = false ->
                _get_correlation a current_frame
                  (j + shortest_lag_per_frame (snd params)) params true
                = Ok (nth (Z.to_nat j) (fst st) 0))
             (xrange 0 lag_range)) with (s0 := (py_repeat 0 lag_range, 0)) (x := k);
      [| |exact Hscan|apply in_xrange; lia|lia|exact Hend].
    - intros s j s' Hj Hbody _ Hskip. apply in_xrange in Hj.
      apply all_lags_body_inv in Hbody
          as [[Hskip' _]|(v & _ & Hv & Hlen & -> & _)]; [congruence | | lia].
      rewrite nth_list_update, Nat.eqb_refl.
      replace (Z.to_nat j <? length (fst s))%nat with true; [exact Hv|].
      symmetry. apply Nat.ltb_lt. unfold py_len in Hlen. lia.
    - intros s y s' j Hy Hbody Hj Hj0 Hskip. apply in_xrange in Hy.
      apply all_lags_body_inv in Hbody
          as [[_ ->]|(v & _ & Hv & Hlen & -> & _)]; [auto | | lia].
      rewrite nth_list_update.
      destruct (Nat.eqb_spec (Z.to_nat j) (Z.to_nat y)) as [E|E]; cbn [andb]; [|auto].
      replace (Z.to_nat y <? length (fst s))%nat with true
        by (symmetry; apply Nat.ltb_lt; unfold py_len in Hlen; lia).
      assert (j = y) by lia. subst j. exact Hv. }
  destruct (past_end a current_frame (k + shortest_lag_per_frame (snd params)) params)
    eqn:Hend.
  - destruct (Hvals k) as [H0|[Hskip _]]; [lia | exact H0 | congruence].
  - specialize (Hstored eq_refl). split; [exact Hstored|].
    rewrite (first_pass_correlation_cases a params current_frame Hn Hm Hkmin) in Hstored
      by (auto; lia).
    destruct (Reqb _ 0); [discriminate|].
    injection Hstored as Hval. now symmetry.
Qed.

(** X5 on frame 0 of the toy first-pass buffer, at lag index 0, which is
    inside the buffer. *)
Lemma toy_scan_values :
  if past_end toy_downsampled 0 (0 + 4) (toy_raptparams, toy_first_geometry)
  then nth (Z.to_nat 0) [1; 0; 0] 0 = 0
  else _get_correlation toy_downsampled 0 (0 + 4) (toy_raptparams, toy_first_geometry)
         true = Ok (nth (Z.to_nat 0) [1; 0; 0] 0)
       /\ nth (Z.to_nat 0) [1; 0; 0] 0
          = first_pass_theta toy_downsampled (toy_raptparams, toy_first_geometry) 0 0.
Proof.
  apply (first_pass_scan_values toy_downsampled (toy_raptparams, toy_first_geometry)
           0 3 [1; 0; 0] 1).
  - reflexivity.
  - discriminate.
  - discriminate.
  - exact toy_first_scan.
  - lia.
Defined.

(** X6.  The maximum the first-pass scan returns with its list is the
    largest value of the list, and 0 when no value is positive. *)
Theorem first_pass_maximum
    (a : audio) (params : params_t) (current_frame lag_range : Z)
    (candidates : list R) (max_correlation_val : R) :
  _get_correlations_for_all_lags a current_frame lag_range params
  = Ok (candidates, max_correlation_val) ->
  max_correlation_val = largest_or_zero candidates
  /\ (forall v, In v candidates -> v <= max_correlation_val)
  /\ (max_correlation_val = 0 \/ In max_correlation_val candidates).
Proof.
  intros Hscan.
  apply first_pass_scan_invariant in Hscan as [Hmax _]. cbn [fst snd] in Hmax.
  subst max_correlation_val. split; [reflexivity|]. split.
  - intros v Hv. apply (In_nth _ _ 0) in Hv as (k & _ & <-).
    apply largest_or_zero_bound.
  - apply largest_or_zero_attained.
Qed.

Lemma toy_maximum_of_first_scan :
  1 = largest_or_zero [1; 0; 0]
  /\ (forall v, In v [1; 0; 0] -> v <= 1)
  /\ (1 = 0 \/ In 1 [1; 0; 0]).
Proof.
  apply (first_pass_maximum toy_downsampled (toy_raptparams, toy_first_geometry) 0 3).
  exact toy_first_scan.
Defined.

(** X7.  The maximum the second-pass scan returns with its list is the
    largest value of the list, and 0 when no value is positive, although a
    lag that is near two peaks is computed and compared twice. *)
Theorem second_pass_maximum
    (a : audio) (params : params_t) (current_frame lag_range : Z)
    (first_pass : list (list hypothesis))
    (candidates : list R) (max_correlation_val : R) :
  _get_correlations_for_input_lags a current_frame first_pass lag_range params
  = Ok (candidates, max_correlation_val) ->
  max_correlation_val = largest_or_zero candidates
  /\ (forall v, In v candidates -> v <= max_correlation_val)
  /\ (max_correlation_val = 0 \/ In max_correlation_val candidates).
Proof.
  intros Hscan.
  apply second_pass_scan_invariant in Hscan as [Hmax _]. cbn [fst snd] in Hmax.
  subst max_correlation_val. split; [reflexivity|]. split.
  - intros v Hv. apply (In_nth _ _ 0) in Hv as (k & _ & <-).
    apply largest_or_zero_bound.
  - apply largest_or_zero_attained.
Qed.

Lemma toy_maximum_of_second_scan :
  97 / sqrt 50012
  = largest_or_zero
      [0; 0; 0; 0; 0; 0; 0; 0; 4 / sqrt 10016; 97 / sqrt 50012; 0; 0; 0; 0; 0]
  /\ (forall v,
        In v [0; 0; 0; 0; 0; 0; 0; 0; 4 / sqrt 10016; 97 / sqrt 50012; 0; 0; 0; 0; 0] ->
        v <= 97 / sqrt 50012)
  /\ (97 / sqrt 50012 = 0
      \/ In (97 / sqrt 50012)
           [0; 0; 0; 0; 0; 0; 0; 0; 4 / sqrt 10016; 97 / sqrt 50012; 0; 0; 0; 0; 0]).
Proof.
  apply (second_pass_maximum toy_original (toy_raptparams, toy_second_geometry) 0 15
           [[(11%Z, 1)]]).
  exact toy_second_scan.
Defined.

(** ** What the marking of the second pass returns *)

Lemma py_slice_from_start {A : Type} (l : list A) (b : Z) :
  py_slice l 0 b = firstn (Z.to_nat (slice_bound (py_len l) b)) l.
Proof.
  unfold py_slice. cbv zeta.
  assert (Hlen : (0 <= py_len l)%Z) by (unfold py_len; lia).
  replace (slice_bound (py_len l) 0) with 0%Z.
  - now rewrite Z.sub_0_r.
  - unfold slice_bound. change (0 <? 0)%Z with false. cbv iota. lia.
Qed.

Lemma insert_by_corr_desc_sorted (x : hypothesis) (l : list hypothesis) :
  StronglySorted (fun h h' : hypothesis => snd h' <= snd h) l ->
  StronglySorted (fun h h' : hypothesis => snd h' <= snd h) (insert_by_corr_desc x l).
Proof.
  induction l as [|y l IH]; intros Hl; cbn [insert_by_corr_desc].
  - repeat constructor.
  - inversion Hl as [|? ? Hl' Hy]; subst.
    unfold Rgeb. destruct (Rle_dec (snd y) (snd x)) as [Hxy|Hxy].
    + constructor; [assumption|]. constructor; [assumption|].
      eapply Forall_impl; [|exact Hy]. cbn. intros h Hh. lra.
    + constructor; [now apply IH|].
      apply Forall_forall. intros h Hh.
      apply (Permutation_in _ (insert_by_corr_desc_perm x l)) in Hh.
      destruct Hh as [<-|Hh]; [lra|].
      rewrite Forall_forall in Hy. now apply Hy.
Qed.

Lemma sort_by_corr_desc_sorted (l : list hypothesis) :
  StronglySorted (fun h h' : hypothesis => snd h' <= snd h) (sort_by_corr_desc l).
Proof.
  induction l as [|x l IH]; cbn; [constructor|]. now apply insert_by_corr_desc_sorted.
Qed.

Lemma strongly_sorted_split {A : Type} (R : A -> A -> Prop) (l : list A) (n : nat)
    (x y : A) :
  StronglySorted R l -> In x (firstn n l) -> In y (skipn n l) -> R x y.
Proof.
  intros Hl. revert n. induction Hl as [|z l Hl IH Hz]; intros [|n] Hx Hy;
    cbn [firstn skipn] in *; try contradiction.
  destruct Hx as [<-|Hx].
  - rewrite Forall_forall in Hz. apply Hz.
    rewrite <- (firstn_skipn n l). apply in_or_app. now right.
  - now apply (IH n).
Qed.

(** The cap returns a part of the candidates, and a candidate it drops has
    no larger correlation than any it keeps. *)
Lemma cap_candidates_keeps_best (candidates : list hypothesis) (params : params_t) :
  (forall h, In h (cap_candidates candidates params) -> In h candidates)
  /\ (forall c, In c candidates ->
        In c (cap_candidates candidates params)
        \/ ((max_hypotheses_per_frame (fst params) - 1 < py_len candidates)%Z
            /\ forall h, In h (cap_candidates candidates params) -> snd c <= snd h)).
Proof.
  unfold cap_candidates. cbv zeta.
  destruct (Z.ltb_spec (max_hypotheses_per_frame (fst params) - 1) (py_len candidates))
    as [Hcap|Hcap]; [|split; auto].
  rewrite py_slice_from_start.
  set (n := Z.to_nat _). set (sorted := sort_by_corr_desc candidates).
  split.
  - intros h Hh. apply (Permutation_in _ (sort_by_lag_perm _)) in Hh.
    apply in_firstn in Hh.
    now apply (Permutation_in _ (sort_by_corr_desc_perm candidates)) in Hh.
  - intros c Hc.
    apply (Permutation_in _ (Permutation_sym (sort_by_corr_desc_perm candidates))) in Hc.
    fold sorted in Hc. rewrite <- (firstn_skipn n sorted) in Hc.
    apply in_app_or in Hc as [Hc|Hc].
    + left. now apply (Permutation_in _ (Permutation_sym (sort_by_lag_perm _))).
    + right. split; [assumption|]. intros h Hh.
      apply (Permutation_in _ (sort_by_lag_perm _)) in Hh.
      apply (strongly_sorted_split
               (fun h h' : hypothesis => snd h' <= snd h) sorted n h c);
        [apply sort_by_corr_desc_sorted | assumption | assumption].
Qed.

Lemma above_threshold_spec (lag_results : lag_results_t) (params : params_t)
    (kv : Z * R) :
  above_threshold lag_results params kv = true
  <-> snd lag_results * min_acceptable_peak_val (fst params) <= snd kv.
Proof.
  unfold above_threshold, Rgeb. destruct (Rle_dec _ _); split; auto; discriminate.
Qed.

(** X8.  The marking of the second pass always returns.  Every hypothesis it
    returns is a lag index of the list, shifted by the shortest lag, with the
    correlation stored there, which is at least the threshold
    [max * min_acceptable_peak_val].  A lag that reaches the threshold is
    returned, unless more than [max_hypotheses_per_frame - 1] lags reach it;
    then every returned hypothesis has a correlation at least as large. *)
Theorem second_pass_marking (lag_results : lag_results_t) (params : params_t) :
  let threshold := snd lag_results * min_acceptable_peak_val (fst params) in
  exists returned,
    _get_marked_results lag_results params false = Ok returned
    /\ (forall h, In h returned ->
          exists k, (0 <= k < py_len (fst lag_results))%Z
                    /\ h = ((k + shortest_lag_per_frame (snd params))%Z,
                            nth (Z.to_nat k) (fst lag_results) 0)
                    /\ threshold <= snd h)
    /\ (forall k, (0 <= k < py_len (fst lag_results))%Z ->
          threshold <= nth (Z.to_nat k) (fst lag_results) 0 ->
          In ((k + shortest_lag_per_frame (snd params))%Z,
              nth (Z.to_nat k) (fst lag_results) 0) returned
          \/ ((max_hypotheses_per_frame (fst params) - 1
                < py_len (filter (above_threshold lag_results params)
                            (enumerate (fst lag_results))))%Z
              /\ forall h, In h returned ->
                   nth (Z.to_nat k) (fst lag_results) 0 <= snd h)).
Proof.
  intros threshold. unfold _get_marked_results. rewrite marked_second_pass. cbn [bind].
  set (marked := map _ _). exists (cap_candidates marked params).
  destruct (cap_candidates_keeps_best marked params) as [Hsub Hbest].
  assert (Hmarked : forall k v,
             In ((k + shortest_lag_per_frame (snd params))%Z, v) marked
             <-> (0 <= k < py_len (fst lag_results))%Z
                 /\ nth (Z.to_nat k) (fst lag_results) 0 = v
                 /\ threshold <= v).
  { intros k v. subst marked. rewrite in_map_iff. split.
    - intros ([k' v'] & Heq & Hin). unfold second_pass_candidate in Heq.
      cbn [fst snd] in Heq. inversion Heq; subst.
      assert (k' = k) by lia. subst k'.
      apply filter_In in Hin as [Hin Hpass].
      apply (enumerate_in _ _ _ 0) in Hin as [Hk Hv].
      apply above_threshold_spec in Hpass. auto.
    - intros (Hk & Hv & Hpass). exists (k, v). split; [reflexivity|].
      apply filter_In. split.
      + apply (enumerate_in _ _ _ 0). auto.
      + now apply above_threshold_spec. }
  split; [reflexivity|]. split.
  - intros h Hh. apply Hsub in Hh.
    assert (Hshape : exists k, h = ((k + shortest_lag_per_frame (snd params))%Z, snd h)).
    { subst marked. apply in_map_iff in Hh as ([k v] & <- & _). now exists k. }
    destruct Hshape as [k Hk]. rewrite Hk in Hh.
    apply Hmarked in Hh as (Hrange & Hv & Hpass).
    exists k. split; [assumption|]. split; [|assumption]. now rewrite Hv.
  - intros k Hk Hpass.
    destruct (Hbest ((k + shortest_lag_per_frame (snd params))%Z,
                     nth (Z.to_nat k) (fst lag_results) 0)) as [Hin|[Hcap Hle]].
    + apply Hmarked. auto.
    + now left.
    + right. split; [|exact Hle].
      subst marked. unfold py_len in *. now rewrite length_map in Hcap.
Qed.

Lemma marking_of_two_lags :
  let lag_results : lag_results_t := ([1 / 2; 1], 1) in
  let params : params_t := (toy_raptparams, toy_second_geometry) in
  let threshold := snd lag_results * min_acceptable_peak_val (fst params) in
  exists returned,
    _get_marked_results lag_results params false = Ok returned
    /\ (forall h, In h returned ->
          exists k, (0 <= k < py_len (fst lag_results))%Z
                    /\ h = ((k + shortest_lag_per_frame (snd params))%Z,
                            nth (Z.to_nat k) (fst lag_results) 0)
                    /\ threshold <= snd h)
    /\ (forall k, (0 <= k < py_len (fst lag_results))%Z ->
          threshold <= nth (Z.to_nat k) (fst lag_results) 0 ->
          In ((k + shortest_lag_per_frame (snd params))%Z,
              nth (Z.to_nat k) (fst lag_results) 0) returned
          \/ ((max_hypotheses_per_frame (fst params) - 1
                < py_len (filter (above_threshold lag_results params)
                            (enumerate (fst lag_results))))%Z
              /\ forall h, In h returned ->
                   nth (Z.to_nat k) (fst lag_results) 0 <= snd h)).
Proof.
  exact (second_pass_marking ([1 / 2; 1], 1) (toy_raptparams, toy_second_geometry)).
Defined.

(** ** A frame of the second pass is never empty *)

Lemma second_pass_scan_shape
    (a : audio) (params : params_t) (current_frame lag_range : Z)
    (first_pass : list (list hypothesis))
    (candidates : list R) (max_correlation_val : R) :
  _get_correlations_for_input_lags a current_frame first_pass lag_range params
  = Ok (candidates, max_correlation_val) ->
  py_len candidates = Z.max 0 lag_range /\ nth 0 candidates 0 = 0.
Proof.
  unfold _get_correlations_for_input_lags. cbv zeta.
  destruct (py_getitem first_pass current_frame) as [frame_peaks|];
    cbn [bind]; [|discriminate].
  change (for_each _ frame_peaks ?init)
    with (for_each (peak_body a params current_frame lag_range) frame_peaks init).
  change (py_len candidates = Z.max 0 lag_range /\ nth 0 candidates 0 = 0)
    with ((fun st : lag_results_t =>
             py_len (fst st) = Z.max 0 lag_range /\ nth 0 (fst st) 0 = 0)
            (candidates, max_correlation_val)).
  apply for_each_preserves;
    [|split; [apply py_repeat_length | apply nth_py_repeat_zero]].
  intros st lag_val st' _ Hinv Hbody. unfold peak_body in Hbody.
  destruct (peak_ok lag_range (fst lag_val)) eqn:Hpeak;
    [|now inversion Hbody; subst].
  unfold peak_ok in Hpeak. apply andb_prop in Hpeak as [Hlow _].
  apply Z.ltb_lt in Hlow.
  revert Hinv Hbody.
  apply (for_each_preserves (neighbour_body a params current_frame)
           (fun st : lag_results_t =>
              py_len (fst st) = Z.max 0 lag_range /\ nth 0 (fst st) 0 = 0)).
  intros s k s' Hk [Hlen Hzero] Hbody. apply in_xrange in Hk.
  apply neighbour_body_inv in Hbody as [[_ ->]|(v & _ & _ & _ & Hfst & _)];
    [auto | | lia].
  rewrite Hfst. split.
  - unfold py_len in *. now rewrite list_update_length.
  - rewrite nth_list_update.
    destruct (Nat.eqb_spec 0 (Z.to_nat k)); [lia | assumption].
Qed.

(** X9.  With at least one lag to scan, a threshold factor
    [min_acceptable_peak_val] of at most 1 and room for one voiced
    hypothesis, a frame of the second pass that returns has at least one
    candidate: the largest correlation of the frame reaches the threshold
    when it is positive, and lag 0, which the scan never writes, reaches it
    otherwise. *)
Theorem second_pass_frame_not_empty
    (a : audio) (params : params_t) (current_frame lag_range : Z)
    (first_pass : list (list hypothesis)) (returned : list hypothesis) :
  (1 <= lag_range)%Z ->
  min_acceptable_peak_val (fst params) <= 1 ->
  (2 <= max_hypotheses_per_frame (fst params))%Z ->
  _get_secondpass_frame_results a current_frame lag_range params first_pass
  = Ok returned ->
  returned <> [].
Proof.
  intros Hrange Hpeak Hmax. unfold _get_secondpass_frame_results.
  destruct (_get_correlations_for_input_lags _ _ _ _ _) as [[candidates mx]|] eqn:Escan;
    cbn [bind]; [|discriminate].
  pose proof (second_pass_scan_shape _ _ _ _ _ _ _ Escan) as [Hlen Hzero].
  apply second_pass_scan_invariant in Escan as [Hmx _]. cbn [fst snd] in Hmx.
  unfold _get_marked_results. rewrite marked_second_pass. cbn [bind].
  intros H. inversion H as [Hret]. clear H Hret.
  set (passing := filter _ _).
  assert (Hsome : exists kv, In kv passing).
  { destruct (largest_or_zero_attained candidates) as [H0|Hin].
    - exists (0%Z, 0). apply filter_In. split.
      + apply (enumerate_in _ _ _ 0). split; [cbn [fst]; lia | exact Hzero].
      + apply above_threshold_spec. cbn [fst snd]. rewrite Hmx, H0. lra.
    - apply (In_nth _ _ 0) in Hin as (i & Hi & Hv).
      exists (Z.of_nat i, mx). apply filter_In. split.
      + apply (enumerate_in _ _ _ 0). cbn [fst]. unfold py_len.
        rewrite Nat2Z.id. split; [lia | congruence].
      + apply above_threshold_spec. cbn [fst snd].
        pose proof (largest_or_zero_nonneg candidates). rewrite <- Hmx in *.
        nra. }
  assert (Hpos : (0 < length (map (second_pass_candidate params) passing))%nat).
  { rewrite length_map. destruct Hsome as [kv Hkv].
    destruct passing; [contradiction | cbn; lia]. }
  set (marked := map _ passing) in *.
  unfold cap_candidates. cbv zeta.
  destruct (Z.ltb_spec (max_hypotheses_per_frame (fst params) - 1) (py_len marked))
    as [Hcap|Hcap]; [|intros E; rewrite E in Hpos; cbn in Hpos; lia].
  rewrite py_slice_prefix by lia. intros E.
  apply (f_equal (@length hypothesis)) in E.
  rewrite (Permutation_length (sort_by_lag_perm _)), length_firstn in E.
  rewrite (Permutation_length (sort_by_corr_desc_perm marked)) in E.
  unfold py_len in Hcap. cbn [length] in E. lia.
Qed.

Lemma toy_second_frame_not_empty : [(9%Z, 97 / sqrt 50012)] <> [].
Proof.
  apply (second_pass_frame_not_empty toy_original (toy_raptparams, toy_second_geometry)
           0 15 [[(11%Z, 1)]]).
  - lia.
  - cbn. lra.
  - cbn. lia.
  - exact toy_second_frame.
Defined.

(** ** The tracker in closed form *)

Lemma py_getitem_in {A : Type} (l : list A) (i : Z) (x : A) :
  py_getitem l i = Ok x -> In x l.
Proof.
  unfold py_getitem. cbv zeta. destruct (_ && _); [|discriminate].
  destruct (nth_error l _) eqn:E; [|discriminate].
  intros H. inversion H; subst. now apply nth_error_In in E.
Qed.

Lemma hd_add_unvoiced (nccf_results : list (list hypothesis)) :
  map (fun frame => fst (hd unvoiced frame)) (add_unvoiced nccf_results)
  = map (fun frame => fst (hd unvoiced frame)) nccf_results.
Proof.
  unfold add_unvoiced. rewrite map_map. apply map_ext.
  intros [|h frame]; reflexivity.
Qed.

(** X10.  On no frame at all the tracker raises [IndexError].  Whenever it
    returns, it returns for every frame the frequency [sample_rate / lag] of
    the first hypothesis of the frame when that lag is positive, and 0 when
    it is not or when the frame has no hypothesis: the costs play no part. *)
Theorem freq_estimate_closed_form (nccf_results : list (list hypothesis))
    (raptparam : Raptparams) (sample_rate : Z) :
  _get_freq_estimate [] raptparam sample_rate = Raise IndexError
  /\ forall estimates,
       _get_freq_estimate nccf_results raptparam sample_rate = Ok estimates ->
       estimates
       = map (fun frame => freq_of_lag sample_rate (fst (hd unvoiced frame)))
           nccf_results.
Proof.
  split; [reflexivity|].
  intros estimates. unfold _get_freq_estimate.
  destruct (_determine_state_per_frame nccf_results raptparam sample_rate)
    as [lags|] eqn:Estate; cbn [bind]; [|discriminate].
  apply determine_state_returns_first_lags in Estate.
  rewrite hd_add_unvoiced in Estate. subst lags.
  intros H. inversion H. now rewrite map_map.
Qed.

Lemma toy_estimate_closed_form :
  _get_freq_estimate [] toy_raptparams 16 = Raise IndexError
  /\ [1] = map (fun frame => freq_of_lag 16 (fst (hd unvoiced frame)))
             [[(9%Z, 97 / sqrt 50012)]].
Proof.
  destruct (freq_estimate_closed_form [[(9%Z, 97 / sqrt 50012)]] toy_raptparams 16)
    as [Hempty Hclosed].
  split; [exact Hempty|]. apply Hclosed. exact toy_estimate.
Defined.

(** ** Adding a constant to every sample *)

Lemma py_sum_offset (d : R) (l : list R) :
  py_sum (map (Rplus d) l) = py_sum l + d * IZR (py_len l).
Proof.
  rewrite !py_sum_fold_right. unfold py_len.
  induction l as [|x l IH]; cbn [map fold_right length]; [cbn; lra|].
  rewrite IH, Nat2Z.inj_succ, succ_IZR. lra.
Qed.

Lemma py_slice_length_inside {A : Type} (l : list A) (a b : Z) :
  (0 <= a <= b)%Z -> (b <= py_len l)%Z -> py_len (py_slice l a b) = (b - a)%Z.
Proof.
  intros Hab Hb. unfold py_slice, slice_bound, py_len in *.
  replace (a <? 0)%Z with false by lia. replace (b <? 0)%Z with false by lia.
  rewrite !Z.min_l by lia. rewrite length_firstn, length_skipn. lia.
Qed.

Section Offset.

Variable d : R.
Variable a : audio.

Lemma offset_sample (frame_start idx : Z) (np : Nccfparams) (mean : R) :
  _get_sample (offset d a) frame_start idx np (mean + d)
  = _get_sample a frame_start idx np mean.
Proof.
  unfold _get_sample, offset. cbn [snd]. rewrite py_getitem_map.
  destruct (py_getitem (snd a) _); cbn [bind]; [|reflexivity].
  f_equal. ring.
Qed.

Lemma offset_past_end (frame lag : Z) (params : params_t) :
  past_end (offset d a) frame lag params = past_end a frame lag params.
Proof. unfold past_end, offset. cbn [snd]. now rewrite py_len_map. Qed.

Lemma offset_geometry (raptparam : Raptparams) (is_firstpass : bool) :
  _get_nccf_params (offset d a) raptparam is_firstpass
  = _get_nccf_params a raptparam is_firstpass.
Proof. unfold _get_nccf_params, offset. cbn [fst snd]. now rewrite py_len_map. Qed.

(** When the reference window runs past the end of the buffer the loop of
    the numerator raises [IndexError], whatever the mean. *)
Lemma numerator_past_end (b : audio) (m n lag : Z) (np : Nccfparams) (mean : R) :
  (0 < n)%Z -> (0 <= m)%Z -> (py_len (snd b) < m + n)%Z ->
  for_each
    (fun samples j =>
       correlated_samples <- _get_sample b m j np mean ;;
       samples_for_lag <- _get_sample b m (j + lag) np mean ;;
       Ok (samples + correlated_samples * samples_for_lag))
    (xrange 0 n) 0
  = Raise IndexError.
Proof.
  intros Hn Hm Hlen.
  match goal with
  | |- ?loop = _ => destruct loop as [samples|e] eqn:Eloop
  end.
  - exfalso.
    destruct (for_each_must_raise
                (fun samples j =>
                   correlated_samples <- _get_sample b m j np mean ;;
                   samples_for_lag <- _get_sample b m (j + lag) np mean ;;
                   Ok (samples + correlated_samples * samples_for_lag))
                (xrange 0 n) (n - 1)%Z) with (s := 0) as [e He].
    + apply in_xrange. lia.
    + intros s. unfold _get_sample at 1. rewrite py_getitem_past by lia.
      cbn [bind]. eauto.
    + congruence.
  - f_equal.
    apply (for_each_raises _ (fun e => e = IndexError) _) with (s := 0) (e := e)
      in Eloop; [assumption|].
    intros s j e' _ Hbody.
    destruct (_get_sample b m j np mean) as [c|e1] eqn:E1; cbn [bind] in Hbody.
    + destruct (_get_sample b m (j + lag) np mean) as [c'|e2] eqn:E2;
        cbn [bind] in Hbody; [discriminate|].
      inversion Hbody; subst. now apply get_sample_raises in E2.
    + inversion Hbody; subst. now apply get_sample_raises in E1.
Qed.

(** The correlator subtracts the mean of the window from every sample it
    reads, so it does not see the offset. *)
Lemma offset_correlation (frame lag : Z) (params : params_t) (is_firstpass : bool) :
  (0 <= frame * samples_per_frame (snd params))%Z ->
  _get_correlation (offset d a) frame lag params is_firstpass
  = _get_correlation a frame lag params is_firstpass.
Proof.
  intros Hm. unfold _get_correlation. cbv zeta.
  set (np := snd params) in *. set (n := samples_correlated_per_lag np).
  set (m := (frame * samples_per_frame np)%Z) in *.
  unfold py_div at 1 3.
  destruct (Req_dec_T (IZR n) 0) as [Hz|Hnz];
    [rewrite !Reqb_true by assumption; reflexivity|].
  rewrite !Reqb_false by assumption. cbn [bind].
  assert (Hn : n <> 0%Z) by (intros E; apply Hnz; now rewrite E).
  destruct (Z_lt_le_dec n 0) as [Hneg|Hpos].
  - (* no sample is read *)
    unfold _get_nccf_denominator_val. fold n.
    rewrite !(xrange_nil _ _) by lia. reflexivity.
  - destruct (Z_lt_le_dec (py_len (snd a)) (m + n)) as [Hout|Hin].
    + assert (Hout' : (py_len (snd (offset d a)) < m + n)%Z)
        by (unfold offset; cbn [snd]; rewrite py_len_map; exact Hout).
      assert (Hn' : (0 < n)%Z) by lia.
      rewrite (numerator_past_end a m n lag np _ Hn' Hm Hout).
      rewrite (numerator_past_end (offset d a) m n lag np _ Hn' Hm Hout').
      reflexivity.
    + set (mean := 1 / IZR n * py_sum (py_slice (snd a) m (m + n))).
      assert (Hmean : 1 / IZR n * py_sum (py_slice (snd (offset d a)) m (m + n))
                      = mean + d).
      { unfold offset. cbn [snd]. rewrite py_slice_map, py_sum_offset.
        rewrite py_slice_length_inside by lia.
        replace (m + n - m)%Z with n by lia. subst mean. field. assumption. }
      rewrite Hmean.
      unfold _get_nccf_denominator_val.
      rewrite (for_each_ext
                 (fun samples j =>
                    correlated_samples <- _get_sample (offset d a) m j np (mean + d) ;;
                    samples_for_lag <-
                      _get_sample (offset d a) m (j + lag) np (mean + d) ;;
                    Ok (samples + correlated_samples * samples_for_lag))
                 (fun samples j =>
                    correlated_samples <- _get_sample a m j np mean ;;
                    samples_for_lag <- _get_sample a m (j + lag) np mean ;;
                    Ok (samples + correlated_samples * samples_for_lag)))
        by (intros s j _; now rewrite !offset_sample).
      rewrite !(for_each_ext
                  (fun total_sum l =>
                     sample <- _get_sample (offset d a) m l np (mean + d) ;;
                     Ok (total_sum + sample * sample))
                  (fun total_sum l =>
                     sample <- _get_sample a m l np mean ;;
                     Ok (total_sum + sample * sample)))
        by (intros s j _; now rewrite offset_sample).
      reflexivity.
Qed.

Lemma offset_all_lags (frame lag_range : Z) (params : params_t) :
  (0 <= frame * samples_per_frame (snd params))%Z ->
  _get_correlations_for_all_lags (offset d a) frame lag_range params
  = _get_correlations_for_all_lags a frame lag_range params.
Proof.
  intros Hm. unfold _get_correlations_for_all_lags. apply for_each_ext. intros st k _.
  rewrite offset_past_end, offset_correlation by assumption. reflexivity.
Qed.

Lemma offset_input_lags (frame lag_range : Z) (first_pass : list (list hypothesis))
    (params : params_t) :
  (0 <= frame * samples_per_frame (snd params))%Z ->
  _get_correlations_for_input_lags (offset d a) frame first_pass lag_range params
  = _get_correlations_for_input_lags a frame first_pass lag_range params.
Proof.
  intros Hm. unfold _get_correlations_for_input_lags. cbv zeta.
  destruct (py_getitem first_pass frame); cbn [bind]; [|reflexivity].
  apply for_each_ext. intros st lag_val _.
  destruct (peak_ok _ _); [|reflexivity].
  apply for_each_ext. intros st' k _.
  rewrite offset_past_end, offset_correlation by assumption. reflexivity.
Qed.

End Offset.

(** A buffer that has a frame at all has a positive frame advance. *)
Lemma frames_start_in_buffer (audio_input : audio) (raptparams : Raptparams)
    (is_firstpass : bool) (nccfparam : Nccfparams) (i : Z) :
  _get_nccf_params audio_input raptparams is_firstpass = Ok nccfparam ->
  In i (xrange 0 (max_frame_count nccfparam)) ->
  (0 <= i * samples_per_frame nccfparam)%Z.
Proof.
  intros Hgeo Hi. apply get_nccf_params_inv in Hgeo as (_ & _ & _ & _ & _ & Hz & HM).
  apply in_xrange in Hi. rewrite HM in Hi.
  set (z := samples_per_frame nccfparam) in *.
  destruct (Z_lt_le_dec z 0) as [Hneg|Hpos]; [|nia].
  exfalso.
  assert (Hlen : (0 <= py_len (snd audio_input))%Z) by (unfold py_len; lia).
  pose proof (Z.quot_opp_r (py_len (snd audio_input)) (- z)) as Hq.
  rewrite Z.opp_involutive in Hq.
  pose proof (Z.quot_pos (py_len (snd audio_input)) (- z)).
  lia.
Qed.

Lemma offset_first_pass (d : R) (a : audio) (raptparam : Raptparams) :
  _first_pass_nccf (offset d a) raptparam = _first_pass_nccf a raptparam.
Proof.
  unfold _first_pass_nccf. rewrite offset_geometry.
  destruct (_get_nccf_params a raptparam true) as [nccfparam|] eqn:Egeo;
    cbn [bind]; [|reflexivity].
  unfold frame_loop. apply for_each_ext. intros st i Hi.
  unfold _get_firstpass_frame_results. rewrite offset_all_lags; [reflexivity|].
  apply (frames_start_in_buffer _ _ _ _ _ Egeo Hi).
Qed.

Lemma offset_second_pass (d : R) (a : audio) (first_pass : list (list hypothesis))
    (raptparam : Raptparams) :
  _second_pass_nccf (offset d a) first_pass raptparam
  = _second_pass_nccf a first_pass raptparam.
Proof.
  unfold _second_pass_nccf. rewrite offset_geometry.
  destruct (_get_nccf_params a raptparam false) as [nccfparam|] eqn:Egeo;
    cbn [bind]; [|reflexivity].
  unfold frame_loop. apply for_each_ext. intros st i Hi.
  unfold _get_secondpass_frame_results. rewrite offset_input_lags; [reflexivity|].
  apply (frames_start_in_buffer _ _ _ _ _ Egeo Hi).
Qed.

(** X11.  Adding one constant to every sample of both buffers changes
    nothing: the correlator removes the mean of the reference window from
    every sample it reads, so each correlation of a frame that starts inside
    the buffer, both passes and the estimate of [rapt] are the same, errors
    included. *)
Theorem offset_invariance
    (original_audio downsampled_audio : audio) (raptparam : Raptparams) (d : R) :
  (forall frame lag params is_firstpass,
      (0 <= frame * samples_per_frame (snd params))%Z ->
      _get_correlation (offset d original_audio) frame lag params is_firstpass
      = _get_correlation original_audio frame lag params is_firstpass)
  /\ _run_nccf (offset d downsampled_audio) (offset d original_audio) raptparam
     = _run_nccf downsampled_audio original_audio raptparam
  /\ rapt (offset d original_audio) (offset d downsampled_audio) raptparam
     = rapt original_audio downsampled_audio raptparam.
Proof.
  split; [intros; now apply offset_correlation|].
  assert (Hrun : forall p,
             _run_nccf (offset d downsampled_audio) (offset d original_audio) p
             = _run_nccf downsampled_audio original_audio p).
  { intros p. unfold _run_nccf. rewrite offset_first_pass.
    destruct (_first_pass_nccf downsampled_audio p); cbn [bind]; [|reflexivity].
    apply offset_second_pass. }
  split; [apply Hrun|].
  unfold rapt. cbn [offset fst].
  destruct (py_div _ _) as [ratio|e]; cbn [bind]; [|reflexivity].
  change (fst downsampled_audio, map (Rplus d) (snd downsampled_audio))
    with (offset d downsampled_audio).
  change (fst original_audio, map (Rplus d) (snd original_audio))
    with (offset d original_audio).
  now rewrite Hrun.
Qed.

Lemma offset_toy_estimate :
  _get_correlation (offset 5 toy_original) 0 8 (toy_raptparams, toy_second_geometry) false
  = Ok (4 / sqrt 10016)
  /\ rapt (offset 5 toy_original) (offset 5 toy_downsampled) toy_raptparams = Ok [1].
Proof.
  destruct (offset_invariance toy_original toy_downsampled toy_raptparams 5)
    as (Hcorrelation & _ & Hrapt).
  split.
  - rewrite Hcorrelation; [exact toy_second_correlation_8 | vm_compute; discriminate].
  - rewrite Hrapt. exact toy_rapt.
Defined.

(** ** The second pass reads one frame of the first pass per frame *)

Lemma xrange_split (a b c : Z) :
  (a <= b <= c)%Z -> xrange a c = xrange a b ++ xrange b c.
Proof.
  intros H. unfold xrange.
  replace (Z.to_nat (c - a)) with (Z.to_nat (b - a) + Z.to_nat (c - b))%nat by lia.
  rewrite seq_app, map_app. f_equal. cbn [Nat.add].
  assert (Hshift : forall m s,
             map (fun i => (a + Z.of_nat i)%Z) (seq (Z.to_nat (b - a) + s) m)
             = map (fun i => (b + Z.of_nat i)%Z) (seq s m)).
  { induction m as [|m IH]; intros s; cbn [seq map]; [reflexivity|].
    f_equal; [lia|]. rewrite <- Nat.add_succ_r. apply IH. }
  rewrite <- (Hshift _ 0%nat). now rewrite Nat.add_0_r.
Qed.

Lemma second_pass_frame_returns
    (a : audio) (params : params_t) (current_frame lag_range : Z)
    (first_pass : list (list hypothesis)) :
  (0 < samples_correlated_per_lag (snd params))%Z ->
  (0 <= current_frame * samples_per_frame (snd params))%Z ->
  0 < additive_constant (fst params) ->
  (0 <= current_frame < py_len first_pass)%Z ->
  exists returned,
    _get_secondpass_frame_results a current_frame lag_range params first_pass
    = Ok returned.
Proof.
  intros Hn Hm HC Hframe. unfold _get_secondpass_frame_results.
  unfold _get_correlations_for_input_lags. cbv zeta.
  rewrite (py_getitem_ok _ _ []) by assumption. cbn [bind].
  change (for_each _ (nth _ first_pass []) ?init)
    with (for_each (peak_body a params current_frame lag_range)
            (nth (Z.to_nat current_frame) first_pass []) init).
  destruct (for_each_invariant (peak_body a params current_frame lag_range)
              (fun st => py_len (fst st) = Z.max 0 lag_range)
              (nth (Z.to_nat current_frame) first_pass []))
    with (s := (py_repeat 0 lag_range, 0)) as (st & -> & _).
  - intros s lag_val _ Hs. now apply peak_body_total.
  - apply py_repeat_length.
  - cbn [bind]. unfold _get_marked_results. rewrite marked_second_pass. cbn [bind].
    eauto.
Qed.

Lemma second_pass_frame_missing
    (a : audio) (params : params_t) (current_frame lag_range : Z)
    (first_pass : list (list hypothesis)) :
  (py_len first_pass <= current_frame)%Z ->
  _get_secondpass_frame_results a current_frame lag_range params first_pass
  = Raise IndexError.
Proof.
  intros Hframe. unfold _get_secondpass_frame_results.
  unfold _get_correlations_for_input_lags. cbv zeta.
  now rewrite py_getitem_past by assumption.
Qed.

(** X12.  With a positive window and a positive additive constant, the
    second pass returns exactly when the first pass has a frame for each of
    its own frames, and it then returns one list per frame; when it has more
    frames than the first pass it raises [IndexError]. *)
Theorem second_pass_needs_first_pass_frames
    (original_audio : audio) (first_pass : list (list hypothesis))
    (raptparam : Raptparams) (nccfparam : Nccfparams) :
  _get_nccf_params original_audio raptparam false = Ok nccfparam ->
  (0 < samples_correlated_per_lag nccfparam)%Z ->
  0 < additive_constant raptparam ->
  if (max_frame_count nccfparam <=? py_len first_pass)%Z
  then exists nccf_results,
         _second_pass_nccf original_audio first_pass raptparam = Ok nccf_results
         /\ py_len nccf_results = Z.max 0 (max_frame_count nccfparam)
  else _second_pass_nccf original_audio first_pass raptparam = Raise IndexError.
Proof.
  intros Hgeo Hn HC. unfold _second_pass_nccf. rewrite Hgeo. cbn [bind].
  set (lag_range := (longest_lag_per_frame nccfparam - 1
                     - shortest_lag_per_frame nccfparam)%Z).
  set (f := fun i => _get_secondpass_frame_results original_audio i lag_range
                       (raptparam, nccfparam) first_pass).
  assert (Hreturns : forall i, In i (xrange 0 (max_frame_count nccfparam)) ->
                       (i < py_len first_pass)%Z -> exists r, f i = Ok r).
  { intros i Hi Hlt. apply second_pass_frame_returns; try assumption.
    - apply (frames_start_in_buffer _ _ _ _ _ Hgeo Hi).
    - apply in_xrange in Hi. lia. }
  assert (Hloop : forall b st, (b <= max_frame_count nccfparam)%Z ->
                    (b <= py_len first_pass)%Z ->
                    exists st',
                      for_each (fun candidates i => r <- f i ;; Ok (candidates ++ [r]))
                        (xrange 0 b) st = Ok st').
  { intros b st Hb Hb'.
    destruct (for_each_invariant
                (fun candidates i => r <- f i ;; Ok (candidates ++ [r]))
                (fun _ => True) (xrange 0 b)) with (s := st) as (st' & Hst' & _);
      [|exact I|eauto].
    intros s i Hi _. apply in_xrange in Hi.
    destruct (Hreturns i) as [r ->]; [apply in_xrange; lia | lia |].
    cbn [bind]. eauto. }
  destruct (Z.leb_spec (max_frame_count nccfparam) (py_len first_pass)) as [Hle|Hgt].
  - destruct (Hloop (max_frame_count nccfparam) []) as [results Hresults];
      [lia | lia |].
    exists results. split; [exact Hresults|].
    apply (frame_loop_forall _ f (fun _ => True)) in Hresults as [_ Hlen]; [|auto].
    unfold py_len. lia.
  - unfold frame_loop.
    assert (Hfp : (0 <= py_len first_pass)%Z) by (unfold py_len; lia).
    rewrite (xrange_split 0 (py_len first_pass)) by lia. rewrite for_each_app.
    destruct (Hloop (py_len first_pass) []) as [st ->]; [lia | lia |]. cbn [bind].
    rewrite xrange_cons by lia. cbn [for_each]. unfold f at 1.
    rewrite second_pass_frame_missing by lia. reflexivity.
Qed.

Lemma toy_second_pass_has_its_frame :
  exists nccf_results,
    _second_pass_nccf toy_original [[(11%Z, 1)]] toy_raptparams = Ok nccf_results
    /\ py_len nccf_results = Z.max 0 1.
Proof.
  apply (second_pass_needs_first_pass_frames toy_original [[(11%Z, 1)]] toy_raptparams
           toy_second_geometry).
  - reflexivity.
  - reflexivity.
  - cbn. lra.
Defined.

(** ** What [rapt] returns *)

Lemma geometry_ignores_ratio (a : audio) (raptparam : Raptparams) (ratio : R)
    (is_firstpass : bool) :
  _get_nccf_params a (with_sample_rate_ratio raptparam ratio) is_firstpass
  = _get_nccf_params a raptparam is_firstpass.
Proof. reflexivity. Qed.

Lemma second_pass_geometry (a : audio) (raptparam : Raptparams) (nccfparam : Nccfparams) :
  _get_nccf_params a raptparam false = Ok nccfparam ->
  shortest_lag_per_frame nccfparam = 0%Z
  /\ longest_lag_per_frame nccfparam = (fst a / minimum_allowed_freq raptparam)%Z.
Proof.
  intros Hgeo. apply get_nccf_params_inv in Hgeo as (_ & Hkmin & _ & HK & _). auto.
Qed.

(** The lags of the hypotheses a second-pass frame returns are lag indices
    of the scan, shifted by the shortest lag. *)
Lemma second_pass_frame_lags
    (a : audio) (params : params_t) (current_frame lag_range : Z)
    (first_pass : list (list hypothesis)) (returned : list hypothesis) :
  _get_secondpass_frame_results a current_frame lag_range params first_pass
  = Ok returned ->
  Forall
    (fun h : hypothesis =>
       (shortest_lag_per_frame (snd params) <= fst h
        < shortest_lag_per_frame (snd params) + Z.max 0 lag_range)%Z)
    returned.
Proof.
  unfold _get_secondpass_frame_results.
  destruct (_get_correlations_for_input_lags _ _ _ _ _) as [[candidates mx]|] eqn:Escan;
    cbn [bind]; [|discriminate].
  apply second_pass_scan_shape in Escan as [Hlen _].
  unfold _get_marked_results. rewrite marked_second_pass. cbn [bind].
  intros H. inversion H; subst. clear H.
  apply Forall_forall. intros h Hh.
  apply (proj1 (cap_candidates_keeps_best _ params)) in Hh.
  apply in_map_iff in Hh as ([k v] & <- & Hin).
  apply filter_In in Hin as [Hin _].
  apply (enumerate_in _ _ _ 0) in Hin as [Hk _].
  cbn [fst snd second_pass_candidate] in *. unfold second_pass_candidate. cbn [fst].
  lia.
Qed.

(** A positive lag below [sample_rate / minimum_f0] gives a frequency
    between the minimum and the sample rate. *)
Lemma freq_of_lag_range (sample_rate floor lag : Z) :
  (0 < floor)%Z -> (0 < lag < sample_rate / floor)%Z ->
  (floor <= sample_rate / lag <= sample_rate)%Z.
Proof.
  intros Hfloor Hlag.
  pose proof (Z.mul_div_le sample_rate floor Hfloor) as Hmul.
  assert (Hrate : (0 <= sample_rate)%Z) by nia.
  split.
  - apply Z.div_le_lower_bound; [lia | nia].
  - apply Z.div_le_upper_bound; [lia | nia].
Qed.

(** X13.  With a positive minimum frequency, when [rapt] returns it returns
    one estimate per frame of the original buffer, of which there is at
    least one, and every estimate is a whole number: 0, or a frequency
    between [minimum_allowed_freq] and the sample rate. *)
Theorem rapt_estimates
    (original_audio downsampled_audio : audio) (raptparam : Raptparams)
    (estimates : list R) :
  (0 < minimum_allowed_freq raptparam)%Z ->
  rapt original_audio downsampled_audio raptparam = Ok estimates ->
  exists nccfparam,
    _get_nccf_params original_audio raptparam false = Ok nccfparam
    /\ (1 <= max_frame_count nccfparam)%Z
    /\ py_len estimates = max_frame_count nccfparam
    /\ Forall
         (fun estimate =>
            exists q : Z,
              estimate = IZR q
              /\ (q = 0 \/ minimum_allowed_freq raptparam <= q <= fst original_audio)%Z)
         estimates.
Proof.
  intros Hfloor. unfold rapt.
  destruct (py_div _ _) as [ratio|]; cbn [bind]; [|discriminate].
  set (p := with_sample_rate_ratio raptparam ratio).
  unfold _run_nccf.
  destruct (_first_pass_nccf downsampled_audio p) as [first_pass|];
    cbn [bind]; [|discriminate].
  destruct (_second_pass_nccf original_audio first_pass p) as [nccf_results|] eqn:Esecond;
    cbn [bind]; [|discriminate].
  unfold _get_freq_estimate.
  destruct (_determine_state_per_frame nccf_results p (fst original_audio))
    as [lags|] eqn:Estate; cbn [bind]; [|discriminate].
  intros H. inversion H; subst estimates. clear H.
  assert (Hne : nccf_results <> []).
  { intros ->. discriminate Estate. }
  apply determine_state_returns_first_lags in Estate.
  rewrite hd_add_unvoiced in Estate. subst lags.
  unfold _second_pass_nccf in Esecond. subst p.
  rewrite geometry_ignores_ratio in Esecond.
  destruct (_get_nccf_params original_audio raptparam false) as [nccfparam|] eqn:Egeo;
    cbn [bind] in Esecond; [|discriminate].
  exists nccfparam. split; [reflexivity|].
  destruct (second_pass_geometry _ _ _ Egeo) as [Hkmin HK].
  apply frame_loop_forall
    with (P := fun frame : list hypothesis =>
                 Forall
                   (fun h : hypothesis =>
                      (0 <= fst h
                       < Z.max 0 (fst original_audio / minimum_allowed_freq raptparam
                                  - 1))%Z) frame)
    in Esecond as [Hframes Hlen].
  - assert (Hcount : (1 <= max_frame_count nccfparam)%Z).
    { destruct nccf_results; [contradiction | cbn [length] in Hlen; lia]. }
    split; [assumption|]. split.
    + unfold py_len. rewrite !length_map. lia.
    + rewrite map_map. apply Forall_map.
      eapply Forall_impl; [|exact Hframes]. intros frame Hframe.
      destruct frame as [|h frame]; cbn [hd fst unvoiced].
      * exists 0%Z. split; [reflexivity | now left].
      * inversion Hframe as [|? ? Hh _]; subst. unfold freq_of_lag.
        destruct (Z.ltb_spec 0 (fst h)) as [Hpos|Hzero].
        -- exists (fst original_audio / fst h)%Z. split; [reflexivity|]. right.
           apply freq_of_lag_range; [assumption | lia].
        -- exists 0%Z. split; [reflexivity | now left].
  - intros i r Hr. apply second_pass_frame_lags in Hr. cbn [snd] in Hr.
    rewrite Hkmin, HK in Hr.
    eapply Forall_impl; [|exact Hr]. intros h Hh. cbn beta in Hh. lia.
Qed.

Lemma toy_estimates_in_range :
  exists nccfparam,
    _get_nccf_params toy_original toy_raptparams false = Ok nccfparam
    /\ (1 <= max_frame_count nccfparam)%Z
    /\ py_len [1] = max_frame_count nccfparam
    /\ Forall
         (fun estimate =>
            exists q : Z,
              estimate = IZR q
              /\ (q = 0 \/ minimum_allowed_freq toy_raptparams <= q <= fst toy_original)%Z)
         [1].
Proof.
  apply (rapt_estimates toy_original toy_downsampled toy_raptparams [1]).
  - reflexivity.
  - exact toy_rapt.
Defined.

(** X14.  A buffer too short for one frame is not answered with an empty
    list: when the first pass returns and the geometry of the original
    buffer has no frame ([max_frame_count <= 0], that is fewer than two
    frame advances of samples), [rapt] raises [IndexError]. *)
Theorem rapt_without_frames
    (original_audio downsampled_audio : audio) (raptparam : Raptparams)
    (nccfparam : Nccfparams) (first_pass : list (list hypothesis)) :
  fst downsampled_audio <> 0%Z ->
  _first_pass_nccf downsampled_audio
    (with_sample_rate_ratio raptparam
       (IZR (fst original_audio) / IZR (fst downsampled_audio)))
  = Ok first_pass ->
  _get_nccf_params original_audio raptparam false = Ok nccfparam ->
  (max_frame_count nccfparam <= 0)%Z ->
  rapt original_audio downsampled_audio raptparam = Raise IndexError.
Proof.
  intros Hrate Hfirst Hgeo Hcount. unfold rapt.
  rewrite py_div_ok by (apply not_0_IZR; assumption). cbn [bind].
  unfold _run_nccf. rewrite Hfirst. cbn [bind].
  unfold _second_pass_nccf. rewrite geometry_ignores_ratio, Hgeo. cbn [bind].
  unfold frame_loop. rewrite xrange_nil by lia. reflexivity.
Qed.

Lemma rapt_on_four_samples :
  rapt (16%Z, [1; -1; 1; -1]) (8%Z, [1; -1]) toy_raptparams = Raise IndexError.
Proof.
  apply (rapt_without_frames (16%Z, [1; -1; 1; -1]) (8%Z, [1; -1]) toy_raptparams
           {| samples_correlated_per_lag := 4; shortest_lag_per_frame := 0;
              longest_lag_per_frame := 16; samples_per_frame := 6;
              max_frame_count := -1 |} []).
  - discriminate.
  - reflexivity.
  - reflexivity.
  - discriminate.
Defined.

(** ** The transition costs *)

Section TransitionValues.

Variable hanning : R -> list R.

Lemma rms_ratio_value (sample_rate : Z) (rr : R) :
  _get_rms_ratio hanning sample_rate = Ok rr -> rr = 1.
Proof.
  unfold _get_rms_ratio. cbv zeta.
  destruct (py_div _ _) as [mean|]; cbn [bind]; [|discriminate].
  destruct (py_sqrt mean) as [rms|]; cbn [bind]; [|discriminate].
  unfold py_div. destruct (Req_dec_T rms 0) as [Hz|Hnz].
  - rewrite Reqb_true by assumption. discriminate.
  - rewrite Reqb_false by assumption. intros H. inversion H. now field.
Qed.

End TransitionValues.

(** X15.  The two voicing transitions cost the same, whatever the audio and
    the window function: the two descriptors are constants (the spectral
    stationarity is 1, the RMS ratio is the quotient of a number by itself),
    so each function, when it returns, adds
    [transition_cost + spec_mod_transition_cost + amp_mod_transition_cost]
    to the cost of the previous entry. *)
Theorem voicing_transitions_are_constant
    (hanning : R -> list R) (candidate : hypothesis) (prev_entry : node)
    (params : Raptparams) (sample_rate : Z) (cost : R) :
  _get_voiced_to_unvoiced_cost hanning candidate prev_entry params sample_rate = Ok cost
  \/ _get_unvoiced_to_voiced_cost hanning candidate prev_entry params sample_rate
     = Ok cost ->
  cost = fst prev_entry
         + (transition_cost params + spec_mod_transition_cost params
            + amp_mod_transition_cost params).
Proof.
  unfold _get_voiced_to_unvoiced_cost, _get_unvoiced_to_voiced_cost. cbv zeta.
  rewrite spec_stationarity_value. cbn [bind].
  destruct (_get_rms_ratio hanning sample_rate) as [rr|] eqn:Err; cbn [bind];
    [|intros [H|H]; discriminate].
  apply rms_ratio_value in Err. subst rr.
  rewrite py_div_ok by lra. cbn [bind].
  intros [H|H]; inversion H; field.
Qed.

Lemma voicing_transition_at_defaults :
  _get_voiced_to_unvoiced_cost (fun _ => [1]) unvoiced (0, (10%Z, 1 / 2))
    default_raptparams 100
  = Ok (0 + (0.005 + 0.5 * 1 + 100 * 1))
  /\ 0 + (0.005 + 0.5 * 1 + 100 * 1)
     = fst (0, (10%Z, 1 / 2))
       + (transition_cost default_raptparams + spec_mod_transition_cost default_raptparams
          + amp_mod_transition_cost default_raptparams).
Proof.
  assert (Hcost : _get_voiced_to_unvoiced_cost (fun _ => [1]) unvoiced (0, (10%Z, 1 / 2))
                    default_raptparams 100
                  = Ok (0 + (0.005 + 0.5 * 1 + 100 * 1))).
  { unfold _get_voiced_to_unvoiced_cost. cbv zeta.
    rewrite spec_stationarity_value. cbn [bind].
    unfold _get_rms_ratio. cbv zeta.
    assert (Hmean : 0 < py_sum (map (fun w => w * w) [1]) / (0.03 * 100))
      by (unfold py_sum; cbn; apply Rdiv_lt_0_compat; lra).
    rewrite py_div_ok by lra. cbn [bind].
    rewrite py_sqrt_ok by lra. cbn [bind].
    pose proof (sqrt_lt_R0 _ Hmean) as Hrms.
    rewrite py_div_ok by lra. cbn [bind]. f_equal.
    set (rms := sqrt _) in *.
    replace (rms / rms) with 1 by (field; lra). reflexivity. }
  split; [exact Hcost|].
  apply (voicing_transitions_are_constant (fun _ => [1]) unvoiced (0, (10%Z, 1 / 2))
           default_raptparams 100).
  left. exact Hcost.
Defined.

(** X16.  Between two voiced hypotheses of positive lag, with a
    non-negative [freq_weight], the transition always returns and adds at
    least [freq_weight * doubling_cost] to the previous cost; it adds exactly
    that when the lag doubles, and only then when [freq_weight] is positive.
    A lag that stays the same costs [freq_weight * ln 2] more. *)
Theorem voiced_transition_is_least_on_doubling
    (candidate : hypothesis) (prev_entry : node) (params : Raptparams) :
  (0 < fst candidate)%Z ->
  (0 < fst (snd prev_entry))%Z ->
  0 <= freq_weight params ->
  exists cost,
    _get_voiced_to_voiced_cost candidate prev_entry params = Ok cost
    /\ fst prev_entry + freq_weight params * doubling_cost params <= cost
    /\ (fst candidate = (2 * fst (snd prev_entry))%Z ->
        cost = fst prev_entry + freq_weight params * doubling_cost params)
    /\ (0 < freq_weight params ->
        cost = fst prev_entry + freq_weight params * doubling_cost params ->
        fst candidate = (2 * fst (snd prev_entry))%Z)
    /\ (fst candidate = fst (snd prev_entry) ->
        cost = fst prev_entry
               + freq_weight params * (doubling_cost params + ln 2)).
Proof.
  intros Hlag Hprev Hw. unfold _get_voiced_to_voiced_cost. cbv zeta.
  assert (Hp : 0 < IZR (fst (snd prev_entry))) by now apply IZR_lt.
  assert (Hc : 0 < IZR (fst candidate)) by now apply IZR_lt.
  rewrite py_div_ok by lra. cbn [bind].
  set (ratio := IZR (fst candidate) / IZR (fst (snd prev_entry))).
  assert (Hratio : 0 < ratio) by (apply Rdiv_lt_0_compat; assumption).
  eexists. split; [reflexivity|].
  pose proof (Rabs_pos (ln ratio - ln 2)) as Habs.
  split; [nra|]. split; [|split].
  - intros Hdouble.
    assert (Hr : ratio = 2).
    { subst ratio. rewrite Hdouble, mult_IZR. field. lra. }
    rewrite Hr, Rminus_diag, Rabs_R0. ring.
  - intros Hpos Hcost.
    assert (Hzero : Rabs (ln ratio - ln 2) = 0) by nra.
    assert (Hln : ln ratio = ln 2).
    { destruct (Req_dec (ln ratio - ln 2) 0) as [E|E]; [lra|].
      apply Rabs_no_R0 in E. contradiction. }
    apply ln_inv in Hln; [|assumption|lra].
    apply eq_IZR. rewrite mult_IZR. subst ratio.
    apply (f_equal (fun r => r * IZR (fst (snd prev_entry)))) in Hln.
    unfold Rdiv in Hln. rewrite Rmult_assoc, Rinv_l, Rmult_1_r in Hln by lra.
    exact Hln.
  - intros Hsame.
    assert (Hr : ratio = 1) by (subst ratio; rewrite Hsame; field; lra).
    rewrite Hr, ln_1.
    assert (Hln2 : 0 < ln 2) by (rewrite <- ln_1; apply ln_increasing; lra).
    replace (0 - ln 2) with (- ln 2) by ring.
    rewrite Rabs_Ropp, Rabs_pos_eq by lra. reflexivity.
Qed.

Lemma voiced_transition_on_an_octave :
  exists cost,
    _get_voiced_to_voiced_cost (20%Z, 9 / 10) (1 / 2, (10%Z, 1 / 2)) default_raptparams
    = Ok cost
    /\ 1 / 2 + 0.02 * 0.35 <= cost
    /\ (20%Z = (2 * 10)%Z -> cost = 1 / 2 + 0.02 * 0.35)
    /\ (0 < 0.02 -> cost = 1 / 2 + 0.02 * 0.35 -> 20%Z = (2 * 10)%Z)
    /\ (20%Z = 10%Z -> cost = 1 / 2 + 0.02 * (0.35 + ln 2)).
Proof.
  apply (voiced_transition_is_least_on_doubling (20%Z, 9 / 10) (1 / 2, (10%Z, 1 / 2))
           default_raptparams).
  - reflexivity.
  - reflexivity.
  - cbn. lra.
Defined.

(** ** The local cost *)

Lemma select_max_from (frame : list hypothesis) (maxval : R) :
  0 <= maxval ->
  fold_left
    (fun maxval (h : hypothesis) => if Rgtb (snd h) maxval then snd h else maxval)
    frame maxval
  = Rmax maxval (largest_or_zero (map snd frame)).
Proof.
  revert maxval. induction frame as [|h frame IH]; intros maxval Hmax;
    cbn [fold_left map].
  - cbn. now rewrite Rmax_left.
  - rewrite raised_maximum_is_Rmax, IH.
    + change (largest_or_zero (snd h :: map snd frame))
        with (Rmax (snd h) (largest_or_zero (map snd frame))).
      now rewrite Rmax_assoc.
    + eapply Rle_trans; [exact Hmax | apply Rmax_l].
Qed.

Lemma select_max_is_largest (frame : list hypothesis) :
  _select_max_correlation_for_frame frame = largest_or_zero (map snd frame).
Proof.
  unfold _select_max_correlation_for_frame. rewrite select_max_from by lra.
  apply Rmax_right, largest_or_zero_nonneg.
Qed.

Lemma largest_or_zero_snoc (l : list R) :
  largest_or_zero (l ++ [0]) = largest_or_zero l.
Proof.
  induction l as [|x l IH].
  - cbn. apply Rmax_left. lra.
  - change (Rmax x (largest_or_zero (l ++ [0])) = Rmax x (largest_or_zero l)).
    now rewrite IH.
Qed.

(** X17.  The largest correlation of a frame, as the local cost of the
    unvoiced hypothesis uses it, is never negative, is at least every
    correlation of the frame, and is 0 or the correlation of one of its
    hypotheses; the unvoiced entry appended to the frame does not change
    it. *)
Theorem max_correlation_of_frame (frame : list hypothesis) :
  let m := _select_max_correlation_for_frame frame in
  0 <= m
  /\ (forall h, In h frame -> snd h <= m)
  /\ (m = 0 \/ exists h, In h frame /\ snd h = m)
  /\ _select_max_correlation_for_frame (frame ++ [unvoiced]) = m.
Proof.
  cbv zeta. rewrite !select_max_is_largest. split; [apply largest_or_zero_nonneg|].
  split; [|split].
  - intros h Hh. apply (in_map snd) in Hh.
    apply (In_nth _ _ 0) in Hh as (k & _ & <-). apply largest_or_zero_bound.
  - destruct (largest_or_zero_attained (map snd frame)) as [H0|Hin]; [now left|].
    right. apply in_map_iff in Hin as (h & Hh & Hin). eauto.
  - rewrite map_app. apply largest_or_zero_snoc.
Qed.

Lemma max_correlation_of_two_hypotheses :
  let m := _select_max_correlation_for_frame [(10%Z, 1 / 2); (20%Z, 9 / 10)] in
  0 <= m
  /\ (forall h, In h [(10%Z, 1 / 2); (20%Z, 9 / 10)] -> snd h <= m)
  /\ (m = 0 \/ exists h, In h [(10%Z, 1 / 2); (20%Z, 9 / 10)] /\ snd h = m)
  /\ _select_max_correlation_for_frame ([(10%Z, 1 / 2); (20%Z, 9 / 10)] ++ [unvoiced])
     = m.
Proof.
  exact (max_correlation_of_frame [(10%Z, 1 / 2); (20%Z, 9 / 10)]).
Defined.

Lemma quotient_nonneg (x y : R) : 0 <= x -> 0 < y -> 0 <= x / y.
Proof.
  intros Hx Hy. unfold Rdiv. apply Rmult_le_pos; [assumption|].
  left. now apply Rinv_0_lt_compat.
Qed.

(** X18.  The local cost of a voiced hypothesis lies between 0 and 1 when
    its correlation lies between 0 and 1, its lag between 0 and the longest
    lag [sample_rate / minimum_allowed_freq], and [lag_weight] between 0 and
    1; it is 1 for a correlation of 0 and does not grow with the
    correlation. *)
Theorem local_cost_of_voiced (candidate : hypothesis) (max_corr_for_frame : R)
    (params : Raptparams) (sample_rate : Z) :
  is_unvoiced candidate = false ->
  (0 < sample_rate)%Z ->
  (0 < minimum_allowed_freq params)%Z ->
  0 <= lag_weight params <= 1 ->
  0 <= snd candidate <= 1 ->
  0 <= IZR (fst candidate) <= IZR sample_rate / IZR (minimum_allowed_freq params) ->
  exists cost,
    _calculate_local_cost candidate max_corr_for_frame params sample_rate = Ok cost
    /\ 0 <= cost <= 1
    /\ (snd candidate = 0 -> cost = 1)
    /\ forall correlation cost',
         snd candidate <= correlation ->
         _calculate_local_cost (fst candidate, correlation) max_corr_for_frame params
           sample_rate = Ok cost' ->
         cost' <= cost.
Proof.
  intros Hvoiced Hrate Hfloor Hw Hc Hlag.
  assert (Hr : 0 < IZR sample_rate) by now apply IZR_lt.
  assert (Hf : 0 < IZR (minimum_allowed_freq params)) by now apply IZR_lt.
  assert (Hlongest : 0 < IZR sample_rate / IZR (minimum_allowed_freq params))
    by now apply Rdiv_lt_0_compat.
  set (longest := IZR sample_rate / IZR (minimum_allowed_freq params)) in *.
  assert (Hslope : 0 <= lag_weight params / longest * IZR (fst candidate) <= 1).
  { split.
    - apply Rmult_le_pos; [|lra]. apply quotient_nonneg; lra.
    - replace (lag_weight params / longest * IZR (fst candidate))
        with (lag_weight params * (IZR (fst candidate) / longest))
        by (field; lra).
      assert (0 <= IZR (fst candidate) / longest <= 1).
      { split; [apply quotient_nonneg; lra|].
        apply (Rmult_le_reg_r longest); [lra|].
        unfold Rdiv. rewrite Rmult_assoc, Rinv_l by lra. lra. }
      nra. }
  assert (Hcost : forall correlation,
             is_unvoiced (fst candidate, correlation) = false ->
             _calculate_local_cost (fst candidate, correlation) max_corr_for_frame
               params sample_rate
             = Ok (1 - correlation
                       * (1 - lag_weight params / longest * IZR (fst candidate)))).
  { intros correlation Hv. unfold _calculate_local_cost. cbv zeta. rewrite Hv.
    rewrite py_div_ok by lra. cbn [bind]. fold longest.
    rewrite py_div_ok by lra. reflexivity. }
  exists (1 - snd candidate * (1 - lag_weight params / longest * IZR (fst candidate))).
  split; [|split; [|split]].
  - rewrite <- (Hcost (snd candidate)); [now destruct candidate|].
    now destruct candidate.
  - nra.
  - intros ->. ring.
  - intros correlation cost' Hle Hcost'.
    destruct (is_unvoiced (fst candidate, correlation)) eqn:Hv.
    + (* the candidate of correlation 0 and lag 0 is the unvoiced entry *)
      unfold is_unvoiced in Hv. cbn [fst snd] in Hv.
      apply andb_prop in Hv as [Hlag0 Hcorr0].
      unfold Reqb in Hcorr0. destruct (Req_dec_T correlation 0); [|discriminate].
      assert (snd candidate = 0) by lra.
      exfalso. unfold is_unvoiced in Hvoiced. rewrite Hlag0 in Hvoiced.
      rewrite Reqb_true in Hvoiced by assumption. discriminate.
    + rewrite Hcost in Hcost' by assumption. inversion Hcost'. nra.
Qed.

Lemma local_cost_at_defaults :
  exists cost,
    _calculate_local_cost (10%Z, 1 / 2) (1 / 2) default_raptparams 16000 = Ok cost
    /\ 0 <= cost <= 1
    /\ (snd (10%Z, 1 / 2) = 0 -> cost = 1)
    /\ forall correlation cost',
         snd (10%Z, 1 / 2) <= correlation ->
         _calculate_local_cost (fst (10%Z, 1 / 2), correlation) (1 / 2)
           default_raptparams 16000 = Ok cost' ->
         cost' <= cost.
Proof.
  apply (local_cost_of_voiced (10%Z, 1 / 2) (1 / 2) default_raptparams 16000).
  - reflexivity.
  - reflexivity.
  - reflexivity.
  - cbn. lra.
  - cbn. lra.
  - cbn. lra.
Defined.

(** ** The interpolated peak of a local maximum *)

(** X19.  Over exact real arithmetic: at a lag index that is not at either
    end of the list and whose correlation is a local maximum (no smaller than
    its two neighbours and larger than one of them), the interpolation
    returns: the parabola is not degenerate, its vertex lies within half a
    sample of the lag [lag_index + shortest_lag_per_frame], and the candidate
    is the vertex scaled by the rate ratio and rounded, with the correlation
    of the index.  The rounding of the least-squares fit of numpy, which can
    move the rounded lag by one when the scaled vertex falls on a half, is not
    modelled. *)
Theorem peak_of_local_maximum (lag_results : list R) (lag_index : Z)
    (params : params_t) :
  let y0 := nth (Z.to_nat (lag_index - 1)) lag_results 0 in
  let y1 := nth (Z.to_nat lag_index) lag_results 0 in
  let y2 := nth (Z.to_nat (lag_index + 1)) lag_results 0 in
  (0 < lag_index < py_len lag_results - 1)%Z ->
  y0 <= y1 -> y2 <= y1 -> y0 < y1 \/ y2 < y1 ->
  exists vertex,
    _get_peak_lag_val lag_results lag_index params
    = Ok (py_int (py_round (vertex * sample_rate_ratio (fst params))), y1)
    /\ vertex = IZR (lag_index + shortest_lag_per_frame (snd params))
                + (y2 - y0) / (2 * (2 * y1 - y0 - y2))
    /\ Rabs (vertex - IZR (lag_index + shortest_lag_per_frame (snd params))) <= 1 / 2.
Proof.
  intros y0 y1 y2 Hidx H0 H2 Hstrict.
  assert (Hcurve : 0 < 2 * y1 - y0 - y2) by (destruct Hstrict; lra).
  rewrite peak_lag_val_equation by lia. cbv zeta.
  unfold peak_window_start.
  replace (lag_index =? 0)%Z with false by lia.
  replace (lag_index =? py_len lag_results - 1)%Z with false by lia.
  replace (lag_index - 1 + 1)%Z with lag_index by lia.
  replace (lag_index - 1 + 2)%Z with (lag_index + 1)%Z by lia.
  fold y0 y1 y2.
  assert (Ha : parabola_a y0 y1 y2 <> 0) by (unfold parabola_a; lra).
  rewrite Reqb_false by assumption.
  set (x1 := IZR (lag_index + shortest_lag_per_frame (snd params))).
  assert (Hvertex :
            - parabola_b (IZR (lag_index - 1 + shortest_lag_per_frame (snd params)))
                y0 y1 y2 / (2 * parabola_a y0 y1 y2)
            = x1 + (y2 - y0) / (2 * (2 * y1 - y0 - y2))).
  { subst x1. unfold parabola_b, parabola_a.
    replace (lag_index - 1 + shortest_lag_per_frame (snd params))%Z
      with (lag_index + shortest_lag_per_frame (snd params) - 1)%Z by lia.
    rewrite minus_IZR. field. lra. }
  rewrite Hvertex.
  exists (x1 + (y2 - y0) / (2 * (2 * y1 - y0 - y2))).
  split; [reflexivity|]. split; [reflexivity|].
  replace (x1 + (y2 - y0) / (2 * (2 * y1 - y0 - y2)) - x1)
    with ((y2 - y0) / (2 * (2 * y1 - y0 - y2))) by ring.
  apply Rabs_le.
  assert (Hden : 0 < 2 * (2 * y1 - y0 - y2)) by lra.
  split.
  - apply (Rmult_le_reg_r (2 * (2 * y1 - y0 - y2))); [assumption|].
    unfold Rdiv. rewrite Rmult_assoc, Rinv_l by lra. lra.
  - apply (Rmult_le_reg_r (2 * (2 * y1 - y0 - y2))); [assumption|].
    unfold Rdiv. rewrite Rmult_assoc, Rinv_l by lra. lra.
Qed.

Lemma peak_of_a_symmetric_maximum :
  exists vertex,
    _get_peak_lag_val [0; 1; 0] 1 (toy_raptparams, toy_first_geometry)
    = Ok (py_int (py_round (vertex * 2)), 1)
    /\ vertex = IZR (1 + 4) + (0 - 0) / (2 * (2 * 1 - 0 - 0))
    /\ Rabs (vertex - IZR (1 + 4)) <= 1 / 2.
Proof.
  apply (peak_of_local_maximum [0; 1; 0] 1 (toy_raptparams, toy_first_geometry)).
  - unfold py_len. cbn [length]. lia.
  - change (0 <= 1). lra.
  - change (0 <= 1). lra.
  - left. change (0 < 1). lra.
Defined.

(** ** The cost table *)

Lemma best_cost_after_nodes (candidate : hypothesis) (local_cost : R)
    (candidate_list : list (list node)) (params : Raptparams) (sample_rate : Z)
    (cost : R) :
  Forall (fun nodes => nodes <> []) candidate_list ->
  _get_best_cost candidate local_cost candidate_list params sample_rate = Ok cost ->
  cost = local_cost.
Proof.
  intros Hrows. unfold _get_best_cost.
  destruct candidate_list as [|row rest]; [intros H; inversion H; lra|].
  destruct (py_getitem (row :: rest) (-1)) as [previous|] eqn:Eprev; cbn [bind];
    [|discriminate].
  apply py_getitem_in in Eprev. rewrite Forall_forall in Hrows.
  specialize (Hrows previous Eprev).
  intros H. inversion H; subst. clear H.
  induction previous as [|prev previous IH] using rev_ind; [contradiction|].
  rewrite fold_left_app. cbn. lra.
Qed.

Lemma costs_per_frame_nodes (frame_idx : Z) (new_candidates : list (list node))
    (nccf_results : list (list hypothesis)) (params : Raptparams) (sample_rate : Z)
    (nodes : list node) :
  Forall (fun row => row <> []) new_candidates ->
  _calculate_costs_per_frame frame_idx new_candidates nccf_results params sample_rate
  = Ok nodes ->
  exists frame,
    py_getitem nccf_results frame_idx = Ok frame
    /\ Forall2
         (fun (nd : node) (h : hypothesis) =>
            snd nd = h
            /\ _calculate_local_cost h (_select_max_correlation_for_frame frame)
                 params sample_rate = Ok (fst nd))
         nodes frame.
Proof.
  intros Hrows. unfold _calculate_costs_per_frame.
  destruct (py_getitem nccf_results frame_idx) as [frame|]; cbn [bind]; [|discriminate].
  intros Hrun. exists frame. split; [reflexivity|].
  set (max_for_frame := _select_max_correlation_for_frame frame) in *.
  clearbody max_for_frame.
  enough (H : forall l acc res,
             for_each
               (fun frame_candidates candidate =>
                  local_cost <-
                    _calculate_local_cost candidate max_for_frame params sample_rate ;;
                  best_cost <-
                    _get_best_cost candidate local_cost new_candidates params sample_rate ;;
                  Ok (frame_candidates ++ [(best_cost, candidate)])) l acc
             = Ok res ->
             exists added,
               res = acc ++ added
               /\ Forall2
                    (fun (nd : node) (h : hypothesis) =>
                       snd nd = h
                       /\ _calculate_local_cost h max_for_frame params sample_rate
                          = Ok (fst nd))
                    added l).
  { destruct (H frame [] nodes Hrun) as (added & -> & Hadded). exact Hadded. }
  induction l as [|h l IH]; intros acc res Hl; cbn [for_each] in Hl.
  - inversion Hl; subst. exists []. split; [now rewrite app_nil_r | constructor].
  - destruct (_calculate_local_cost h _ _ _) as [lc|] eqn:Elc; cbn [bind] in Hl;
      [|discriminate].
    destruct (_get_best_cost _ _ _ _ _) as [bc|] eqn:Ebc; cbn [bind] in Hl;
      [|discriminate].
    apply best_cost_after_nodes in Ebc; [|assumption]. subst bc.
    destruct (IH _ _ Hl) as (added & -> & Hadded).
    exists ((lc, h) :: added). split; [now rewrite <- app_assoc|].
    constructor; [|assumption]. split; [reflexivity | exact Elc].
Qed.

Lemma forall2_length {A B : Type} (R : A -> B -> Prop) (l : list A) (l' : list B) :
  Forall2 R l l' -> length l = length l'.
Proof. induction 1; cbn; congruence. Qed.

Lemma process_candidates_nodes (depth : nat) (frame_idx : Z)
    (nccf_results : list (list hypothesis)) (raptparam : Raptparams) (sample_rate : Z)
    (table : list (list node)) :
  Forall (fun frame => frame <> []) nccf_results ->
  process_candidates_from depth frame_idx nccf_results raptparam sample_rate = Ok table ->
  Forall (fun row => row <> []) table
  /\ Forall2
       (fun nodes i =>
          exists frame,
            py_getitem nccf_results i = Ok frame
            /\ Forall2
                 (fun (nd : node) (h : hypothesis) =>
                    snd nd = h
                    /\ _calculate_local_cost h (_select_max_correlation_for_frame frame)
                         raptparam sample_rate = Ok (fst nd))
                 nodes frame)
       table (xrange (frame_idx - Z.of_nat depth) (frame_idx + 1)).
Proof.
  intros Hframes.
  assert (Hrow : forall i nc nodes,
             Forall (fun row => row <> []) nc ->
             _calculate_costs_per_frame i nc nccf_results raptparam sample_rate
             = Ok nodes ->
             nodes <> []
             /\ exists frame,
                  py_getitem nccf_results i = Ok frame
                  /\ Forall2
                       (fun (nd : node) (h : hypothesis) =>
                          snd nd = h
                          /\ _calculate_local_cost h
                               (_select_max_correlation_for_frame frame)
                               raptparam sample_rate = Ok (fst nd))
                       nodes frame).
  { intros i nc nodes Hnc Hc.
    destruct (costs_per_frame_nodes _ _ _ _ _ _ Hnc Hc) as (frame & Hget & Hnodes).
    split; [|eauto]. intros ->. apply forall2_length in Hnodes.
    apply py_getitem_in in Hget. rewrite Forall_forall in Hframes.
    apply (Hframes frame Hget). destruct frame; [reflexivity | discriminate]. }
  revert frame_idx table. induction depth as [|d IH]; intros frame_idx table Hrun;
    cbn [process_candidates_from] in Hrun.
  - cbn [bind] in Hrun.
    destruct (_calculate_costs_per_frame _ _ _ _ _) as [nodes|] eqn:Ec;
      cbn [bind] in Hrun; [|discriminate].
    inversion Hrun; subst. rewrite Z.sub_0_r, xrange_cons, xrange_nil by lia.
    destruct (Hrow _ _ _ (Forall_nil _) Ec) as [Hne Hnodes].
    split; repeat constructor; assumption.
  - destruct (process_candidates_from d _ _ _ _) as [earlier|] eqn:Er;
      cbn [bind] in Hrun; [|discriminate].
    destruct (_calculate_costs_per_frame _ _ _ _ _) as [nodes|] eqn:Ec;
      cbn [bind] in Hrun; [|discriminate].
    inversion Hrun; subst. rewrite xrange_snoc by lia.
    destruct (IH _ _ Er) as [Hrows Hearlier].
    destruct (Hrow _ _ _ Hrows Ec) as [Hne Hnodes].
    split.
    + apply Forall_app. split; [assumption | repeat constructor; assumption].
    + apply Forall2_app.
      * replace (frame_idx - Z.of_nat (S d))%Z with (frame_idx - 1 - Z.of_nat d)%Z
          by lia.
        now replace (frame_idx - 1 + 1)%Z with frame_idx in Hearlier by lia.
      * repeat constructor. assumption.
Qed.

(** X20.  In the table the tracker builds, row [i] holds one node per
    hypothesis of frame [i], in the order of the frame, the unvoiced entry
    last, and the cost of every node is the local cost of its hypothesis: no
    transition cost and no cost of an earlier frame is added. *)
Theorem cost_table_holds_local_costs (nccf_results : list (list hypothesis))
    (raptparam : Raptparams) (sample_rate : Z) (table : list (list node)) :
  let frames := add_unvoiced nccf_results in
  _process_candidates (py_len frames - 1) frames raptparam sample_rate = Ok table ->
  Forall2
    (fun nodes i =>
       exists frame,
         py_getitem frames i = Ok frame
         /\ Forall2
              (fun (nd : node) (h : hypothesis) =>
                 snd nd = h
                 /\ _calculate_local_cost h (_select_max_correlation_for_frame frame)
                      raptparam sample_rate = Ok (fst nd))
              nodes frame)
    table (xrange 0 (py_len frames)).
Proof.
  intros frames Hrun. unfold _process_candidates in Hrun.
  assert (Hframes : Forall (fun frame => frame <> []) frames).
  { subst frames. unfold add_unvoiced. apply Forall_map, Forall_forall.
    intros frame _. now destruct frame. }
  destruct (Z_lt_le_dec 0 (py_len frames)) as [Hpos|Hzero].
  - apply (process_candidates_nodes _ _ _ _ _ _ Hframes) in Hrun as [_ Hrun].
    rewrite Z2Nat.id in Hrun by lia.
    replace (py_len frames - 1 - (py_len frames - 1))%Z with 0%Z in Hrun by lia.
    now replace (py_len frames - 1 + 1)%Z with (py_len frames) in Hrun by lia.
  - exfalso. assert (Hnil : frames = []).
    { destruct frames; [reflexivity | unfold py_len in Hzero; cbn in Hzero; lia]. }
    rewrite Hnil in Hrun. discriminate Hrun.
Qed.

Lemma one_frame_cost_table :
  _process_candidates (py_len (add_unvoiced [[(10%Z, 1 / 2)]]) - 1)
    (add_unvoiced [[(10%Z, 1 / 2)]]) default_raptparams 16000
  = Ok [[(1 - 1 / 2 * (1 - 0.3 / (16000 / 50) * 10), (10%Z, 1 / 2)); (1 / 2, unvoiced)]].
Proof. reval. repeat (f_equal; try lra). Qed.

Lemma cost_table_of_one_frame :
  Forall2
    (fun nodes i =>
       exists frame,
         py_getitem (add_unvoiced [[(10%Z, 1 / 2)]]) i = Ok frame
         /\ Forall2
              (fun (nd : node) (h : hypothesis) =>
                 snd nd = h
                 /\ _calculate_local_cost h (_select_max_correlation_for_frame frame)
                      default_raptparams 16000 = Ok (fst nd))
              nodes frame)
    [[(1 - 1 / 2 * (1 - 0.3 / (16000 / 50) * 10), (10%Z, 1 / 2)); (1 / 2, unvoiced)]]
    (xrange 0 (py_len (add_unvoiced [[(10%Z, 1 / 2)]]))).
Proof.
  apply (cost_table_holds_local_costs [[(10%Z, 1 / 2)]] default_raptparams 16000).
  exact one_frame_cost_table.
Defined.

(** ** A periodic window *)

Lemma sigma_ext (n : Z) (f g : Z -> R) :
  (forall j, (0 <= j < n)%Z -> f j = g j) -> NCCF.sigma n f = NCCF.sigma n g.
Proof.
  intros H. unfold NCCF.sigma. f_equal. apply map_ext_in.
  intros j Hj. apply in_xrange in Hj. now apply H.
Qed.

(** X21.  Over exact real arithmetic: when the window at lag [lag] repeats
    the reference window sample for sample, both inside the buffer, and the
    reference window is not constant, the first-pass correlation at that lag
    is 1, the largest value the exact quotient takes; on the second pass,
    with a positive additive constant, it is positive and below 1.  The
    rounding of doubles, under which the first value can differ from 1 by an
    ulp and the second can reach 1 when the constant is absorbed by large
    energies, is not modelled. *)
Theorem periodic_window_correlates_fully
    (a : audio) (params : params_t) (frame lag : Z) :
  let n := samples_correlated_per_lag (snd params) in
  let m := (frame * samples_per_frame (snd params))%Z in
  (0 < n)%Z -> (0 <= m)%Z -> (0 <= lag)%Z ->
  past_end a frame lag params = false ->
  (forall j, (0 <= j < n)%Z ->
     nth (Z.to_nat (m + lag + j)) (snd a) 0 = nth (Z.to_nat (m + j)) (snd a) 0) ->
  NCCF.energy a m n 0 <> 0 ->
  _get_correlation a frame lag params true = Ok 1
  /\ (0 < additive_constant (fst params) ->
      exists v, _get_correlation a frame lag params false = Ok v /\ 0 < v < 1).
Proof.
  intros n m Hn Hm Hlag Hend Hperiod Henergy.
  assert (Hin : (m + lag + n - 1 < py_len (snd a))%Z).
  { unfold past_end in Hend. apply Z.leb_gt in Hend. subst n m. lia. }
  assert (Hnum : NCCF.numerator a m n lag = NCCF.energy a m n 0).
  { unfold NCCF.numerator, NCCF.energy. apply sigma_ext. intros j Hj.
    unfold NCCF.x. rewrite Z.add_0_r. now rewrite Hperiod. }
  assert (Hlagged : NCCF.energy a m n lag = NCCF.energy a m n 0).
  { unfold NCCF.energy. apply sigma_ext. intros j Hj.
    unfold NCCF.x. rewrite Z.add_0_r. now rewrite Hperiod. }
  pose proof (energy_nonneg a m n 0) as Hpos.
  set (e0 := NCCF.energy a m n 0) in *.
  split.
  - rewrite (get_correlation_in_range a params frame lag n m eq_refl eq_refl)
      by assumption.
    unfold NCCF.radicand. rewrite Hnum, Hlagged. fold e0.
    rewrite py_sqrt_ok by nra. cbn [bind].
    rewrite sqrt_square by assumption.
    rewrite py_div_ok by assumption. f_equal. now field.
  - intros HC.
    rewrite (get_correlation_in_range a params frame lag n m eq_refl eq_refl)
      by assumption.
    unfold NCCF.radicand. rewrite Hnum, Hlagged. fold e0.
    assert (Hroot : e0 < sqrt (e0 * e0 + additive_constant (fst params))).
    { rewrite <- (sqrt_square e0) at 1 by assumption. apply sqrt_lt_1; nra. }
    rewrite py_sqrt_ok by nra. cbn [bind].
    rewrite py_div_ok by lra.
    eexists. split; [reflexivity|]. split.
    + apply Rdiv_lt_0_compat; lra.
    + apply (Rmult_lt_reg_r (sqrt (e0 * e0 + additive_constant (fst params))));
        [lra|].
      unfold Rdiv. rewrite Rmult_assoc, Rinv_l by lra. lra.
Qed.

Lemma toy_window_repeats_at_lag_4 :
  _get_correlation toy_downsampled 0 4 (toy_raptparams, toy_first_geometry) true = Ok 1
  /\ exists v,
       _get_correlation toy_downsampled 0 4 (toy_raptparams, toy_first_geometry) false
       = Ok v
       /\ 0 < v < 1.
Proof.
  destruct (periodic_window_correlates_fully toy_downsampled
              (toy_raptparams, toy_first_geometry) 0 4) as [Hfirst Hsecond].
  - reflexivity.
  - discriminate.
  - discriminate.
  - reflexivity.
  - intros j Hj. assert (Hcases : j = 0%Z \/ j = 1%Z) by (cbn in Hj; lia).
    destruct Hcases as [-> | ->]; reflexivity.
  - replace (NCCF.energy toy_downsampled _ _ 0) with 2 by (rcompute; field). lra.
  - split; [exact Hfirst|]. apply Hsecond. cbn. lra.
Defined.

(** ** The frames of the first pass *)

Lemma cap_candidates_length (candidates : list hypothesis) (params : params_t) :
  (1 <= max_hypotheses_per_frame (fst params))%Z ->
  (py_len (cap_candidates candidates params)
   <= max_hypotheses_per_frame (fst params) - 1)%Z.
Proof.
  intros Hmax. unfold cap_candidates. cbv zeta.
  destruct (Z.ltb_spec (max_hypotheses_per_frame (fst params) - 1) (py_len candidates))
    as [Hcap|Hcap]; [|lia].
  rewrite py_slice_prefix by lia. unfold py_len.
  rewrite (Permutation_length (sort_by_lag_perm _)), length_firstn. lia.
Qed.

(** X22.  With room for one voiced hypothesis
    ([max_hypotheses_per_frame >= 1]), when the first pass returns it returns
    one list per frame of its buffer, [max(0, max_frame_count)] lists, and
    every list has at most [max_hypotheses_per_frame - 1] candidates. *)
Theorem first_pass_frame_lists
    (a : audio) (raptparam : Raptparams) (nccfparam : Nccfparams)
    (first_pass : list (list hypothesis)) :
  _get_nccf_params a raptparam true = Ok nccfparam ->
  (1 <= max_hypotheses_per_frame raptparam)%Z ->
  _first_pass_nccf a raptparam = Ok first_pass ->
  py_len first_pass = Z.max 0 (max_frame_count nccfparam)
  /\ Forall
       (fun frame : list hypothesis =>
          (py_len frame <= max_hypotheses_per_frame raptparam - 1)%Z)
       first_pass.
Proof.
  intros Hgeo Hmax. unfold _first_pass_nccf. rewrite Hgeo. cbn [bind].
  intros Hrun.
  apply frame_loop_forall
    with (P := fun frame : list hypothesis =>
                 (py_len frame <= max_hypotheses_per_frame raptparam - 1)%Z)
    in Hrun as [Hall Hlen].
  - split; [unfold py_len; lia | exact Hall].
  - intros i r. unfold _get_firstpass_frame_results, _get_marked_results.
    destruct (_get_correlations_for_all_lags _ _ _ _) as [lag_results|];
      cbn [bind]; [|discriminate].
    destruct (marked_candidates lag_results _ true) as [marked|]; cbn [bind];
      [|discriminate].
    intros H. inversion H; subst.
    now apply (cap_candidates_length marked (raptparam, nccfparam)).
Qed.

Lemma toy_first_pass_shape :
  py_len [[(11%Z, 1)]] = Z.max 0 (max_frame_count toy_first_geometry)
  /\ Forall
       (fun frame : list hypothesis =>
          (py_len frame <= max_hypotheses_per_frame toy_raptparams - 1)%Z)
       [[(11%Z, 1)]].
Proof.
  apply (first_pass_frame_lists toy_downsampled toy_raptparams toy_first_geometry).
  - reflexivity.
  - discriminate.
  - exact toy_first_pass.
Defined.
